(** * Blockhouse Capital signal pipeline: indicators, windowing, signals

    A shallow embedding of the notebook
    [Blockhouse_capital_FinalCode_RahulShetty.ipynb]: the loading of
    cell 2, the technical indicators of cell 4, the scaling of cell 6,
    the [TradeDataset] class of cell 8, the shape handling of
    [TransformerModel.forward] (cell 10), the function
    [generate_signals_batch] (cell 14) and the column assignment of cell 16.

    Numbers.  The notebook computes on IEEE floating-point numbers.  They
    are modelled by exact rationals extended with the three special values
    of IEEE arithmetic ([+inf], [-inf], [NaN]): rounding, overflow and the
    sign of zero are abstracted away, while division by zero and the
    propagation of [NaN] (pandas' "missing" value) are kept.  Where
    a fact about computed values would hold on ordinary inputs only
    without rounding (a re-scaled maximum being exactly 1, [%K] being at
    most 100), it is not asserted: the theorems on such values state
    which entries are missing or infinite, signs, order, zeros that are
    exact, and the expression the code evaluates.

    Library code.  The pandas, numpy, scikit-learn and torch operations the
    notebook calls are written out from their documented behaviour, next to
    the notebook functions that use them. *)

From Stdlib Require Import List Arith ZArith QArith Qminmax Qabs Lia Lqa Bool.
Import ListNotations.

Local Close Scope Q_scope.
Local Open Scope nat_scope.

(* ================================================================= *)
(** * Part I: the model *)
(* ================================================================= *)

(* ----------------------------------------------------------------- *)
(** ** Floating-point values *)

Module Num.

(** A float: a finite value, an infinity, or NaN. *)
Inductive num : Type :=
| Fin (q : Q)
| PInf
| NInf
| NaN.

Definition isnan (v : num) : bool :=
  match v with NaN => true | _ => false end.

Definition isinf (v : num) : bool :=
  match v with PInf | NInf => true | _ => false end.

Definition isfinite (v : num) : bool :=
  match v with Fin _ => true | _ => false end.

Definition Qltb (x y : Q) : bool :=
  match Qcompare x y with Lt => true | _ => false end.

Definition vneg (v : num) : num :=
  match v with
  | Fin q => Fin (- q)%Q
  | PInf => NInf
  | NInf => PInf
  | NaN => NaN
  end.

Definition vabs (v : num) : num :=
  match v with
  | Fin q => Fin (Qabs q)
  | PInf | NInf => PInf
  | NaN => NaN
  end.

Definition vadd (a b : num) : num :=
  match a, b with
  | NaN, _ | _, NaN => NaN
  | Fin x, Fin y => Fin (x + y)%Q
  | PInf, NInf | NInf, PInf => NaN
  | PInf, _ | _, PInf => PInf
  | NInf, _ | _, NInf => NInf
  end.

Definition vsub (a b : num) : num := vadd a (vneg b).

(** The sign of a rational as an infinity, [NaN] for zero:
    the value of [inf * q]. *)
Definition inf_times (q : Q) : num :=
  match Qcompare q 0 with
  | Gt => PInf
  | Lt => NInf
  | Eq => NaN
  end.

Definition vmul (a b : num) : num :=
  match a, b with
  | NaN, _ | _, NaN => NaN
  | Fin x, Fin y => Fin (x * y)%Q
  | PInf, Fin q | Fin q, PInf => inf_times q
  | NInf, Fin q | Fin q, NInf => vneg (inf_times q)
  | PInf, PInf | NInf, NInf => PInf
  | PInf, NInf | NInf, PInf => NInf
  end.

(** Division as numpy and pandas do it on floats: a non-zero value over
    zero is an infinity, zero over zero is [NaN], and nothing is raised. *)
Definition vdiv (a b : num) : num :=
  match a, b with
  | NaN, _ | _, NaN => NaN
  | Fin x, Fin y =>
      if Qeq_bool y 0 then inf_times x else Fin (x / y)%Q
  | Fin _, (PInf | NInf) => Fin 0
  | (PInf | NInf), (PInf | NInf) => NaN
  | PInf, Fin y => if Qltb y 0 then NInf else PInf
  | NInf, Fin y => if Qltb y 0 then PInf else NInf
  end.

(** [a < b]; every comparison with [NaN] is false. *)
Definition vlt (a b : num) : bool :=
  match a, b with
  | NaN, _ | _, NaN => false
  | Fin x, Fin y => Qltb x y
  | NInf, (Fin _ | PInf) => true
  | Fin _, PInf => true
  | _, _ => false
  end.

Definition vgt (a b : num) : bool := vlt b a.

(** [np.maximum]: the larger operand, [NaN] as soon as one operand is. *)
Definition np_maximum (a b : num) : num :=
  match a, b with
  | NaN, _ | _, NaN => NaN
  | _, _ => if vlt a b then b else a
  end.

(** Numerical equality of two floats read as values (the rationals up to
    [Qeq]); used to state results, not by the program. *)
Definition veq (a b : num) : Prop :=
  match a, b with
  | Fin x, Fin y => (x == y)%Q
  | PInf, PInf | NInf, NInf | NaN, NaN => True
  | _, _ => False
  end.

Definition veqb (a b : num) : bool :=
  match a, b with
  | Fin x, Fin y => Qeq_bool x y
  | PInf, PInf | NInf, NInf | NaN, NaN => true
  | _, _ => false
  end.

End Num.
Export Num.

(* ----------------------------------------------------------------- *)
(** ** Python indexing *)

Module Py.

Local Open Scope Z_scope.

(** [l[i]] for a Python integer: a negative index counts from the end,
    an index outside [-len, len) raises [IndexError] ([None]). *)
Definition index {A} (l : list A) (i : Z) : option A :=
  let n := Z.of_nat (length l) in
  if 0 <=? i then nth_error l (Z.to_nat i)
  else if - n <=? i then nth_error l (Z.to_nat (n + i))
  else None.

(** One bound of a slice, as [slice.indices] normalises it. *)
Definition clip (n i : Z) : Z :=
  if i <? 0 then Z.max 0 (n + i) else Z.min i n.

(** [l[a:b]]: bounds are normalised and clipped, nothing is raised. *)
Definition slice {A} (l : list A) (a b : Z) : list A :=
  let n := Z.of_nat (length l) in
  let a' := clip n a in
  let b' := clip n b in
  firstn (Z.to_nat (b' - a')) (skipn (Z.to_nat a') l).

(** [range(0, stop, step)] for [step > 0]. *)
Definition range0 (stop step : Z) : list Z :=
  map (fun k => Z.of_nat k * step)
      (seq 0 (Z.to_nat ((stop + step - 1) / step))).

End Py.

(* ----------------------------------------------------------------- *)
(** ** The table *)

(** The twelve columns named by the list [features] of the notebook. *)
Inductive Feature : Type :=
| Close | Volume | RSI | MACD | MACD_signal | Stoch_k | Stoch_d
| OBV | Upper_BB | Lower_BB | ATR | ADX.

Definition features : list Feature :=
  [Close; Volume; RSI; MACD; MACD_signal; Stoch_k; Stoch_d;
   OBV; Upper_BB; Lower_BB; ATR; ADX].

(** One row of the data frame: the twelve feature cells, and the cells of
    the remaining columns (the raw columns of the file, [High], [Low],
    [Open]). *)
Record Row : Type := mkRow {
  cell : Feature -> num;
  others : list num
}.

Definition DataFrame : Type := list Row.

(** [row[features].values]: the feature vector of a row. *)
Definition values (r : Row) : list num := map (cell r) features.

(** [data.iloc[i][col]] *)
Definition iloc (data : DataFrame) (i : Z) : option Row := Py.index data i.

(** [data.iloc[a:b]] *)
Definition iloc_slice (data : DataFrame) (a b : Z) : DataFrame :=
  Py.slice data a b.

(* ----------------------------------------------------------------- *)
(** ** The forecaster and the signal generator *)

Inductive Signal : Type := BUY | SELL | HOLD.

Module Model.
Section Forecaster.

(** The trained network on one sequence of feature vectors: the input
    projection of every step, the encoder stack over the steps, the mean
    over the time axis and the final projection to a scalar.  Torch
    treats the members of a batch independently of each other, so a
    batch is mapped member by member. *)
Variable encode : list (list num) -> num.

(** A tensor of rank 2 ([steps x 12]) or rank 3 ([batch x steps x 12]). *)
Inductive Tensor : Type :=
| Rank2 (m : list (list num))
| Rank3 (b : list (list (list num))).

(** [x.unsqueeze(1)] on a rank-2 tensor: [k x 12] becomes [k x 1 x 12]. *)
Definition unsqueeze1 (m : list (list num)) : Tensor :=
  Rank3 (map (fun r => [r]) m).

(** [TransformerModel.forward]: a rank-2 input is one sequence (a batch
    of one); a rank-3 input is permuted so that its second axis is the
    sequence axis of the encoder and its first axis the batch.  One
    prediction per member of the batch. *)
Definition forward (src : Tensor) : list num :=
  match src with
  | Rank2 m => [encode m]
  | Rank3 b => map encode b
  end.

(** [process_batch] of [generate_signals_batch]. *)
Definition process_batch (batch : list (list num)) (start_idx : Z)
  : list num * Z :=
  let x := Rank2 batch in
  let x := match x with Rank2 m => unsqueeze1 m | _ => x end in
  (forward x, start_idx).

(** The three-way decision in the body of the inner loop. *)
Definition decide (pred close threshold_buy threshold_sell : num) : Signal :=
  if vgt (vsub (vdiv pred close) (Fin 1)) threshold_buy then BUY
  else if vlt (vsub (vdiv pred close) (Fin 1)) threshold_sell then SELL
  else HOLD.

(** The inner loop [for j, pred in enumerate(preds)], from position [j]
    on; [acc] holds the lists [signals] and [predictions].  [None] is an
    [IndexError] of [data.iloc]. *)
Fixpoint inner_loop (data : DataFrame) (threshold_buy threshold_sell : num)
    (batch_start_idx : Z) (preds : list num) (j : nat)
    (acc : list Signal * list num) : option (list Signal * list num) :=
  match preds with
  | [] => Some acc
  | pred :: rest =>
      let i := (batch_start_idx + Z.of_nat j)%Z in
      if (Z.of_nat (length data) <=? i + 60)%Z then Some acc
      else
        match iloc data (i + 60) with
        | None => None
        | Some r =>
            inner_loop data threshold_buy threshold_sell batch_start_idx
              rest (S j)
              (fst acc ++ [decide pred (cell r Close)
                             threshold_buy threshold_sell],
               snd acc ++ [pred])
        end
  end.

(** The outer loop over the list [batches]. *)
Fixpoint outer_loop (data : DataFrame) (threshold_buy threshold_sell : num)
    (batches : list (list (list num) * Z))
    (acc : list Signal * list num) : option (list Signal * list num) :=
  match batches with
  | [] => Some acc
  | (batch, start_idx) :: rest =>
      let '(preds, batch_start_idx) := process_batch batch start_idx in
      match inner_loop data threshold_buy threshold_sell
              batch_start_idx preds 0 acc with
      | None => None
      | Some acc' =>
          outer_loop data threshold_buy threshold_sell rest acc'
      end
  end.

(** [generate_signals_batch(model, data, batch_size, threshold_buy,
    threshold_sell)]; [batch_size] is positive (512 by default). *)
Definition generate_signals_batch (data : DataFrame) (batch_size : positive)
    (threshold_buy threshold_sell : num)
  : option (list Signal * list num) :=
  let batches :=
    map (fun i =>
           (map values (iloc_slice data i (i + Z.pos batch_size)), i))
        (Py.range0 (Z.of_nat (length data) - 60) (Z.pos batch_size)) in
  outer_loop data threshold_buy threshold_sell batches ([], []).

Definition default_batch_size : positive := 512.
Definition default_threshold_buy : num := Fin (5 # 1000).
Definition default_threshold_sell : num := Fin (- 5 # 1000).

(** The output table: the input rows with the two new columns. *)
Record Labelled : Type := mkLabelled {
  row : Row;
  Signal_col : Signal;
  Prediction_col : option num
}.

(** Assignment of a list to a new column: pandas raises [ValueError]
    ([None]) unless the list has one entry per row.  A table without
    rows is the exception ([DataFrame._ensure_valid_index]): a non-empty
    list then defines the index, and the table gets one row per entry of
    the list, with [blank] (missing cells) in the columns it had. *)
Definition assign_column {A B C} (blank : A) (f : A -> B -> C)
    (table : list A) (col : list B) : option (list C) :=
  if length col =? length table
  then Some (map (fun p => f (fst p) (snd p)) (combine table col))
  else if length table =? 0 then Some (map (f blank) col)
  else None.

(** A row of missing cells: what re-indexing puts in the feature columns
    of a table that had no rows (the number of its other columns is not
    recorded by an empty list of rows). *)
Definition blank_row : Row := mkRow (fun _ => NaN) [].

(** Cell 16: generate the signals with the default arguments and store
    them, behind 60 padding entries, in the columns [Signal] and
    [Prediction].  The second assignment never meets a table without
    rows: after the first one the table has at least the 60 padding
    rows. *)
Definition label_table (data : DataFrame) : option (list Labelled) :=
  match generate_signals_batch data default_batch_size
          default_threshold_buy default_threshold_sell with
  | None => None
  | Some (signals, predictions) =>
      match assign_column blank_row pair data
              (repeat HOLD 60 ++ signals) with
      | None => None
      | Some with_signal =>
          assign_column (blank_row, HOLD)
            (fun rs p => mkLabelled (fst rs) (snd rs) p)
            with_signal (repeat None 60 ++ map Some predictions)
      end
  end.

(** Vocabulary of the statements: the prediction the generator computes
    for one row, and every row [i] paired with row [i + 60]. *)
Definition predict_row (r : Row) : num := encode [values r].

Definition lagged (data : DataFrame) : list (Row * Row) :=
  combine data (skipn 60 data).

Definition signal_of (threshold_buy threshold_sell : num)
    (p : Row * Row) : Signal :=
  decide (predict_row (fst p)) (cell (snd p) Close)
    threshold_buy threshold_sell.

End Forecaster.
End Model.

(* ----------------------------------------------------------------- *)
(** ** pandas and numpy operations on a column *)

Module Pandas.

(** A column with the default index [0 .. n-1]. *)
Definition Series : Type := list num.

(** A binary operation on two series: the operands are aligned on their
    index, and a position that only one of them has is filled with
    [NaN].  This is [a + b], [a - b], [a / b] and [a.combine(b, f)]. *)
Fixpoint align (f : num -> num -> num) (a b : Series) : Series :=
  match a, b with
  | [], _ => map (f NaN) b
  | _, [] => map (fun x => f x NaN) a
  | x :: a', y :: b' => f x y :: align f a' b'
  end.

(** [s.shift()] *)
Definition shift (s : Series) : Series :=
  match s with
  | [] => []
  | _ :: _ => NaN :: removelast s
  end.

(** [s.diff()] *)
Definition diff (s : Series) : Series := align vsub s (shift s).

(** [s.where(cond(s), other)]: keep the entries that satisfy the
    condition, replace the others. *)
Definition where_ (cond : num -> bool) (other : num) (s : Series) : Series :=
  map (fun v => if cond v then v else other) s.

(** [s[cond(s)] = value] *)
Definition setmask (cond : num -> bool) (value : num) (s : Series) : Series :=
  map (fun v => if cond v then value else v) s.

(** The entries a window function observes: pandas turns the infinite
    entries into [NaN] before it calls the window routine, and [NaN] is
    not an observation. *)
Fixpoint observations (l : list num) : list Q :=
  match l with
  | [] => []
  | Fin q :: t => q :: observations t
  | _ :: t => observations t
  end.

(** The window of width [w] that ends at position [i]. *)
Definition window (w : nat) (s : Series) (i : nat) : list num :=
  skipn (S i - w) (firstn (S i) s).

(** [s.rolling(window=w).agg()]: [min_periods] defaults to [w], so the
    result is [NaN] unless the window holds [w] observations. *)
Definition rolling (w : nat) (agg : list Q -> num) (s : Series) : Series :=
  map (fun i =>
         let obs := observations (window w s i) in
         if (length obs <? w) || (length obs =? 0) then NaN else agg obs)
      (seq 0 (length s)).

Definition Qsum (l : list Q) : Q := fold_right Qplus 0%Q l.

Definition Qlen (l : list Q) : Q := inject_Z (Z.of_nat (length l)).

Definition Qmean (l : list Q) : Q := (Qsum l / Qlen l)%Q.

Definition agg_mean (obs : list Q) : num := Fin (Qmean obs).

Definition agg_min (obs : list Q) : num :=
  match obs with
  | [] => NaN
  | x :: t => Fin (fold_right Qmin x t)
  end.

Definition agg_max (obs : list Q) : num :=
  match obs with
  | [] => NaN
  | x :: t => Fin (fold_right Qmax x t)
  end.

(** The sample variance ([ddof = 1]). *)
Definition Qvar (l : list Q) : Q :=
  (Qsum (map (fun x => (x - Qmean l) * (x - Qmean l)) l)
   / (Qlen l - 1))%Q.

(** The state of the exponentially weighted mean: the running mean (none
    before the first observation), the weight of the past, and the
    number of observations. *)
Record EwmState : Type := mkEwm {
  weighted : option Q;
  old_wt : Q;
  nobs : nat
}.

(** One iteration of the loop of [ewm] with [adjust = True] and
    [ignore_na = False]. *)
Definition ewm_step (old_wt_factor new_wt : Q) (st : EwmState) (cur : num)
  : EwmState :=
  match weighted st, cur with
  | Some w, Fin c =>
      let ow := (old_wt st * old_wt_factor)%Q in
      mkEwm (Some (if Qeq_bool w c then w
                   else ((ow * w + new_wt * c) / (ow + new_wt))%Q))
            (ow + new_wt)%Q (S (nobs st))
  | Some w, _ => mkEwm (Some w) (old_wt st * old_wt_factor)%Q (nobs st)
  | None, Fin c => mkEwm (Some c) (old_wt st) (S (nobs st))
  | None, _ => st
  end.

Definition ewm_output (minp : nat) (st : EwmState) : num :=
  if minp <=? nobs st
  then match weighted st with Some w => Fin w | None => NaN end
  else NaN.

Fixpoint ewm_loop (minp : nat) (old_wt_factor new_wt : Q)
    (st : EwmState) (vals : list num) : list num :=
  match vals with
  | [] => []
  | cur :: rest =>
      let st' := ewm_step old_wt_factor new_wt st cur in
      ewm_output minp st' :: ewm_loop minp old_wt_factor new_wt st' rest
  end.

(** [s.ewm(span=span, min_periods=min_periods).mean()], for [span >= 1]
    (pandas refuses a smaller span). *)
Definition ewm_mean (span min_periods : nat) (s : Series) : Series :=
  let com := ((inject_Z (Z.of_nat span) - 1) / 2)%Q in
  let alpha := (1 / (1 + com))%Q in
  ewm_loop (Nat.max min_periods 1) (1 - alpha)%Q 1%Q (mkEwm None 1%Q 0) s.

(** numpy broadcasting of one-dimensional arrays: a one-element array
    stretches to the length of the other, any other mismatch is a
    [ValueError]. *)
Definition broadcast_length (a b : nat) : nat := if a =? 1 then b else a.

Definition broadcast {A} (n : nat) (l : list A) : option (list A) :=
  if length l =? n then Some l
  else match l with
       | [x] => Some (repeat x n)
       | _ => None
       end.

Fixpoint select (cond : list bool) (x y : list num) : list num :=
  match cond, x, y with
  | c :: cond', a :: x', b :: y' => (if c then a else b) :: select cond' x' y'
  | _, _, _ => []
  end.

(** [np.where(cond, x, y)] *)
Definition np_where (cond : list bool) (x y : list num) : option (list num) :=
  let n := broadcast_length (broadcast_length (length cond) (length x))
             (length y) in
  match broadcast n cond, broadcast n x, broadcast n y with
  | Some c, Some a, Some b => Some (select c a b)
  | _, _, _ => None
  end.

(** [a.cumsum()] of a numpy array, from the running total [acc]. *)
Fixpoint cumsum_from (acc : num) (a : list num) : list num :=
  match a with
  | [] => []
  | x :: t => vadd acc x :: cumsum_from (vadd acc x) t
  end.

Definition cumsum (a : list num) : list num := cumsum_from (Fin 0) a.

(** Vocabulary of the statements: the first [k] entries of a series are
    missing; every entry from position [k] on is a finite number. *)
Definition leading_missing (k : nat) (s : Series) : Prop :=
  forall i, i < k -> i < length s -> nth_error s i = Some NaN.

Definition present_from (k : nat) (s : Series) : Prop :=
  forall i, k <= i -> i < length s -> exists q, nth_error s i = Some (Fin q).

Definition finite_series (s : Series) : Prop := present_from 0 s.

(** The same as a test. *)
Definition all_finite (s : Series) : bool := forallb isfinite s.

End Pandas.

(* ----------------------------------------------------------------- *)
(** ** The technical indicators *)

Module Indicators.
Import Pandas.

Section WithSqrt.

(** The square root of a non-negative float, rounding aside. *)
Variable sqrt : Q -> Q.

(** [s.rolling(window=w).std()]: undefined on fewer than two
    observations. *)
Definition agg_std (obs : list Q) : num :=
  if length obs <=? 1 then NaN else Fin (sqrt (Qvar obs)).

(** The two rolling means of [calculate_rsi]. *)
Definition rsi_gain (series : Series) (period : nat) : Series :=
  let delta := diff series in
  rolling period agg_mean (where_ (fun d => vgt d (Fin 0)) (Fin 0) delta).

Definition rsi_loss (series : Series) (period : nat) : Series :=
  let delta := diff series in
  rolling period agg_mean
    (map vneg (where_ (fun d => vlt d (Fin 0)) (Fin 0) delta)).

(** [100 - (100 / (1 + rs))] *)
Definition rsi_of_rs (rs : num) : num :=
  vsub (Fin 100) (vdiv (Fin 100) (vadd (Fin 1) rs)).

Definition calculate_rsi (series : Series) (period : nat) : Series :=
  let gain := rsi_gain series period in
  let loss := rsi_loss series period in
  let rs := align vdiv gain loss in
  map rsi_of_rs rs.

Definition calculate_macd (series : Series)
    (fast_period slow_period signal_period : nat)
  : Series * Series * Series :=
  let fast_ema := ewm_mean fast_period fast_period series in
  let slow_ema := ewm_mean slow_period slow_period series in
  let macd := align vsub fast_ema slow_ema in
  let signal := ewm_mean signal_period signal_period macd in
  (macd, signal, align vsub macd signal).

Definition calculate_stochastic (high low close : Series) (period : nat)
  : Series * Series :=
  let lowest_low := rolling period agg_min low in
  let highest_high := rolling period agg_max high in
  let k := align vdiv
             (map (vmul (Fin 100)) (align vsub close lowest_low))
             (align vsub highest_high lowest_low) in
  let d := rolling 3 agg_mean k in
  (k, d).

Definition calculate_obv (close volume : Series) : option (list num) :=
  match np_where (map (fun d => vgt d (Fin 0)) (diff close))
          volume (map vneg volume) with
  | None => None
  | Some a => Some (cumsum a)
  end.

Definition calculate_bollinger_bands (series : Series) (period : nat)
  : Series * Series * Series :=
  let sma := rolling period agg_mean series in
  let std := rolling period agg_std series in
  let upper_band := align vadd sma (map (fun x => vmul x (Fin 2)) std) in
  let lower_band := align vsub sma (map (fun x => vmul x (Fin 2)) std) in
  (upper_band, sma, lower_band).

Definition calculate_atr (high low close : Series) (period : nat) : Series :=
  let high_low := align vsub high low in
  let high_close := map vabs (align vsub high (shift close)) in
  let low_close := map vabs (align vsub low (shift close)) in
  let tr := align np_maximum (align np_maximum high_low high_close)
              low_close in
  rolling period agg_mean tr.

Definition calculate_adx (high low close : Series) (period : nat) : Series :=
  let plus_dm := diff high in
  let minus_dm := map vneg (diff low) in
  let plus_dm := setmask (fun v => vlt v (Fin 0)) (Fin 0) plus_dm in
  let minus_dm := setmask (fun v => vlt v (Fin 0)) (Fin 0) minus_dm in
  let tr := calculate_atr high low close period in
  let plus_di :=
    map (vmul (Fin 100)) (align vdiv (ewm_mean period period plus_dm) tr) in
  let minus_di :=
    map (vmul (Fin 100)) (align vdiv (ewm_mean period period minus_dm) tr) in
  let dx :=
    map (fun x => vmul (Fin 100) (vabs x))
        (align vdiv (align vsub plus_di minus_di)
                    (align vadd plus_di minus_di)) in
  ewm_mean period period dx.

(** The intermediate columns of [calculate_adx], to state where its
    result is present: the smoothed directional movement of a column of
    movements ([plus_dm] is [diff high], [minus_dm] is [- diff low]),
    the directional indicator built from it ([plus_di], [minus_di]), and
    the directional index [dx]. *)
Definition smoothed_dm (dm : Series) (period : nat) : Series :=
  ewm_mean period period (setmask (fun v => vlt v (Fin 0)) (Fin 0) dm).

Definition directional_indicator (dm high low close : Series) (period : nat)
  : Series :=
  map (vmul (Fin 100))
      (align vdiv (smoothed_dm dm period)
                  (calculate_atr high low close period)).

Definition directional_index (high low close : Series) (period : nat)
  : Series :=
  let plus_di := directional_indicator (diff high) high low close period in
  let minus_di :=
    directional_indicator (map vneg (diff low)) high low close period in
  map (fun x => vmul (Fin 100) (vabs x))
      (align vdiv (align vsub plus_di minus_di)
                  (align vadd plus_di minus_di)).

End WithSqrt.

End Indicators.

(* ----------------------------------------------------------------- *)
(** ** The min-max scaler *)

Module Sklearn.

Definition column (X : DataFrame) (f : Feature) : list num :=
  map (fun r => cell r f) X.

(** [np.fmin] / [np.fmax]: the smaller / larger operand, a [NaN] operand
    is ignored. *)
Definition fmin (a b : num) : num :=
  match a, b with
  | NaN, x | x, NaN => x
  | _, _ => if vlt b a then b else a
  end.

Definition fmax (a b : num) : num :=
  match a, b with
  | NaN, x | x, NaN => x
  | _, _ => if vlt a b then b else a
  end.

(** [np.nanmin] / [np.nanmax] of a column. *)
Definition nanmin (col : list num) : num := fold_right fmin NaN col.
Definition nanmax (col : list num) : num := fold_right fmax NaN col.

(** Machine epsilon of a 64-bit float. *)
Definition eps : Q := 1 # (2 ^ 52).

(** [_handle_zeros_in_scale]: a range below [10 * eps] is the range of a
    constant feature and is replaced by 1. *)
Definition handle_zeros_in_scale (scale : num) : num :=
  if vlt scale (Fin (10 * eps)) then Fin 1 else scale.

(** The two attributes [scale_] and [min_] of a fitted [MinMaxScaler]
    with the default [feature_range = (0, 1)], for one column. *)
Record Fitted : Type := mkFitted { scale_ : num; min_ : num }.

Definition fit (col : list num) : Fitted :=
  let data_min := nanmin col in
  let data_max := nanmax col in
  let data_range := vsub data_max data_min in
  let scale := vdiv (vsub (Fin 1) (Fin 0)) (handle_zeros_in_scale data_range) in
  mkFitted scale (vsub (Fin 0) (vmul data_min scale)).

(** [transform]: [X * scale_ + min_]. *)
Definition transform (s : Fitted) (x : num) : num :=
  vadd (vmul x (scale_ s)) (min_ s).

(** Input validation of [fit]: an infinite cell or an empty table is a
    [ValueError]; [NaN] cells are allowed. *)
Definition check_array (X : DataFrame) : bool :=
  negb (length X =? 0)
  && forallb (fun r => forallb (fun v => negb (isinf v)) (values r)) X.

(** One row after the assignment [data[features] = ...]: every feature
    cell is replaced by its transform under the scaler fitted on [X],
    the other cells are kept. *)
Definition rescale (X : DataFrame) (r : Row) : Row :=
  mkRow (fun f => transform (fit (column X f)) (cell r f)) (others r).

(** [data[features] = MinMaxScaler().fit_transform(data[features])] *)
Definition fit_transform (X : DataFrame) : option DataFrame :=
  if check_array X then Some (map (rescale X) X) else None.

(** Vocabulary of the statements: a column of finite cells, and the
    range the scaler divides by when the column has minimum [m] and
    maximum [M]. *)
Definition finite_column (col : list num) : Prop :=
  forall v, In v col -> exists q, v = Fin q.

Definition effective_range (m M : Q) : Q :=
  if Qltb (M - m) (10 * eps) then 1%Q else (M - m)%Q.

(** The two attributes of the scaler fitted on a column with minimum [m]
    and maximum [M], written with the operations [fit] performs:
    [scale_ = (1 - 0) / range] and [min_ = 0 - m * scale_]. *)
Definition scale_of (m M : Q) : num :=
  vdiv (vsub (Fin 1) (Fin 0)) (Fin (effective_range m M)).

Definition min_of (m M : Q) : num :=
  vsub (Fin 0) (vmul (Fin m) (scale_of m M)).

End Sklearn.

(* ----------------------------------------------------------------- *)
(** ** The windowing dataset *)

Module Dataset.

Local Open Scope Z_scope.

(** [data.dropna()]: the rows without a missing cell, in any column. *)
Definition complete (r : Row) : bool :=
  forallb (fun v => negb (isnan v)) (values r ++ others r).

Definition dropna (df : DataFrame) : DataFrame := filter complete df.

(** The rows whose twelve feature cells are all present. *)
Definition features_complete (r : Row) : bool :=
  forallb (fun v => negb (isnan v)) (values r).

Record TradeDataset : Type := mkTradeDataset {
  data : DataFrame;
  seq_len : Z
}.

(** [TradeDataset.__init__]; [None] when the scaler raises. *)
Definition init (df : DataFrame) (seq_len : Z) : option TradeDataset :=
  match Sklearn.fit_transform (dropna df) with
  | None => None
  | Some d => Some (mkTradeDataset d seq_len)
  end.

Definition default_seq_len : Z := 60.

(** [TradeDataset.__len__] *)
Definition len (self : TradeDataset) : Z :=
  Z.of_nat (length (data self)) - seq_len self.

(** [TradeDataset.__getitem__]: the slice is clipped silently, the
    scalar access raises [IndexError] ([None]) out of range. *)
Definition getitem (self : TradeDataset) (idx : Z)
  : option (list (list num) * num) :=
  let x := map values (iloc_slice (data self) idx (idx + seq_len self)) in
  match iloc (data self) (idx + seq_len self) with
  | None => None
  | Some r => Some (x, cell r Close)
  end.

End Dataset.

(* ----------------------------------------------------------------- *)
(** ** Example inputs *)

Module Examples.

(** A network that adds up the [Close] entries of the steps it is given:
    one possible instance of the forecaster, used to evaluate the
    generator on concrete tables. *)
Definition sum_close (steps : list (list num)) : num :=
  fold_right vadd (Fin 0) (map (fun v => nth 0 v NaN) steps).

(** A row with the given [Close], every other feature 0, and the given
    remaining cells. *)
Definition row_of (close : Q) (rest : list num) : Row :=
  mkRow (fun f => match f with Close => Fin close | _ => Fin 0 end) rest.

(** The table whose [Close] column is [1, 2, ..., n]. *)
Definition ramp (n : nat) : DataFrame :=
  map (fun i => row_of (inject_Z (Z.of_nat (S i))) []) (seq 0 n).

(** 61 rows with all twelve features present, the first of which has an
    empty cell in another column. *)
Definition gap_table : DataFrame :=
  row_of 0 [NaN] :: map (fun i => row_of (inject_Z (Z.of_nat (S i))) [Fin 0])
                        (seq 0 60).

(** Two identical complete rows. *)
Definition flat_table : DataFrame := [row_of 1 []; row_of 1 []].

(** A once-scaled table: [Close] has minimum 0 and maximum 1 over its
    three rows, and the row holding the maximum lacks an indicator. *)
Definition scaled_once : DataFrame :=
  [ row_of 0 [];
    row_of (1 # 2) [];
    mkRow (fun f => match f with Close => Fin 1 | RSI => NaN | _ => Fin 0 end) [] ].

(** The dataset the constructor builds from [ramp 61]. *)
Definition ramp_dataset : Dataset.TradeDataset :=
  Dataset.mkTradeDataset
    (map (Sklearn.rescale (Dataset.dropna (ramp 61))) (Dataset.dropna (ramp 61)))
    60.

(** The dataset the constructor builds from [scaled_once]. *)
Definition scaled_twice : Dataset.TradeDataset :=
  Dataset.mkTradeDataset
    (map (Sklearn.rescale (Dataset.dropna scaled_once))
       (Dataset.dropna scaled_once))
    60.

(** Price columns of [n] rows: a close that rises by 1 per row from 2,
    quotes one below and one above it, and a constant trade size. *)
Definition rising (from : Z) (n : nat) : Pandas.Series :=
  map (fun i => Fin (inject_Z (from + Z.of_nat i))) (seq 0 n).

Definition closes (n : nat) : Pandas.Series := rising 2 n.
Definition highs (n : nat) : Pandas.Series := rising 3 n.
Definition lows (n : nat) : Pandas.Series := rising 1 n.
Definition volumes (n : nat) : Pandas.Series := repeat (Fin 5) n.

(** A stand-in for the square root in evaluations that do not depend on
    its values. *)
Definition any_sqrt (x : Q) : Q := x.

End Examples.

(* ----------------------------------------------------------------- *)
(** ** Loading and preparing the table *)

Module Loader.
Import Pandas.

(** One record of the file: the four columns the notebook reads, and the
    cells of the columns it does not touch. *)
Record Tick : Type := mkTick {
  price : num;
  size : num;
  bid_px_00 : num;
  ask_px_00 : num;
  untouched : list num
}.

(** [1e9], the scale of the fixed-point prices of the file. *)
Definition fixed_point_unit : num := Fin 1000000000.

(** [s.fillna(fill)]: a missing entry takes the entry of [fill] at the
    same position, where there is one. *)
Fixpoint fillna (s fill : Series) : Series :=
  match s, fill with
  | [], _ => []
  | _, [] => s
  | v :: s', f :: fill' => (if isnan v then f else v) :: fillna s' fill'
  end.

(** The columns cell 2 derives. *)
Record Ohlcv : Type := mkOhlcv {
  col_price : Series;
  col_bid : Series;
  col_ask : Series;
  col_Close : Series;
  col_Volume : Series;
  col_High : Series;
  col_Low : Series;
  col_Open : Series
}.

(** Cell 2: the prices are divided by [1e9]; [Close] is the price,
    [Volume] the size, [High] and [Low] the row-wise maximum and minimum
    of the two quotes ([NaN] skipped), [Open] the previous [Close], the
    own [Close] where there is no previous one. *)
Definition preprocess (ticks : list Tick) : Ohlcv :=
  let price := map (fun t => vdiv (price t) fixed_point_unit) ticks in
  let bid := map (fun t => vdiv (bid_px_00 t) fixed_point_unit) ticks in
  let ask := map (fun t => vdiv (ask_px_00 t) fixed_point_unit) ticks in
  let close := price in
  mkOhlcv price bid ask close
    (map size ticks)
    (map (fun ba => Sklearn.nanmax [fst ba; snd ba]) (combine bid ask))
    (map (fun ba => Sklearn.nanmin [fst ba; snd ba]) (combine bid ask))
    (fillna (shift close) close).

End Loader.

Module Pipeline.
Import Pandas Indicators Loader.

Section WithSqrt.

Variable sqrt : Q -> Q.

(** [calculate_technical_indicators(data)], with the default periods: the
    twelve feature columns of the table.  [None] when [np.where] raises. *)
Definition calculate_technical_indicators (o : Ohlcv)
  : option (Feature -> Series) :=
  let close := col_Close o in
  let high := col_High o in
  let low := col_Low o in
  let '(macd, macd_signal, _) := calculate_macd close 12 26 9 in
  let '(stoch_k, stoch_d) := calculate_stochastic high low close 14 in
  match calculate_obv close (col_Volume o) with
  | None => None
  | Some obv =>
      let '(upper_bb, _, lower_bb) :=
        calculate_bollinger_bands sqrt close 20 in
      Some (fun f =>
              match f with
              | Close => close
              | Volume => col_Volume o
              | RSI => calculate_rsi close 14
              | MACD => macd
              | MACD_signal => macd_signal
              | Stoch_k => stoch_k
              | Stoch_d => stoch_d
              | OBV => obv
              | Upper_BB => upper_bb
              | Lower_BB => lower_bb
              | ATR => calculate_atr high low close 14
              | ADX => calculate_adx high low close 14
              end)
  end.

(** The table after cell 6, before scaling: row [i] holds entry [i] of
    every feature column, and in its other cells the columns of cell 2
    and the untouched columns of the file. *)
Definition indicator_table (ticks : list Tick) : option DataFrame :=
  let o := preprocess ticks in
  match calculate_technical_indicators o with
  | None => None
  | Some cols =>
      Some (map (fun i =>
                   mkRow (fun f => nth i (cols f) NaN)
                         ([nth i (col_price o) NaN; nth i (col_bid o) NaN;
                           nth i (col_ask o) NaN; nth i (col_High o) NaN;
                           nth i (col_Low o) NaN; nth i (col_Open o) NaN]
                          ++ match nth_error ticks i with
                             | Some t => size t :: untouched t
                             | None => []
                             end))
                (seq 0 (length ticks)))
  end.

(** Cells 6 and 8: the table is scaled, and the dataset is built from the
    scaled table. *)
Definition prepare (ticks : list Tick) : option Dataset.TradeDataset :=
  match indicator_table ticks with
  | None => None
  | Some table =>
      match Sklearn.fit_transform table with
      | None => None
      | Some data => Dataset.init data Dataset.default_seq_len
      end
  end.

End WithSqrt.
End Pipeline.

(* ----------------------------------------------------------------- *)
(** ** Conditions on price columns *)

Module Conditions.
Import Pandas.

(** Every entry is a number and larger than the one before. *)
Fixpoint strictly_rising (s : Series) : bool :=
  match s with
  | [] => true
  | Fin a :: t =>
      match t with
      | [] => true
      | Fin b :: _ => Qltb a b && strictly_rising t
      | _ => false
      end
  | _ => false
  end.

(** Every entry is a number and smaller than the one before. *)
Fixpoint strictly_falling (s : Series) : bool :=
  match s with
  | [] => true
  | Fin a :: t =>
      match t with
      | [] => true
      | Fin b :: _ => Qltb b a && strictly_falling t
      | _ => false
      end
  | _ => false
  end.

(** The three columns have one length, and on every row the three cells
    are numbers with [low <= close <= high]. *)
Definition within_quotes (high low close : Series) : bool :=
  (length high =? length low) && (length high =? length close)
  && forallb (fun hlc =>
                match hlc with
                | (Fin h, (Fin l, Fin c)) => Qle_bool l c && Qle_bool c h
                | _ => false
                end)
             (combine high (combine low close)).

End Conditions.

(* ----------------------------------------------------------------- *)
(** ** Further example inputs *)

Module MoreExamples.
Import Examples.

(** Three complete rows whose [Close] column already has minimum 0 and
    maximum 1. *)
Definition spanning_table : DataFrame :=
  [row_of 0 []; row_of (1 # 2) []; row_of 1 []].

Definition spanning_dataset : Dataset.TradeDataset :=
  Dataset.mkTradeDataset
    (map (Sklearn.rescale (Dataset.dropna spanning_table))
       (Dataset.dropna spanning_table))
    60.

(** An unscaled table with a missing indicator in its last row. *)
Definition raw_table : DataFrame :=
  [ row_of 10 [];
    row_of 30 [];
    mkRow (fun f => match f with Close => Fin 20 | RSI => NaN | _ => Fin 0 end)
          [] ].

(** A square root stand-in that is never negative. *)
Definition nonneg_sqrt (x : Q) : Q := Qabs x.

(** A falling close, and quotes that keep the close between them. *)
Definition falling (n : nat) : Pandas.Series :=
  map (fun i => Fin (inject_Z (100 - Z.of_nat i))) (seq 0 n).

End MoreExamples.

(* ================================================================= *)
(** * Part II: properties *)
(* ================================================================= *)

(* ----------------------------------------------------------------- *)
(** ** Lists and Python indexing *)

Section ListFacts.

Context {A B : Type}.

Lemma firstn_min_length (k : nat) (l : list A) :
  firstn (Nat.min k (length l)) l = firstn k l.
Proof.
  destruct (Nat.le_ge_cases k (length l)) as [H | H].
  - now rewrite Nat.min_l.
  - rewrite Nat.min_r by assumption.
    now rewrite !firstn_all2 by lia.
Qed.

Lemma firstn_plus (a b : nat) (l : list A) :
  firstn (a + b) l = firstn a l ++ firstn b (skipn a l).
Proof.
  revert l; induction a as [| a IH]; intros l; simpl.
  - reflexivity.
  - destruct l as [| x l]; simpl.
    + now rewrite firstn_nil.
    + now rewrite IH.
Qed.

Lemma skipn_combine (k : nat) (l : list A) (l' : list B) :
  skipn k (combine l l') = combine (skipn k l) (skipn k l').
Proof.
  revert l l'; induction k as [| k IH]; intros l l'; simpl.
  - reflexivity.
  - destruct l as [| x l]; [reflexivity |].
    destruct l' as [| y l']; simpl.
    + now rewrite combine_nil.
    + apply IH.
Qed.

Lemma skipn_cons_nth (k : nat) (l : list A) (x : A) :
  nth_error l k = Some x -> skipn k l = x :: skipn (S k) l.
Proof.
  revert l; induction k as [| k IH]; intros [| y l] H; simpl in *;
    try discriminate.
  - now inversion H.
  - now apply IH.
Qed.

Lemma nth_error_combine (l : list A) (l' : list B) (i : nat) (x : A) (y : B) :
  nth_error l i = Some x -> nth_error l' i = Some y ->
  nth_error (combine l l') i = Some (x, y).
Proof.
  revert l l'; induction i as [| i IH]; intros [| a l] [| b l'] Hx Hy;
    simpl in *; try discriminate.
  - now inversion Hx; inversion Hy.
  - now apply IH.
Qed.

Lemma nth_error_combine_inv (l : list A) (l' : list B) (i : nat) (p : A * B) :
  nth_error (combine l l') i = Some p ->
  nth_error l i = Some (fst p) /\ nth_error l' i = Some (snd p).
Proof.
  revert l l'; induction i as [| i IH]; intros [| a l] [| b l'] H;
    simpl in *; try discriminate.
  - inversion H; now split.
  - now apply IH.
Qed.

End ListFacts.

Section PyFacts.

Context {A : Type}.

Lemma index_of_nat (l : list A) (i : nat) :
  Py.index l (Z.of_nat i) = nth_error l i.
Proof.
  unfold Py.index.
  destruct (Z.leb_spec 0 (Z.of_nat i)); [| lia].
  now rewrite Nat2Z.id.
Qed.

Lemma index_past_end (l : list A) (i : Z) :
  (Z.of_nat (length l) <= i)%Z -> Py.index l i = None.
Proof.
  intros H. unfold Py.index.
  destruct (Z.leb_spec 0 i); [| lia].
  apply nth_error_None. lia.
Qed.

Lemma slice_of_nat (l : list A) (a k : nat) :
  Py.slice l (Z.of_nat a) (Z.of_nat a + Z.of_nat k) = firstn k (skipn a l).
Proof.
  unfold Py.slice, Py.clip.
  destruct (Z.ltb_spec (Z.of_nat a) 0); [lia |].
  destruct (Z.ltb_spec (Z.of_nat a + Z.of_nat k) 0); [lia |].
  destruct (Nat.le_gt_cases a (length l)) as [Ha | Ha].
  - rewrite (Z.min_l (Z.of_nat a)) by lia.
    rewrite Nat2Z.id.
    rewrite <- (firstn_min_length k).
    f_equal. rewrite length_skipn. lia.
  - rewrite !Z.min_r by lia.
    rewrite Z.sub_diag, Nat2Z.id, skipn_all.
    rewrite (skipn_all2 l) by lia.
    now rewrite !firstn_nil.
Qed.

Lemma range0_length (stop step : nat) :
  0 < step ->
  stop <= length (Py.range0 (Z.of_nat stop) (Z.of_nat step)) * step.
Proof.
  intros Hs. unfold Py.range0. rewrite length_map, length_seq.
  set (q := ((Z.of_nat stop + Z.of_nat step - 1) / Z.of_nat step)%Z).
  assert (Hq : (Z.of_nat stop <= q * Z.of_nat step)%Z).
  { pose proof (Z.div_mod (Z.of_nat stop + Z.of_nat step - 1) (Z.of_nat step)
                  ltac:(lia)) as Hdm.
    pose proof (Z.mod_pos_bound (Z.of_nat stop + Z.of_nat step - 1)
                  (Z.of_nat step) ltac:(lia)) as Hb.
    fold q in Hdm. nia. }
  assert (0 <= q)%Z by (apply Z.div_pos; lia).
  nia.
Qed.

End PyFacts.

(* ----------------------------------------------------------------- *)
(** ** The signal generator in closed form *)

Module ModelFacts.
Import Model.

Section WithEncoder.

Variable encode : list (list num) -> num.
Variables tb ts : num.

Local Abbreviation gs := (signal_of encode tb ts).
Local Abbreviation gp := (fun p : Row * Row => predict_row encode (fst p)).

(** A batch of [k] rows reaches the encoder as [k] sequences of a single
    step each. *)
Lemma forward_unsqueeze1 (rows : list Row) :
  forward encode (unsqueeze1 (map values rows))
  = map (predict_row encode) rows.
Proof.
  unfold forward, unsqueeze1. rewrite !map_map. reflexivity.
Qed.

Lemma length_lagged (data : DataFrame) :
  length (lagged data) = length data - 60.
Proof.
  unfold lagged. rewrite length_combine, length_skipn. lia.
Qed.

Lemma skipn_lagged (k : nat) (data : DataFrame) :
  skipn k (lagged data) = combine (skipn k data) (skipn (k + 60) data).
Proof.
  unfold lagged. now rewrite skipn_combine, skipn_skipn.
Qed.

Lemma nth_error_lagged (data : DataFrame) (i : nat) (r r' : Row) :
  nth_error data i = Some r -> nth_error data (i + 60) = Some r' ->
  nth_error (lagged data) i = Some (r, r').
Proof.
  intros Hr Hr'. unfold lagged. apply nth_error_combine; [assumption |].
  rewrite nth_error_skipn. now rewrite Nat.add_comm.
Qed.

Lemma nth_error_lagged_inv (data : DataFrame) (i : nat) (p : Row * Row) :
  nth_error (lagged data) i = Some p ->
  nth_error data i = Some (fst p) /\ nth_error data (i + 60) = Some (snd p).
Proof.
  intros H. apply nth_error_combine_inv in H. destruct H as [H1 H2].
  split; [assumption |].
  rewrite nth_error_skipn in H2. now rewrite Nat.add_comm.
Qed.

Lemma iloc_slice_of_nat (data : DataFrame) (a k : nat) :
  iloc_slice data (Z.of_nat a) (Z.of_nat a + Z.of_nat k)
  = firstn k (skipn a data).
Proof. apply slice_of_nat. Qed.

(** The inner loop appends the decisions for the rows of the batch that
    have a row 60 places further on, and stops at the first that has none. *)
Lemma inner_loop_spec (data : DataFrame) (s : nat) (rows : list Row) :
  forall (j : nat) (acc : list Signal * list num),
    firstn (length rows) (skipn (s + j) data) = rows ->
    inner_loop data tb ts (Z.of_nat s)
      (map (predict_row encode) rows) j acc
    = Some (fst acc ++ map gs (firstn (length rows)
                                 (skipn (s + j) (lagged data))),
            snd acc ++ map gp (firstn (length rows)
                                 (skipn (s + j) (lagged data)))).
Proof.
  induction rows as [| r rows IH]; intros j [sigs preds] Hrows.
  - simpl. now rewrite !app_nil_r.
  - cbn [map inner_loop length].
    replace (Z.of_nat s + Z.of_nat j + 60)%Z
      with (Z.of_nat (s + j + 60)) by lia.
    destruct (Z.leb_spec (Z.of_nat (length data)) (Z.of_nat (s + j + 60)))
      as [Hout | Hin].
    + rewrite skipn_lagged, (skipn_all2 data (n := s + j + 60)) by lia.
      rewrite combine_nil. simpl. now rewrite !app_nil_r.
    + unfold iloc. rewrite index_of_nat.
      destruct (nth_error data (s + j + 60)) as [r' |] eqn:Er';
        [| apply nth_error_None in Er'; lia].
      destruct (nth_error data (s + j)) as [r0 |] eqn:Er0;
        [| apply nth_error_None in Er0; lia].
      rewrite (skipn_cons_nth _ _ _ Er0) in Hrows.
      cbn [length firstn] in Hrows.
      assert (Hr0 : r0 = r) by congruence. subst r0.
      assert (Htl : firstn (length rows) (skipn (s + S j) data) = rows).
      { replace (s + S j) with (S (s + j)) by lia. congruence. }
      rewrite (skipn_cons_nth _ _ _ (nth_error_lagged _ _ _ _ Er0 Er')).
      replace (S (s + j)) with (s + S j) by lia.
      rewrite (IH (S j) _ Htl). cbn [fst snd firstn map].
      now rewrite <- !app_assoc.
Qed.

Lemma firstn_min_short {A} (b c : nat) (l : list A) :
  length l <= c -> firstn (Nat.min b c) l = firstn b l.
Proof.
  intros H. rewrite <- (firstn_min_length b), <- (firstn_min_length (Nat.min b c)).
  f_equal. lia.
Qed.

(** One batch after the other: after the batches [k0 .. k0 + m - 1] the
    accumulators hold the decisions for the first [(k0 + m) * b] pairs. *)
Lemma outer_loop_spec (data : DataFrame) (b : positive) :
  forall (m k0 : nat),
    outer_loop encode data tb ts
      (map (fun i => (map values (iloc_slice data i (i + Z.pos b)), i))
         (map (fun k => (Z.of_nat k * Z.pos b)%Z) (seq k0 m)))
      (map gs (firstn (k0 * Pos.to_nat b) (lagged data)),
       map gp (firstn (k0 * Pos.to_nat b) (lagged data)))
    = Some (map gs (firstn ((k0 + m) * Pos.to_nat b) (lagged data)),
            map gp (firstn ((k0 + m) * Pos.to_nat b) (lagged data))).
Proof.
  induction m as [| m IH]; intros k0.
  - simpl. now rewrite Nat.add_0_r.
  - cbn [seq map outer_loop process_batch].
    replace (Z.of_nat k0 * Z.pos b)%Z
      with (Z.of_nat (k0 * Pos.to_nat b)) by lia.
    replace (Z.pos b) with (Z.of_nat (Pos.to_nat b)) at 1 by lia.
    rewrite iloc_slice_of_nat.
    set (s := k0 * Pos.to_nat b).
    set (rows := firstn (Pos.to_nat b) (skipn s data)).
    rewrite forward_unsqueeze1.
    rewrite (inner_loop_spec data s rows 0).
    2:{ rewrite Nat.add_0_r. unfold rows.
        rewrite length_firstn. apply firstn_min_length. }
    cbn [fst snd]. rewrite Nat.add_0_r.
    assert (Hlen : firstn (length rows) (skipn s (lagged data))
                   = firstn (Pos.to_nat b) (skipn s (lagged data))).
    { unfold rows. rewrite length_firstn, length_skipn.
      apply firstn_min_short.
      rewrite length_skipn, length_lagged. lia. }
    rewrite Hlen, <- !map_app, <- firstn_plus.
    replace (s + Pos.to_nat b) with (S k0 * Pos.to_nat b) by (unfold s; lia).
    rewrite (IH (S k0)).
    now replace (S k0 + m) with (k0 + S m) by lia.
Qed.

Lemma range0_short (n : nat) (b : positive) :
  Py.range0 (Z.of_nat n - 60) (Z.pos b)
  = Py.range0 (Z.of_nat (n - 60)) (Z.pos b).
Proof.
  destruct (Nat.le_gt_cases 60 n) as [H | H].
  - now replace (Z.of_nat (n - 60)) with (Z.of_nat n - 60)%Z by lia.
  - unfold Py.range0.
    replace (n - 60) with 0 by lia.
    assert (H1 : ((Z.of_nat n - 60 + Z.pos b - 1) / Z.pos b < 1)%Z)
      by (apply Z.div_lt_upper_bound; lia).
    assert (H2 : ((Z.of_nat 0 + Z.pos b - 1) / Z.pos b < 1)%Z)
      by (apply Z.div_lt_upper_bound; lia).
    replace (Z.to_nat ((Z.of_nat n - 60 + Z.pos b - 1) / Z.pos b))
      with 0 by lia.
    now replace (Z.to_nat ((Z.of_nat 0 + Z.pos b - 1) / Z.pos b))
      with 0 by lia.
Qed.

(** [generate_signals_batch] never raises, and returns one decision and
    one prediction for every row that has a row 60 places further on:
    the prediction is the network's output on that single row, the
    decision compares it with the later row's [Close]. *)
Lemma generate_signals_batch_closed (data : DataFrame) (b : positive) :
  generate_signals_batch encode data b tb ts
  = Some (map gs (lagged data), map gp (lagged data)).
Proof.
  unfold generate_signals_batch.
  rewrite range0_short. unfold Py.range0 at 1.
  set (m := Z.to_nat ((Z.of_nat (length data - 60) + Z.pos b - 1) / Z.pos b)).
  pose proof (outer_loop_spec data b m 0) as H.
  cbn [Nat.mul Nat.add firstn map] in H.
  rewrite H.
  assert (Hm : length data - 60 <= m * Pos.to_nat b).
  { pose proof (range0_length (length data - 60) (Pos.to_nat b)
                  ltac:(lia)) as Hr.
    unfold Py.range0 in Hr. rewrite length_map, length_seq in Hr.
    replace (Z.of_nat (Pos.to_nat b)) with (Z.pos b) in Hr by lia.
    exact Hr. }
  rewrite firstn_all2 by (rewrite length_lagged; lia).
  reflexivity.
Qed.

End WithEncoder.
End ModelFacts.

(* ----------------------------------------------------------------- *)
(** ** The labelled table *)

Module LabelFacts.
Import Model ModelFacts.

Section WithEncoder.

Variable encode : list (list num) -> num.

Local Abbreviation tb := default_threshold_buy.
Local Abbreviation ts := default_threshold_sell.

Lemma map_fst_combine {A B} (l : list A) (l' : list B) :
  map fst (combine l l') = firstn (length l') l.
Proof.
  revert l'; induction l as [| x l IH]; intros [| y l']; simpl;
    try reflexivity.
  now rewrite IH.
Qed.

Lemma map_fst_lagged (f : Row -> num) (data : DataFrame) :
  map (fun p : Row * Row => f (fst p)) (lagged data)
  = map f (firstn (length data - 60) data).
Proof.
  unfold lagged.
  rewrite <- (map_map fst f), map_fst_combine, length_skipn.
  reflexivity.
Qed.

(** The two lists the generator returns have one entry per row that has
    a row 60 places further on. *)
Lemma generated_lengths (data : DataFrame) (b : positive)
    (sigs : list Signal) (preds : list num) :
  generate_signals_batch encode data b tb ts = Some (sigs, preds) ->
  length sigs = length data - 60 /\ length preds = length data - 60.
Proof.
  rewrite generate_signals_batch_closed. intros H. inversion H.
  now rewrite !length_map, length_lagged.
Qed.

(** Entry [i] of the generator's lists: the prediction is the network's
    output on row [i] as a one-step sequence, the signal compares it
    with [Close] of row [i + 60]. *)
Lemma generated_at (data : DataFrame) (b : positive)
    (sigs : list Signal) (preds : list num) (i : nat) (r r' : Row) :
  generate_signals_batch encode data b tb ts = Some (sigs, preds) ->
  nth_error data i = Some r ->
  nth_error data (i + 60) = Some r' ->
  nth_error preds i = Some (encode [values r])
  /\ nth_error sigs i
     = Some (decide (encode [values r]) (cell r' Close) tb ts).
Proof.
  rewrite generate_signals_batch_closed. intros H Hr Hr'. inversion H.
  rewrite !nth_error_map, (nth_error_lagged data i r r' Hr Hr').
  now split.
Qed.

Lemma nth_error_padded {A} (pad : A) (l : list A) (k : nat) :
  nth_error (repeat pad 60 ++ l) k
  = if k <? 60 then Some pad else nth_error l (k - 60).
Proof.
  destruct (Nat.ltb_spec k 60) as [H | H].
  - rewrite nth_error_app1 by (rewrite repeat_length; lia).
    now apply nth_error_repeat.
  - rewrite nth_error_app2 by (rewrite repeat_length; lia).
    now rewrite repeat_length.
Qed.

(** On a table of at least 60 rows the two assignments succeed, and row
    [k] of the result is row [k] of the input with entry [k] of the
    padded lists. *)
Lemma label_table_rows (data : DataFrame) (sigs : list Signal)
    (preds : list num) :
  60 <= length data ->
  generate_signals_batch encode data default_batch_size tb ts
  = Some (sigs, preds) ->
  exists out,
    label_table encode data = Some out
    /\ length out = length data
    /\ map row out = data
    /\ forall k l, nth_error out k = Some l ->
         nth_error (repeat HOLD 60 ++ sigs) k = Some (Signal_col l)
         /\ nth_error (repeat None 60 ++ map Some preds) k
            = Some (Prediction_col l).
Proof.
  intros Hn Hgen.
  destruct (generated_lengths _ _ _ _ Hgen) as [Hs Hp].
  unfold label_table. rewrite Hgen.
  set (scol := repeat HOLD 60 ++ sigs).
  set (pcol := repeat None 60 ++ map Some preds).
  assert (Hls : length scol = length data).
  { unfold scol. rewrite length_app, repeat_length. lia. }
  assert (Hlp : length pcol = length data).
  { unfold pcol. rewrite length_app, repeat_length, length_map. lia. }
  unfold assign_column.
  rewrite Hls, Nat.eqb_refl.
  rewrite length_map, length_combine, Hls, Nat.min_id, Hlp, Nat.eqb_refl.
  eexists. split; [reflexivity |].
  split; [| split].
  - rewrite !length_map, !length_combine, length_map, length_combine.
    lia.
  - clearbody scol pcol. clear - Hls Hlp.
    revert scol pcol Hls Hlp.
    induction data as [| r data IH]; intros [| s scol] [| p pcol] Hls Hlp;
      simpl in *; try discriminate; try reflexivity.
    f_equal. apply IH; lia.
  - intros k l Hk.
    rewrite nth_error_map in Hk.
    destruct (nth_error (combine _ pcol) k) as [[[r s] p] |] eqn:E;
      [| discriminate].
    simpl in Hk. inversion Hk; subst l; clear Hk. simpl.
    apply nth_error_combine_inv in E. destruct E as [E1 E2].
    simpl in E1, E2. rewrite nth_error_map in E1.
    destruct (nth_error (combine data scol) k) as [[r0 s0] |] eqn:E0;
      [| discriminate].
    simpl in E1. inversion E1; subst r0 s0; clear E1.
    apply nth_error_combine_inv in E0. destruct E0 as [_ E0].
    now split.
Qed.

(** On a shorter table that has rows the first assignment raises: 60
    padding entries do not fit. *)
Lemma label_table_short (data : DataFrame) :
  0 < length data < 60 -> label_table encode data = None.
Proof.
  intros Hn. unfold label_table.
  rewrite generate_signals_batch_closed.
  unfold assign_column.
  rewrite length_app, repeat_length, length_map, length_lagged.
  destruct (Nat.eqb_spec (60 + (length data - 60)) (length data));
    [lia |].
  destruct (Nat.eqb_spec (length data) 0); [lia | reflexivity].
Qed.

(** On the table without rows both assignments succeed: the 60 padding
    entries define the index, and the result has 60 rows of missing
    cells, each [HOLD] without a prediction. *)
Lemma label_table_empty :
  label_table encode []
  = Some (repeat (mkLabelled blank_row HOLD None) 60).
Proof. reflexivity. Qed.

End WithEncoder.
End LabelFacts.

(* ----------------------------------------------------------------- *)
(** ** Floats *)

Module NumFacts.

Lemma Qltb_lt (x y : Q) : Qltb x y = true <-> (x < y)%Q.
Proof.
  unfold Qltb. rewrite Qlt_alt.
  destruct (x ?= y)%Q; split; intros H; congruence.
Qed.

Lemma Qltb_ge (x y : Q) : Qltb x y = false <-> (y <= x)%Q.
Proof.
  split; intros H.
  - apply Qnot_lt_le. intros Hlt. apply Qltb_lt in Hlt. congruence.
  - destruct (Qltb x y) eqn:E; [| reflexivity].
    apply Qltb_lt in E. apply Qle_not_lt in H. contradiction.
Qed.

Lemma vlt_Fin (x y : Q) : vlt (Fin x) (Fin y) = Qltb x y.
Proof. reflexivity. Qed.

Lemma veq_refl (a : num) : veq a a.
Proof. destruct a; simpl; auto. reflexivity. Qed.

Lemma veqb_veq (a b : num) : veqb a b = true <-> veq a b.
Proof.
  destruct a, b; simpl; try (split; [discriminate | contradiction]);
    try (split; auto).
  - apply Qeq_bool_eq.
  - apply Qeq_eq_bool.
Qed.

(** [NaN] spreads through the arithmetic operations. *)
Lemma vadd_nan_l (b : num) : vadd NaN b = NaN.
Proof. reflexivity. Qed.

Lemma vadd_nan_r (a : num) : vadd a NaN = NaN.
Proof. now destruct a. Qed.

Lemma vsub_nan_l (b : num) : vsub NaN b = NaN.
Proof. reflexivity. Qed.

Lemma vsub_nan_r (a : num) : vsub a NaN = NaN.
Proof. now destruct a. Qed.

Lemma vmul_nan_r (a : num) : vmul a NaN = NaN.
Proof. now destruct a. Qed.

Lemma vdiv_nan_l (b : num) : vdiv NaN b = NaN.
Proof. reflexivity. Qed.

Lemma vdiv_nan_r (a : num) : vdiv a NaN = NaN.
Proof. now destruct a. Qed.

Lemma np_maximum_nan_l (b : num) : np_maximum NaN b = NaN.
Proof. reflexivity. Qed.

Lemma np_maximum_nan_r (a : num) : np_maximum a NaN = NaN.
Proof. now destruct a. Qed.

(** A threshold crossed downwards is not crossed upwards. *)
Lemma vlt_not_vgt (v : num) (lo hi : Q) :
  (lo <= hi)%Q -> vlt v (Fin lo) = true -> vgt v (Fin hi) = false.
Proof.
  intros Hle. unfold vgt. destruct v as [q | | |]; simpl; try reflexivity;
    try discriminate.
  rewrite Qltb_lt, Qltb_ge. intros H.
  apply Qlt_le_weak. eapply Qlt_le_trans; eassumption.
Qed.

End NumFacts.

(* ----------------------------------------------------------------- *)
(** ** The scaler and the dataset *)

Module DatasetFacts.
Import NumFacts Sklearn Dataset.

Lemma nanmin_spec (col : list num) :
  col <> [] -> finite_column col ->
  exists m, nanmin col = Fin m /\ In (Fin m) col
            /\ forall q, In (Fin q) col -> (m <= q)%Q.
Proof.
  induction col as [| v col IH]; intros Hne Hfin; [congruence |].
  destruct (Hfin v (or_introl eq_refl)) as [x ->].
  destruct col as [| w col].
  - exists x. simpl. repeat split; auto.
    intros q [Hq | []]. inversion Hq. apply Qle_refl.
  - destruct IH as (m & Hm & Hin & Hle).
    + discriminate.
    + intros u Hu. apply Hfin. now right.
    + change (nanmin (Fin x :: w :: col))
        with (fmin (Fin x) (nanmin (w :: col))).
      rewrite Hm. unfold fmin. rewrite vlt_Fin.
      destruct (Qltb m x) eqn:E.
      * apply Qltb_lt in E. exists m. split; [reflexivity |].
        split; [now right |].
        intros q [Hq | Hq].
        -- inversion Hq; subst. now apply Qlt_le_weak.
        -- now apply Hle.
      * apply Qltb_ge in E. exists x. split; [reflexivity |].
        split; [now left |].
        intros q [Hq | Hq].
        -- inversion Hq. apply Qle_refl.
        -- eapply Qle_trans; [exact E | now apply Hle].
Qed.

Lemma nanmax_spec (col : list num) :
  col <> [] -> finite_column col ->
  exists M, nanmax col = Fin M /\ In (Fin M) col
            /\ forall q, In (Fin q) col -> (q <= M)%Q.
Proof.
  induction col as [| v col IH]; intros Hne Hfin; [congruence |].
  destruct (Hfin v (or_introl eq_refl)) as [x ->].
  destruct col as [| w col].
  - exists x. simpl. repeat split; auto.
    intros q [Hq | []]. inversion Hq. apply Qle_refl.
  - destruct IH as (M & HM & Hin & Hle).
    + discriminate.
    + intros u Hu. apply Hfin. now right.
    + change (nanmax (Fin x :: w :: col))
        with (fmax (Fin x) (nanmax (w :: col))).
      rewrite HM. unfold fmax. rewrite vlt_Fin.
      destruct (Qltb x M) eqn:E.
      * apply Qltb_lt in E. exists M. split; [reflexivity |].
        split; [now right |].
        intros q [Hq | Hq].
        -- inversion Hq; subst. now apply Qlt_le_weak.
        -- now apply Hle.
      * apply Qltb_ge in E. exists x. split; [reflexivity |].
        split; [now left |].
        intros q [Hq | Hq].
        -- inversion Hq. apply Qle_refl.
        -- eapply Qle_trans; [now apply Hle | exact E].
Qed.

Lemma effective_range_pos (m M : Q) : (0 < effective_range m M)%Q.
Proof.
  unfold effective_range. destruct (Qltb (M - m) (10 * eps)) eqn:E.
  - reflexivity.
  - apply Qltb_ge in E. eapply Qlt_le_trans; [| exact E]. reflexivity.
Qed.

(** The transform of a finite cell under a scaler fitted on a column
    with minimum [m] and maximum [M]. *)
Lemma transform_fit (col : list num) (m M x : Q) :
  nanmin col = Fin m -> nanmax col = Fin M ->
  exists t, transform (fit col) (Fin x) = Fin t
            /\ (t == (x - m) / effective_range m M)%Q.
Proof.
  intros Hm HM.
  pose proof (effective_range_pos m M) as Hpos.
  unfold transform, fit, handle_zeros_in_scale. rewrite Hm, HM.
  cbn [vsub vneg vadd scale_ min_]. rewrite vlt_Fin.
  fold (Qminus M m).
  assert (Hr : (if Qltb (M - m) (10 * eps) then Fin 1 else Fin (M - m))
               = Fin (effective_range m M)).
  { unfold effective_range. now destruct (Qltb (M - m) (10 * eps)). }
  rewrite Hr. cbn [vdiv].
  destruct (Qeq_bool (effective_range m M) 0) eqn:E.
  - apply Qeq_bool_eq in E. rewrite E in Hpos. discriminate.
  - cbn [vmul vadd vneg]. eexists. split; [reflexivity |].
    field. intros H0. rewrite H0 in Hpos. discriminate.
Qed.

Lemma In_features (f : Feature) : In f features.
Proof. destruct f; simpl; tauto. Qed.

Lemma length_values (r : Row) : length (values r) = 12.
Proof. reflexivity. Qed.

Lemma In_values (r : Row) (f : Feature) : In (cell r f) (values r).
Proof. unfold values. apply in_map, In_features. Qed.

(** What the scaler accepts: a table with a row and without an infinite
    feature cell. *)
Lemma check_array_spec (X : DataFrame) :
  check_array X = true ->
  X <> [] /\ forall r f, In r X -> isinf (cell r f) = false.
Proof.
  unfold check_array. rewrite andb_true_iff, negb_true_iff.
  intros [Hlen Hall]. split.
  - intros ->. discriminate.
  - intros r f Hr. rewrite forallb_forall in Hall.
    specialize (Hall r Hr). rewrite forallb_forall in Hall.
    specialize (Hall _ (In_values r f)). now apply negb_true_iff.
Qed.

Lemma dropna_spec (df : DataFrame) (r : Row) :
  In r (dropna df) <-> In r df /\ complete r = true.
Proof. unfold dropna. apply filter_In. Qed.

Lemma complete_cell (r : Row) (f : Feature) :
  complete r = true -> isnan (cell r f) = false.
Proof.
  unfold complete. rewrite forallb_forall. intros H.
  apply negb_true_iff, H, in_or_app. left. apply In_values.
Qed.

(** The retained rows of an accepted table hold finite feature cells. *)
Lemma retained_finite (df : DataFrame) (f : Feature) :
  check_array (dropna df) = true ->
  finite_column (column (dropna df) f).
Proof.
  intros Hc v Hv. unfold column in Hv. apply in_map_iff in Hv.
  destruct Hv as (r & <- & Hr).
  destruct (check_array_spec _ Hc) as [_ Hinf].
  specialize (Hinf r f Hr).
  apply dropna_spec in Hr. destruct Hr as [_ Hr].
  apply (complete_cell r f) in Hr.
  destruct (cell r f); try discriminate. now eexists.
Qed.

(** The constructor succeeds exactly when the scaler accepts the
    retained rows, and stores their rescaled copies. *)
Lemma init_spec (df : DataFrame) (sl : Z) (ds : TradeDataset) :
  init df sl = Some ds <->
  check_array (dropna df) = true
  /\ ds = mkTradeDataset (map (rescale (dropna df)) (dropna df)) sl.
Proof.
  unfold init, fit_transform.
  destruct (check_array (dropna df)); split.
  - intros H. inversion H. now split.
  - intros [_ ->]. reflexivity.
  - discriminate.
  - intros [H _]. discriminate.
Qed.

Lemma init_length (df : DataFrame) (sl : Z) (ds : TradeDataset) :
  init df sl = Some ds -> length (data ds) = length (dropna df).
Proof.
  intros H. apply init_spec in H. destruct H as [_ ->]. simpl.
  apply length_map.
Qed.

(** A window that fits: the slice holds the 60 rows from [i] on, and the
    scalar access finds row [i + 60]. *)
Lemma getitem_in_range (ds : TradeDataset) (i : Z) :
  seq_len ds = 60%Z ->
  (0 <= i < len ds)%Z ->
  exists r,
    nth_error (data ds) (Z.to_nat i + 60) = Some r
    /\ getitem ds i
       = Some (map values (firstn 60 (skipn (Z.to_nat i) (data ds))),
               cell r Close)
    /\ length (firstn 60 (skipn (Z.to_nat i) (data ds))) = 60.
Proof.
  intros Hsl Hi. unfold len in Hi. rewrite Hsl in Hi.
  unfold getitem. rewrite Hsl.
  remember (Z.to_nat i) as k eqn:Hk.
  assert (Hik : i = Z.of_nat k) by lia. rewrite Hik.
  assert (Hrow : iloc (data ds) (Z.of_nat k + 60)
                 = nth_error (data ds) (k + 60)).
  { replace (Z.of_nat k + 60)%Z with (Z.of_nat (k + 60)) by lia.
    apply index_of_nat. }
  assert (Hwin : iloc_slice (data ds) (Z.of_nat k) (Z.of_nat k + 60)
                 = firstn 60 (skipn k (data ds))).
  { apply (slice_of_nat (data ds) k 60). }
  rewrite Hrow, Hwin.
  destruct (nth_error (data ds) (k + 60)) as [r |] eqn:E;
    [| apply nth_error_None in E; lia].
  exists r. split; [reflexivity |]. split; [reflexivity |].
  rewrite length_firstn, length_skipn. lia.
Qed.

(** A window that does not fit: the scalar access raises. *)
Lemma getitem_past_end (ds : TradeDataset) (i : Z) :
  (Z.of_nat (length (data ds)) <= i + seq_len ds)%Z ->
  getitem ds i = None.
Proof.
  intros H. unfold getitem, iloc. now rewrite index_past_end.
Qed.

Lemma effective_range_wide (m M : Q) :
  (10 * eps <= M - m)%Q -> effective_range m M = (M - m)%Q.
Proof.
  intros H. unfold effective_range.
  apply Qltb_ge in H. now rewrite H.
Qed.

Lemma effective_range_narrow (m M : Q) :
  (M - m < 10 * eps)%Q -> effective_range m M = 1%Q.
Proof.
  intros H. unfold effective_range.
  apply Qltb_lt in H. now rewrite H.
Qed.

Lemma In_column (X : DataFrame) (f : Feature) (q : Q) :
  In (Fin q) (column X f) -> exists r, In r X /\ cell r f = Fin q.
Proof.
  unfold column. rewrite in_map_iff. intros (r & H & Hr). now exists r.
Qed.

(** The second fit, column by column: the stored cell of a retained row
    is the affine image of its cell in the incoming table. *)
Lemma second_fit (df : DataFrame) (sl : Z) (ds : TradeDataset) (f : Feature) :
  init df sl = Some ds ->
  exists m M : Q,
    (exists r, In r (dropna df) /\ cell r f = Fin m)
    /\ (exists r, In r (dropna df) /\ cell r f = Fin M)
    /\ forall r, In r (dropna df) ->
         exists x t,
           cell r f = Fin x /\ (m <= x <= M)%Q
           /\ cell (rescale (dropna df) r) f = Fin t
           /\ (t == (x - m) / effective_range m M)%Q.
Proof.
  intros Hinit. apply init_spec in Hinit. destruct Hinit as [Hc _].
  pose proof (retained_finite df f Hc) as Hfin.
  destruct (check_array_spec _ Hc) as [Hne _].
  assert (Hcol : column (dropna df) f <> []).
  { unfold column. destruct (dropna df); [congruence | discriminate]. }
  destruct (nanmin_spec _ Hcol Hfin) as (m & Hm & Hmin & Hmle).
  destruct (nanmax_spec _ Hcol Hfin) as (M & HM & HMin & HMle).
  exists m, M. split; [now apply In_column |].
  split; [now apply In_column |].
  intros r Hr.
  assert (Hv : In (cell r f) (column (dropna df) f)).
  { unfold column. now apply (in_map (fun r => cell r f)). }
  destruct (Hfin _ Hv) as [x Hx]. rewrite Hx in Hv.
  destruct (transform_fit _ m M x Hm HM) as (t & Ht & Heq).
  exists x, t. split; [assumption |].
  split; [split; [now apply Hmle | now apply HMle] |].
  split; [| assumption].
  unfold rescale. cbn [cell]. now rewrite Hx.
Qed.

(** The scaler of a column with minimum [m] and maximum [M]. *)
Lemma fit_closed_form (col : list num) (m M : Q) :
  nanmin col = Fin m -> nanmax col = Fin M ->
  fit col = mkFitted (scale_of m M) (min_of m M).
Proof.
  intros Hm HM.
  unfold fit, handle_zeros_in_scale, min_of, scale_of, effective_range.
  rewrite Hm, HM. cbn [vsub vneg vadd]. rewrite vlt_Fin.
  fold (Qminus M m).
  now destruct (Qltb (M - m) (10 * eps)).
Qed.

(** The second fit with its scaler: the retained rows hold the minimum
    and the maximum, and every retained cell is stored as its transform
    under [scale_of m M] and [min_of m M]. *)
Lemma second_fit_scaler (df : DataFrame) (sl : Z) (ds : TradeDataset)
    (f : Feature) :
  init df sl = Some ds ->
  exists m M : Q,
    (exists r, In r (dropna df) /\ cell r f = Fin m)
    /\ (exists r, In r (dropna df) /\ cell r f = Fin M)
    /\ forall r, In r (dropna df) ->
         exists x t,
           cell r f = Fin x /\ (m <= x <= M)%Q
           /\ cell (rescale (dropna df) r) f
              = transform (mkFitted (scale_of m M) (min_of m M)) (Fin x)
           /\ cell (rescale (dropna df) r) f = Fin t
           /\ (t == (x - m) / effective_range m M)%Q.
Proof.
  intros Hinit. apply init_spec in Hinit. destruct Hinit as [Hc _].
  pose proof (retained_finite df f Hc) as Hfin.
  destruct (check_array_spec _ Hc) as [Hne _].
  assert (Hcol : column (dropna df) f <> []).
  { unfold column. destruct (dropna df); [congruence | discriminate]. }
  destruct (nanmin_spec _ Hcol Hfin) as (m & Hm & Hmin & Hmle).
  destruct (nanmax_spec _ Hcol Hfin) as (M & HM & HMin & HMle).
  exists m, M. split; [now apply In_column |].
  split; [now apply In_column |].
  intros r Hr.
  assert (Hv : In (cell r f) (column (dropna df) f)).
  { unfold column. now apply (in_map (fun r => cell r f)). }
  destruct (Hfin _ Hv) as [x Hx]. rewrite Hx in Hv.
  destruct (transform_fit _ m M x Hm HM) as (t & Ht & Heq).
  exists x, t. split; [assumption |].
  split; [split; [now apply Hmle | now apply HMle] |].
  unfold rescale. cbn [cell]. rewrite Hx.
  split; [now rewrite (fit_closed_form _ m M Hm HM) |].
  split; assumption.
Qed.

Lemma rescaled_row (df : DataFrame) (sl : Z) (ds : TradeDataset)
    (k : nat) (r : Row) :
  init df sl = Some ds ->
  nth_error (dropna df) k = Some r ->
  nth_error (data ds) k = Some (rescale (dropna df) r).
Proof.
  intros Hinit Hk. apply init_spec in Hinit. destruct Hinit as [_ ->].
  cbn [data]. now rewrite nth_error_map, Hk.
Qed.

Lemma stored_row (df : DataFrame) (sl : Z) (ds : TradeDataset) (r' : Row) :
  init df sl = Some ds ->
  In r' (data ds) ->
  exists r, In r (dropna df) /\ r' = rescale (dropna df) r.
Proof.
  intros Hinit Hr'. apply init_spec in Hinit. destruct Hinit as [_ ->].
  cbn [data] in Hr'. apply in_map_iff in Hr'.
  destruct Hr' as (r & <- & Hr). now exists r.
Qed.

Lemma narrow_interval (m M x t : Q) :
  (M - m < 10 * eps)%Q -> (m <= x <= M)%Q ->
  (t == (x - m) / effective_range m M)%Q ->
  (0 <= t < 10 * eps)%Q.
Proof.
  intros Hn [Hl Hu] Ht.
  rewrite (effective_range_narrow m M Hn) in Ht.
  assert (Ht' : (t == x - m)%Q) by (rewrite Ht; field).
  rewrite Ht'. split; lra.
Qed.

(** The affine image keeps the order, is never negative from the
    minimum on, and is 0 at the minimum. *)
Lemma scaled_order (m M x1 x2 t1 t2 : Q) :
  (t1 == (x1 - m) / effective_range m M)%Q ->
  (t2 == (x2 - m) / effective_range m M)%Q ->
  (x1 <= x2)%Q -> (t1 <= t2)%Q.
Proof.
  intros H1 H2 Hx. pose proof (effective_range_pos m M) as Hpos.
  rewrite H1, H2. unfold Qdiv. apply Qmult_le_compat_r; [lra |].
  apply Qinv_le_0_compat. now apply Qlt_le_weak.
Qed.

Lemma scaled_nonneg (m M x t : Q) :
  (t == (x - m) / effective_range m M)%Q -> (m <= x)%Q -> (0 <= t)%Q.
Proof.
  intros Ht Hx. pose proof (effective_range_pos m M) as Hpos.
  rewrite Ht. apply Qle_shift_div_l; [assumption | lra].
Qed.

Lemma scaled_minimum (m M x t : Q) :
  (t == (x - m) / effective_range m M)%Q -> (x == m)%Q -> (t == 0)%Q.
Proof.
  intros Ht Hx. pose proof (effective_range_pos m M) as Hpos.
  rewrite Ht, Hx. field. lra.
Qed.

End DatasetFacts.

(* ----------------------------------------------------------------- *)
(** ** Series operations *)

Module PandasFacts.
Import NumFacts Pandas.

Lemma length_align (f : num -> num -> num) (a b : Series) :
  length (align f a b) = Nat.max (length a) (length b).
Proof.
  revert b; induction a as [| x a IH]; intros [| y b]; simpl;
    rewrite ?length_map; auto.
Qed.

Lemma nth_error_align (f : num -> num -> num) (a b : Series) (i : nat)
    (x y : num) :
  nth_error a i = Some x -> nth_error b i = Some y ->
  nth_error (align f a b) i = Some (f x y).
Proof.
  revert b i; induction a as [| u a IH]; intros [| v b] [| i] Hx Hy;
    simpl in *; try discriminate.
  - now inversion Hx; inversion Hy.
  - now apply IH.
Qed.

(** Where only one operand has an entry, the other counts as [NaN]. *)
Lemma nth_error_align_l (f : num -> num -> num) (a b : Series) (i : nat)
    (x : num) :
  nth_error a i = Some x ->
  exists y, nth_error (align f a b) i = Some (f x y)
            /\ (nth_error b i = Some y \/ (length b <= i /\ y = NaN)).
Proof.
  revert b i; induction a as [| u a IH]; intros b i Hx.
  - destruct i; discriminate.
  - destruct b as [| v b].
    + exists NaN. split.
      * change (align f (u :: a) []) with (map (fun x => f x NaN) (u :: a)).
        now rewrite nth_error_map, Hx.
      * right. split; [simpl; lia | reflexivity].
    + destruct i as [| i]; simpl in *.
      * inversion Hx; subst. exists v. split; auto.
      * destruct (IH b i Hx) as (y & H1 & H2). exists y. split; auto.
        destruct H2 as [H2 | [H2 ->]]; [now left | right; split; [lia | auto]].
Qed.

Lemma nth_error_align_r (f : num -> num -> num) (a b : Series) (i : nat)
    (y : num) :
  nth_error b i = Some y ->
  exists x, nth_error (align f a b) i = Some (f x y)
            /\ (nth_error a i = Some x \/ (length a <= i /\ x = NaN)).
Proof.
  revert b i; induction a as [| u a IH]; intros b i Hy.
  - exists NaN. split.
    + change (align f [] b) with (map (f NaN) b).
      now rewrite nth_error_map, Hy.
    + right. split; [simpl; lia | reflexivity].
  - destruct b as [| v b]; [destruct i; discriminate |].
    destruct i as [| i]; simpl in *.
    + inversion Hy; subst. exists u. split; auto.
    + destruct (IH b i Hy) as (x & H1 & H2). exists x. split; auto.
      destruct H2 as [H2 | [H2 ->]]; [now left | right; split; [lia | auto]].
Qed.

Lemma length_shift (s : Series) : length (shift s) = length s.
Proof.
  destruct s as [| x s]; [reflexivity |].
  unfold shift. cbn [length]. f_equal.
  generalize x. induction s as [| y s IH]; intros z; [reflexivity |].
  cbn [removelast length] in *. f_equal. destruct s; [reflexivity |].
  apply IH.
Qed.

Lemma nth_error_removelast {A} (l : list A) (i : nat) :
  S i < length l -> nth_error (removelast l) i = nth_error l i.
Proof.
  revert i; induction l as [| x l IH]; intros i H; [simpl in H; lia |].
  destruct l as [| y l]; [simpl in H; lia |].
  destruct i as [| i]; [reflexivity |].
  change (removelast (x :: y :: l)) with (x :: removelast (y :: l)).
  cbn [nth_error]. apply IH. simpl in *. lia.
Qed.

Lemma nth_error_shift_0 (s : Series) :
  s <> [] -> nth_error (shift s) 0 = Some NaN.
Proof. destruct s; [congruence | reflexivity]. Qed.

Lemma nth_error_shift_S (s : Series) (i : nat) :
  S i < length s -> nth_error (shift s) (S i) = nth_error s i.
Proof.
  intros H. destruct s as [| x s]; [simpl in H; lia |].
  unfold shift. cbn [nth_error]. now apply nth_error_removelast.
Qed.

Lemma length_diff (s : Series) : length (diff s) = length s.
Proof. unfold diff. rewrite length_align, length_shift. lia. Qed.

Lemma length_rolling (w : nat) (agg : list Q -> num) (s : Series) :
  length (rolling w agg s) = length s.
Proof. unfold rolling. now rewrite length_map, length_seq. Qed.

Lemma nth_error_rolling (w : nat) (agg : list Q -> num) (s : Series)
    (i : nat) :
  i < length s ->
  nth_error (rolling w agg s) i
  = Some (let obs := observations (window w s i) in
          if (length obs <? w) || (length obs =? 0) then NaN else agg obs).
Proof.
  intros H. unfold rolling.
  rewrite nth_error_map, nth_error_seq.
  destruct (Nat.ltb_spec i (length s)); [reflexivity | lia].
Qed.

Lemma observations_length (l : list num) :
  length (observations l) <= length l.
Proof.
  induction l as [| [q | | |] l IH]; simpl; lia.
Qed.

Lemma observations_gap (l : list num) (v : num) :
  In v l -> isfinite v = false -> length (observations l) < length l.
Proof.
  induction l as [| u l IH]; [intros [] |]; intros [Hv | Hv] Hnf.
  - subst u. pose proof (observations_length l).
    destruct v; try discriminate; simpl; lia.
  - specialize (IH Hv Hnf). destruct u; simpl; lia.
Qed.

Lemma observations_all (l : list num) :
  (forall v, In v l -> exists q, v = Fin q) ->
  length (observations l) = length l.
Proof.
  induction l as [| u l IH]; intros H; [reflexivity |].
  destruct (H u (or_introl eq_refl)) as [q ->]. simpl. f_equal.
  apply IH. intros v Hv. apply H. now right.
Qed.

Lemma length_window (w : nat) (s : Series) (i : nat) :
  i < length s -> length (window w s i) = Nat.min w (S i).
Proof.
  intros H. unfold window. rewrite length_skipn, length_firstn. lia.
Qed.

Lemma nth_error_window (w : nat) (s : Series) (i j : nat) :
  S i - w + j <= i ->
  nth_error (window w s i) j = nth_error s (S i - w + j).
Proof.
  intros H. unfold window.
  rewrite nth_error_skipn, nth_error_firstn.
  destruct (Nat.ltb_spec (S i - w + j) (S i)); [reflexivity | lia].
Qed.

Lemma In_window (w : nat) (s : Series) (i : nat) (v : num) :
  In v (window w s i) ->
  exists j, S i - w <= j <= i /\ nth_error s j = Some v.
Proof.
  intros H. apply In_nth_error in H. destruct H as [j Hj].
  assert (Hlt : j < length (window w s i)).
  { apply nth_error_Some. congruence. }
  unfold window in Hlt. rewrite length_skipn, length_firstn in Hlt.
  rewrite nth_error_window in Hj by lia.
  exists (S i - w + j). split; [lia | assumption].
Qed.

Lemma window_In (w : nat) (s : Series) (i j : nat) (v : num) :
  S i - w <= j <= i -> nth_error s j = Some v -> In v (window w s i).
Proof.
  intros Hj Hv. apply (nth_error_In _ (j - (S i - w))).
  rewrite nth_error_window by lia.
  now replace (S i - w + (j - (S i - w))) with j by lia.
Qed.

(** ** Warm-up of a rolling window *)

Lemma rolling_leading (w k : nat) (agg : list Q -> num) (s : Series) :
  leading_missing k s ->
  leading_missing (k + (w - 1)) (rolling w agg s).
Proof.
  intros Hs i Hi Hlen. rewrite length_rolling in Hlen.
  rewrite nth_error_rolling by assumption. cbv zeta.
  pose proof (observations_length (window w s i)) as Hle.
  rewrite (length_window w s i Hlen) in Hle.
  destruct (Nat.eq_dec w 0) as [-> | Hw].
  { replace (length (observations (window 0 s i))) with 0 by lia.
    reflexivity. }
  assert (Hobs : length (observations (window w s i)) < w).
  { destruct (Nat.lt_ge_cases (S i) w) as [Hshort | Hfull]; [lia |].
    assert (Hnan : nth_error s (S i - w) = Some NaN)
      by (apply Hs; lia).
    pose proof (observations_gap (window w s i) NaN
                  (window_In w s i (S i - w) NaN ltac:(lia) Hnan)
                  eq_refl) as Hgap.
    rewrite (length_window w s i Hlen) in Hgap. lia. }
  apply Nat.ltb_lt in Hobs. now rewrite Hobs.
Qed.

Lemma rolling_present (w k : nat) (agg : list Q -> num) (s : Series) :
  1 <= w ->
  (forall obs, length obs = w -> exists q, agg obs = Fin q) ->
  present_from k s ->
  present_from (k + (w - 1)) (rolling w agg s).
Proof.
  intros Hw Hagg Hs i Hi Hlen. rewrite length_rolling in Hlen.
  rewrite nth_error_rolling by assumption. cbv zeta.
  assert (Hobs : length (observations (window w s i)) = w).
  { rewrite observations_all.
    - rewrite length_window by assumption. lia.
    - intros v Hv. apply In_window in Hv. destruct Hv as (j & Hj & Hv).
      destruct (Hs j ltac:(lia) ltac:(lia)) as [q Hq].
      exists q. congruence. }
  rewrite Hobs.
  destruct (Nat.ltb_spec w w); [lia |].
  destruct (Nat.eqb_spec w 0); [lia |]. simpl.
  destruct (Hagg _ Hobs) as [q Hq]. exists q. now rewrite Hq.
Qed.

(** ** Element-wise operations *)

Lemma map_leading (g : num -> num) (k : nat) (s : Series) :
  g NaN = NaN -> leading_missing k s -> leading_missing k (map g s).
Proof.
  intros Hg Hs i Hi Hlen. rewrite length_map in Hlen.
  rewrite nth_error_map, (Hs i Hi Hlen). simpl. now rewrite Hg.
Qed.

Lemma map_present (g : num -> num) (k : nat) (s : Series) :
  (forall q, exists q', g (Fin q) = Fin q') ->
  present_from k s -> present_from k (map g s).
Proof.
  intros Hg Hs i Hi Hlen. rewrite length_map in Hlen.
  destruct (Hs i Hi Hlen) as [q Hq]. destruct (Hg q) as [q' Hq'].
  exists q'. rewrite nth_error_map, Hq. simpl. now rewrite Hq'.
Qed.

Lemma align_leading_l (f : num -> num -> num) (k : nat) (a b : Series) :
  (forall y, f NaN y = NaN) ->
  leading_missing k a -> leading_missing k (align f a b).
Proof.
  intros Hf Ha i Hi Hlen. rewrite length_align in Hlen.
  destruct (Nat.lt_ge_cases i (length a)) as [Hia | Hia].
  - destruct (nth_error_align_l f a b i NaN (Ha i Hi Hia)) as (y & H & _).
    now rewrite H, Hf.
  - destruct (nth_error b i) as [y |] eqn:Hy;
      [| apply nth_error_None in Hy; lia].
    destruct (nth_error_align_r f a b i y Hy) as (x & H & [Hx | [_ ->]]).
    + apply nth_error_None in Hia. congruence.
    + now rewrite H, Hf.
Qed.

Lemma align_leading_r (f : num -> num -> num) (k : nat) (a b : Series) :
  (forall x, f x NaN = NaN) ->
  leading_missing k b -> leading_missing k (align f a b).
Proof.
  intros Hf Hb i Hi Hlen. rewrite length_align in Hlen.
  destruct (Nat.lt_ge_cases i (length b)) as [Hib | Hib].
  - destruct (nth_error_align_r f a b i NaN (Hb i Hi Hib)) as (x & H & _).
    now rewrite H, Hf.
  - destruct (nth_error a i) as [x |] eqn:Hx;
      [| apply nth_error_None in Hx; lia].
    destruct (nth_error_align_l f a b i x Hx) as (y & H & [Hy | [_ ->]]).
    + apply nth_error_None in Hib. congruence.
    + now rewrite H, Hf.
Qed.

Lemma align_present (f : num -> num -> num) (k k' : nat) (a b : Series) :
  length a = length b ->
  (forall p q, exists r, f (Fin p) (Fin q) = Fin r) ->
  present_from k a -> present_from k' b ->
  present_from (Nat.max k k') (align f a b).
Proof.
  intros Hab Hf Ha Hb i Hi Hlen. rewrite length_align in Hlen.
  destruct (Ha i ltac:(lia) ltac:(lia)) as [p Hp].
  destruct (Hb i ltac:(lia) ltac:(lia)) as [q Hq].
  destruct (Hf p q) as [r Hr]. exists r.
  now rewrite (nth_error_align f a b i _ _ Hp Hq), Hr.
Qed.

Lemma present_weaken (k k' : nat) (s : Series) :
  k <= k' -> present_from k s -> present_from k' s.
Proof. intros Hk Hs i Hi Hlen. apply Hs; lia. Qed.

Lemma leading_weaken (k k' : nat) (s : Series) :
  k' <= k -> leading_missing k s -> leading_missing k' s.
Proof. intros Hk Hs i Hi Hlen. apply Hs; lia. Qed.

Lemma shift_leading (s : Series) : leading_missing 1 (shift s).
Proof.
  intros i Hi Hlen. replace i with 0 by lia.
  apply nth_error_shift_0. intros ->. simpl in Hlen. lia.
Qed.

Lemma shift_present (s : Series) :
  finite_series s -> present_from 1 (shift s).
Proof.
  intros Hs i Hi Hlen. rewrite length_shift in Hlen.
  destruct i as [| i]; [lia |].
  rewrite nth_error_shift_S by assumption. apply Hs; lia.
Qed.

Lemma diff_leading (s : Series) : leading_missing 1 (diff s).
Proof.
  unfold diff. apply align_leading_r; [apply vsub_nan_r |].
  apply shift_leading.
Qed.

Lemma setmask_leading (cond : num -> bool) (value : num) (k : nat)
    (s : Series) :
  cond NaN = false ->
  leading_missing k s -> leading_missing k (setmask cond value s).
Proof.
  intros Hc. unfold setmask. apply map_leading. now rewrite Hc.
Qed.

Lemma all_finite_series (s : Series) :
  all_finite s = true -> finite_series s.
Proof.
  unfold all_finite. rewrite forallb_forall. intros H i _ Hi.
  destruct (nth_error s i) as [v |] eqn:E;
    [| apply nth_error_None in E; lia].
  specialize (H v (nth_error_In _ _ E)).
  destruct v; try discriminate. now eexists.
Qed.

(** ** Warm-up of the exponentially weighted mean *)

Lemma length_ewm_loop (minp : nat) (f nw : Q) (vals : list num) :
  forall st, length (ewm_loop minp f nw st vals) = length vals.
Proof.
  induction vals as [| cur rest IH]; intros st; simpl; auto.
Qed.

Lemma length_ewm_mean (span minp : nat) (s : Series) :
  length (ewm_mean span minp s) = length s.
Proof. unfold ewm_mean. apply length_ewm_loop. Qed.

Lemma ewm_step_nobs (f nw : Q) (st : EwmState) (cur : num) :
  nobs (ewm_step f nw st cur) = nobs st + length (observations [cur]).
Proof.
  unfold ewm_step. destruct (weighted st), cur; simpl; lia.
Qed.

Lemma ewm_step_weighted (f nw : Q) (st : EwmState) (cur : num) :
  (0 < nobs st -> weighted st <> None) ->
  0 < nobs (ewm_step f nw st cur) ->
  weighted (ewm_step f nw st cur) <> None.
Proof.
  unfold ewm_step. destruct (weighted st) eqn:E, cur; simpl;
    intros H Hn; try discriminate; try (rewrite E); auto.
  all: rewrite E in H; auto.
Qed.

Lemma observations_cons_length (v : num) (l : list num) :
  length (observations (v :: l))
  = length (observations [v]) + length (observations l).
Proof. destruct v; simpl; lia. Qed.

(** Entry [i] of the loop's output is missing until [minp] observations
    have been seen, and a finite number from then on. *)
Lemma ewm_loop_nth (minp : nat) (f nw : Q) (vals : list num) :
  forall (st : EwmState) (i : nat),
    (0 < nobs st -> weighted st <> None) ->
    i < length vals ->
    (nobs st + length (observations (firstn (S i) vals)) < minp ->
     nth_error (ewm_loop minp f nw st vals) i = Some NaN)
    /\ (1 <= minp ->
        minp <= nobs st + length (observations (firstn (S i) vals)) ->
        exists q, nth_error (ewm_loop minp f nw st vals) i = Some (Fin q)).
Proof.
  induction vals as [| cur rest IH]; intros st i Hwf Hi;
    [simpl in Hi; lia |].
  pose proof (ewm_step_nobs f nw st cur) as Hn.
  pose proof (ewm_step_weighted f nw st cur Hwf) as Hwf'.
  cbn [ewm_loop]. set (st' := ewm_step f nw st cur) in *.
  destruct i as [| i].
  - cbn [nth_error firstn]. unfold ewm_output. split.
    + intros Hc. destruct (Nat.leb_spec minp (nobs st')); [lia | reflexivity].
    + intros H1 Hc. destruct (Nat.leb_spec minp (nobs st')); [| lia].
      destruct (weighted st') as [w |] eqn:Ew.
      * now exists w.
      * exfalso. apply Hwf'; [lia | reflexivity].
  - cbn [nth_error]. change (firstn (S (S i)) (cur :: rest))
      with (cur :: firstn (S i) rest).
    rewrite observations_cons_length.
    destruct (IH st' i Hwf' ltac:(simpl in Hi; lia)) as [IH1 IH2].
    split.
    + intros Hc. apply IH1. lia.
    + intros H1 Hc. apply IH2; [assumption | lia].
Qed.

Lemma leading_tail (k : nat) (x : num) (s : Series) :
  leading_missing (S k) (x :: s) -> x = NaN /\ leading_missing k s.
Proof.
  intros H. split.
  - specialize (H 0 ltac:(lia) ltac:(simpl; lia)). now inversion H.
  - intros i Hi Hlen. apply (H (S i)); simpl; lia.
Qed.

Lemma present_tail (k : nat) (x : num) (s : Series) :
  present_from k (x :: s) -> present_from (k - 1) s.
Proof.
  intros H i Hi Hlen. apply (H (S i)); simpl; lia.
Qed.

Lemma observations_firstn_leading (s : Series) :
  forall k j, leading_missing k s -> j <= length s ->
              length (observations (firstn j s)) <= j - k.
Proof.
  induction s as [| x s IH]; intros k j Hs Hj.
  - rewrite firstn_nil. simpl. lia.
  - destruct j as [| j]; [simpl; lia |].
    destruct k as [| k].
    + pose proof (observations_length (firstn (S j) (x :: s))) as H.
      rewrite length_firstn in H. lia.
    + destruct (leading_tail k x s Hs) as [-> Hs'].
      cbn [firstn observations].
      specialize (IH k j Hs' ltac:(simpl in Hj; lia)). lia.
Qed.

Lemma observations_firstn_present (s : Series) :
  forall k j, present_from k s -> j <= length s ->
              j - k <= length (observations (firstn j s)).
Proof.
  induction s as [| x s IH]; intros k j Hs Hj.
  - simpl in Hj. replace j with 0 by lia. simpl. lia.
  - destruct j as [| j]; [simpl; lia |].
    pose proof (IH (k - 1) j (present_tail k x s Hs)
                  ltac:(simpl in Hj; lia)) as H.
    cbn [firstn]. rewrite observations_cons_length.
    destruct k as [| k]; [| lia].
    destruct (Hs 0 ltac:(lia) ltac:(simpl; lia)) as [q Hq].
    inversion Hq; subst x. simpl in *. lia.
Qed.

Lemma ewm_leading (span minp k : nat) (s : Series) :
  leading_missing k s ->
  leading_missing (k + (Nat.max minp 1 - 1)) (ewm_mean span minp s).
Proof.
  intros Hs i Hi Hlen. rewrite length_ewm_mean in Hlen.
  unfold ewm_mean.
  apply ewm_loop_nth; [simpl; lia | assumption |].
  pose proof (observations_firstn_leading s k (S i) Hs ltac:(lia)).
  simpl nobs. lia.
Qed.

Lemma ewm_present (span minp k : nat) (s : Series) :
  present_from k s ->
  present_from (k + (Nat.max minp 1 - 1)) (ewm_mean span minp s).
Proof.
  intros Hs i Hi Hlen. rewrite length_ewm_mean in Hlen.
  unfold ewm_mean.
  apply ewm_loop_nth; [simpl; lia | assumption | lia |].
  pose proof (observations_firstn_present s k (S i) Hs ltac:(lia)).
  simpl nobs. lia.
Qed.

End PandasFacts.

(* ----------------------------------------------------------------- *)
(** ** The relative strength index *)

Module RsiFacts.
Import NumFacts Pandas PandasFacts Indicators.

Lemma length_rsi_gain (s : Series) (p : nat) :
  length (rsi_gain s p) = length s.
Proof.
  unfold rsi_gain, where_. now rewrite length_rolling, length_map, length_diff.
Qed.

Lemma length_rsi_loss (s : Series) (p : nat) :
  length (rsi_loss s p) = length s.
Proof.
  unfold rsi_loss, where_.
  now rewrite length_rolling, !length_map, length_diff.
Qed.

Lemma length_calculate_rsi (s : Series) (p : nat) :
  length (calculate_rsi s p) = length s.
Proof.
  unfold calculate_rsi.
  rewrite length_map, length_align, length_rsi_gain, length_rsi_loss.
  apply Nat.max_id.
Qed.

Lemma rsi_of_rs_nan : rsi_of_rs NaN = NaN.
Proof. reflexivity. Qed.

(** The first [period - 1] entries are missing: the rolling means need
    [period] observations (the first difference, which is [NaN], has
    been replaced by 0 and counts as one). *)
Lemma rsi_leading (s : Series) (p : nat) :
  leading_missing (p - 1) (calculate_rsi s p).
Proof.
  unfold calculate_rsi.
  apply map_leading; [apply rsi_of_rs_nan |].
  apply align_leading_l; [apply vdiv_nan_l |].
  unfold rsi_gain.
  apply (rolling_leading p 0). intros i Hi. lia.
Qed.

Lemma nth_error_calculate_rsi (s : Series) (p i : nat) (g l : num) :
  nth_error (rsi_gain s p) i = Some g ->
  nth_error (rsi_loss s p) i = Some l ->
  nth_error (calculate_rsi s p) i = Some (rsi_of_rs (vdiv g l)).
Proof.
  intros Hg Hl. unfold calculate_rsi.
  now rewrite nth_error_map, (nth_error_align vdiv _ _ i g l Hg Hl).
Qed.

Lemma Qlen_pos (l : list Q) : l <> [] -> (0 < Qlen l)%Q.
Proof.
  intros H. unfold Qlen, Qlt. simpl.
  destruct l; [congruence | simpl length; lia].
Qed.

Lemma Qsum_nonneg (l : list Q) :
  (forall q, In q l -> (0 <= q)%Q) -> (0 <= Qsum l)%Q.
Proof.
  induction l as [| x l IH]; intros H; simpl.
  - apply Qle_refl.
  - assert (0 <= x)%Q by (apply H; now left).
    assert (0 <= Qsum l)%Q by (apply IH; intros q Hq; apply H; now right).
    lra.
Qed.

Lemma In_observations (l : list num) (q : Q) :
  In q (observations l) -> In (Fin q) l.
Proof.
  induction l as [| v l IH]; [intros [] |].
  destruct v; simpl; intros H; try (right; now apply IH).
  destruct H as [-> | H]; [now left | right; now apply IH].
Qed.

(** A rolling mean over non-negative entries is missing or non-negative. *)
Lemma rolling_mean_nonneg (w : nat) (s : Series) (i : nat) (v : num) :
  (forall q, In (Fin q) s -> (0 <= q)%Q) ->
  nth_error (rolling w agg_mean s) i = Some v ->
  v = NaN \/ exists g, v = Fin g /\ (0 <= g)%Q.
Proof.
  intros Hs Hv.
  assert (Hi : i < length s).
  { rewrite <- (length_rolling w agg_mean). apply nth_error_Some. congruence. }
  rewrite nth_error_rolling in Hv by assumption. cbv zeta in Hv.
  set (obs := observations (window w s i)) in *.
  destruct ((length obs <? w) || (length obs =? 0)) eqn:E.
  - left. congruence.
  - right. apply orb_false_iff in E. destruct E as [_ E].
    apply Nat.eqb_neq in E.
    exists (Qmean obs). split; [unfold agg_mean in Hv; congruence |].
    unfold Qmean. apply Qle_shift_div_l.
    + apply Qlen_pos. intros H0. rewrite H0 in E. now apply E.
    + rewrite Qmult_0_l. apply Qsum_nonneg. intros q Hq.
      apply Hs. apply In_observations in Hq.
      apply In_window in Hq. destruct Hq as (j & _ & Hj).
      now apply nth_error_In in Hj.
Qed.

Lemma gains_nonneg (delta : Series) (q : Q) :
  In (Fin q) (where_ (fun d => vgt d (Fin 0)) (Fin 0) delta) -> (0 <= q)%Q.
Proof.
  unfold where_. rewrite in_map_iff. intros (d & Hd & _).
  destruct (vgt d (Fin 0)) eqn:E.
  - subst d. unfold vgt in E. simpl in E. apply Qltb_lt in E.
    now apply Qlt_le_weak.
  - inversion Hd. apply Qle_refl.
Qed.

Lemma losses_nonneg (delta : Series) (q : Q) :
  In (Fin q) (map vneg (where_ (fun d => vlt d (Fin 0)) (Fin 0) delta)) ->
  (0 <= q)%Q.
Proof.
  unfold where_. rewrite map_map, in_map_iff. intros (d & Hd & _).
  destruct (vlt d (Fin 0)) eqn:E.
  - destruct d as [x | | |]; try discriminate.
    simpl in E. apply Qltb_lt in E. inversion Hd. lra.
  - inversion Hd. lra.
Qed.

Lemma rsi_gain_nonneg (s : Series) (p i : nat) (v : num) :
  nth_error (rsi_gain s p) i = Some v ->
  v = NaN \/ exists g, v = Fin g /\ (0 <= g)%Q.
Proof. apply rolling_mean_nonneg. apply gains_nonneg. Qed.

Lemma rsi_loss_nonneg (s : Series) (p i : nat) (v : num) :
  nth_error (rsi_loss s p) i = Some v ->
  v = NaN \/ exists l, v = Fin l /\ (0 <= l)%Q.
Proof. apply rolling_mean_nonneg. apply losses_nonneg. Qed.

(** No losses in the window: the ratio is [+inf] and the index is 100
    when there was a gain, and both are [NaN] when there was none. *)
Lemma rsi_zero_loss (g l : Q) :
  (0 <= g)%Q -> (l == 0)%Q ->
  ((0 < g)%Q -> vdiv (Fin g) (Fin l) = PInf
                /\ exists q, rsi_of_rs (vdiv (Fin g) (Fin l)) = Fin q
                             /\ (q == 100)%Q)
  /\ ((g == 0)%Q -> rsi_of_rs (vdiv (Fin g) (Fin l)) = NaN).
Proof.
  intros Hg Hl. cbn [vdiv].
  apply Qeq_eq_bool in Hl. rewrite Hl. unfold inf_times. split.
  - intros Hpos. apply Qgt_alt in Hpos. rewrite Hpos.
    split; [reflexivity |]. eexists. split; [reflexivity |]. reflexivity.
  - intros H0. apply Qeq_alt in H0. now rewrite H0.
Qed.

(** Some losses in the window: the index is a number of [0, 100). *)
Lemma rsi_positive_loss (g l : Q) :
  (0 <= g)%Q -> (0 < l)%Q ->
  exists q, rsi_of_rs (vdiv (Fin g) (Fin l)) = Fin q
            /\ (0 <= q < 100)%Q.
Proof.
  intros Hg Hl. cbn [vdiv].
  destruct (Qeq_bool l 0) eqn:E.
  { apply Qeq_bool_eq in E. rewrite E in Hl. discriminate. }
  assert (Hrs : (0 <= g / l)%Q).
  { apply Qle_shift_div_l; [assumption | lra]. }
  unfold rsi_of_rs. cbn [vadd vdiv].
  destruct (Qeq_bool (1 + g / l) 0) eqn:E1.
  { apply Qeq_bool_eq in E1. lra. }
  cbn [vsub vneg vadd]. eexists. split; [reflexivity |].
  assert (Hd : (0 < 1 + g / l)%Q) by lra.
  assert (H1 : (100 / (1 + g / l) <= 100)%Q).
  { apply Qle_shift_div_r; [assumption | lra]. }
  assert (H2 : (0 < 100 / (1 + g / l))%Q).
  { apply Qlt_shift_div_l; [assumption | lra]. }
  split; lra.
Qed.

(** Every entry of the index is missing or lies in [0, 100]. *)
Lemma rsi_range (s : Series) (p i : nat) (v : num) :
  nth_error (calculate_rsi s p) i = Some v ->
  v = NaN \/ exists q, v = Fin q /\ (0 <= q <= 100)%Q.
Proof.
  intros Hv.
  assert (Hi : i < length s).
  { rewrite <- (length_calculate_rsi s p). apply nth_error_Some. congruence. }
  destruct (nth_error (rsi_gain s p) i) as [g |] eqn:Eg;
    [| apply nth_error_None in Eg; rewrite length_rsi_gain in Eg; lia].
  destruct (nth_error (rsi_loss s p) i) as [l |] eqn:El;
    [| apply nth_error_None in El; rewrite length_rsi_loss in El; lia].
  rewrite (nth_error_calculate_rsi s p i g l Eg El) in Hv.
  inversion Hv; subst v; clear Hv.
  destruct (rsi_gain_nonneg s p i g Eg) as [-> | (gq & -> & Hg)];
    [now left |].
  destruct (rsi_loss_nonneg s p i l El) as [-> | (lq & -> & Hl)];
    [now left |].
  destruct (Qlt_le_dec 0 lq) as [Hpos | Hzero].
  - destruct (rsi_positive_loss gq lq Hg Hpos) as (q & -> & Hq).
    right. exists q. split; [reflexivity | lra].
  - assert (Hl0 : (lq == 0)%Q) by lra.
    destruct (rsi_zero_loss gq lq Hg Hl0) as [Hgain Hflat].
    destruct (Qlt_le_dec 0 gq) as [Hgpos | Hg0].
    + destruct (Hgain Hgpos) as (_ & q & -> & Hq).
      right. exists q. split; [reflexivity | lra].
    + left. apply Hflat. lra.
Qed.

End RsiFacts.

(* ----------------------------------------------------------------- *)
(** ** Warm-up of the other indicators *)

Module IndicatorFacts.
Import NumFacts Pandas PandasFacts Indicators.

(** Push [length] through the series operations. *)
Ltac series_lengths :=
  repeat first
    [ rewrite length_align | rewrite length_ewm_mean
    | rewrite length_rolling | rewrite length_map
    | rewrite length_diff | rewrite length_shift ].

Lemma leading_any (s : Series) : leading_missing 0 s.
Proof. intros i Hi. lia. Qed.

Lemma vsub_finite (p q : Q) : exists r, vsub (Fin p) (Fin q) = Fin r.
Proof. now eexists. Qed.

Lemma vadd_finite (p q : Q) : exists r, vadd (Fin p) (Fin q) = Fin r.
Proof. now eexists. Qed.

Lemma np_maximum_finite (p q : Q) :
  exists r, np_maximum (Fin p) (Fin q) = Fin r.
Proof.
  unfold np_maximum. destruct (vlt (Fin p) (Fin q)); now eexists.
Qed.

Lemma agg_mean_finite (w : nat) (obs : list Q) :
  length obs = w -> exists q, agg_mean obs = Fin q.
Proof. intros _. now eexists. Qed.

(** *** Average true range *)

Section Atr.

Variables (high low close : Series) (period : nat).
Hypothesis Hhl : length high = length low.
Hypothesis Hhc : length high = length close.

Lemma length_true_range :
  length (align np_maximum
            (align np_maximum (align vsub high low)
               (map vabs (align vsub high (shift close))))
            (map vabs (align vsub low (shift close))))
  = length high.
Proof.
  rewrite !length_align, !length_map, !length_align, length_shift. lia.
Qed.

Lemma length_calculate_atr :
  length (calculate_atr high low close period) = length high.
Proof.
  unfold calculate_atr. rewrite length_rolling. apply length_true_range.
Qed.

(** The true range of the first row is missing (there is no previous
    close), so the mean over [period] rows is missing on the first
    [period] rows. *)
Lemma atr_leading :
  1 <= period ->
  leading_missing period (calculate_atr high low close period).
Proof.
  intros Hp. unfold calculate_atr.
  apply (leading_weaken (1 + (period - 1))); [lia |].
  apply rolling_leading.
  apply align_leading_r; [apply np_maximum_nan_r |].
  apply map_leading; [reflexivity |].
  apply align_leading_r; [apply vsub_nan_r |].
  apply shift_leading.
Qed.

Lemma atr_present :
  1 <= period ->
  finite_series high -> finite_series low -> finite_series close ->
  present_from period (calculate_atr high low close period).
Proof.
  intros Hp Hh Hl Hc. unfold calculate_atr.
  apply (present_weaken (1 + (period - 1))); [lia |].
  apply rolling_present; [assumption | apply agg_mean_finite |].
  assert (Hsh : forall x : Series,
             length x = length close -> finite_series x ->
             present_from 1 (map vabs (align vsub x (shift close)))).
  { intros x Hx Hfx. apply map_present; [intros q; now eexists |].
    apply (align_present vsub 0 1).
    - now rewrite length_shift.
    - apply vsub_finite.
    - exact Hfx.
    - now apply shift_present. }
  apply (align_present np_maximum 1 1).
  - rewrite length_align, !length_map, !length_align, !length_shift. lia.
  - apply np_maximum_finite.
  - apply (align_present np_maximum 0 1).
    + rewrite length_map, !length_align, length_shift. lia.
    + apply np_maximum_finite.
    + apply (align_present vsub 0 0); auto. apply vsub_finite.
    + apply Hsh; [lia | assumption].
  - apply Hsh; [lia | assumption].
Qed.

End Atr.

(** *** On-balance volume *)

Lemma broadcast_same {A} (l : list A) : broadcast (length l) l = Some l.
Proof. unfold broadcast. now rewrite Nat.eqb_refl. Qed.

Lemma broadcast_length_same (n : nat) : broadcast_length n n = n.
Proof. unfold broadcast_length. now destruct (n =? 1). Qed.

Lemma np_where_same (cond : list bool) (x y : list num) :
  length cond = length x -> length x = length y ->
  np_where cond x y = Some (select cond x y).
Proof.
  intros H1 H2. unfold np_where.
  rewrite <- H2, <- H1, !broadcast_length_same.
  rewrite broadcast_same.
  rewrite H1 at 1. rewrite broadcast_same.
  rewrite H1, H2. now rewrite broadcast_same.
Qed.

Lemma select_spec (cond : list bool) :
  forall x y : list num,
    length cond = length x -> length x = length y ->
    length (select cond x y) = length cond
    /\ forall v, In v (select cond x y) -> In v x \/ In v y.
Proof.
  induction cond as [| c cond IH]; intros [| a x] [| b y] H1 H2;
    simpl in *; try discriminate.
  - split; [reflexivity | intros v []].
  - destruct (IH x y ltac:(lia) ltac:(lia)) as [IHl IHin].
    split; [now rewrite IHl |].
    intros v [Hv | Hv].
    + destruct c; subst v; auto.
    + destruct (IHin v Hv); auto.
Qed.

Lemma cumsum_from_finite (a : list num) :
  forall acc : Q,
    (forall v, In v a -> exists q, v = Fin q) ->
    length (cumsum_from (Fin acc) a) = length a
    /\ finite_series (cumsum_from (Fin acc) a).
Proof.
  induction a as [| x a IH]; intros acc Ha.
  - split; [reflexivity |]. intros i _ Hi. simpl in Hi. lia.
  - destruct (Ha x (or_introl eq_refl)) as [q ->].
    cbn [cumsum_from vadd].
    destruct (IH (acc + q)%Q (fun v Hv => Ha v (or_intror Hv))) as [IHl IHf].
    split; [simpl; now rewrite IHl |].
    intros [| i] _ Hi.
    + now eexists.
    + cbn [nth_error]. apply IHf; [lia | simpl in Hi; lia].
Qed.

Lemma finite_series_In (s : Series) (v : num) :
  finite_series s -> In v s -> exists q, v = Fin q.
Proof.
  intros Hs Hv. apply In_nth_error in Hv. destruct Hv as [i Hi].
  destruct (Hs i ltac:(lia)) as [q Hq].
  - apply nth_error_Some. congruence.
  - exists q. congruence.
Qed.

(** The on-balance volume of finite columns has no missing entry. *)
Lemma obv_present (close volume : Series) :
  length close = length volume ->
  finite_series volume ->
  exists obv,
    calculate_obv close volume = Some obv
    /\ length obv = length close
    /\ finite_series obv.
Proof.
  intros Hlen Hv. unfold calculate_obv.
  rewrite np_where_same
    by (rewrite ?length_map, ?length_diff; auto).
  destruct (select_spec (map (fun d => vgt d (Fin 0)) (diff close))
              volume (map vneg volume)) as [Hl Hin].
  { now rewrite length_map, length_diff. }
  { now rewrite length_map. }
  eexists. split; [reflexivity |].
  destruct (cumsum_from_finite
              (select (map (fun d => vgt d (Fin 0)) (diff close))
                 volume (map vneg volume)) 0%Q) as [Hcl Hcf].
  { intros v Hin'. destruct (Hin v Hin') as [H | H].
    - now apply (finite_series_In volume).
    - apply in_map_iff in H. destruct H as (u & <- & Hu).
      destruct (finite_series_In volume u Hv Hu) as [q ->]. now eexists. }
  split; [| exact Hcf].
  unfold cumsum. now rewrite Hcl, Hl, length_map, length_diff.
Qed.

Lemma leading_max (k k' : nat) (s : Series) :
  leading_missing k s -> leading_missing k' s ->
  leading_missing (Nat.max k k') s.
Proof.
  intros H H' i Hi Hlen.
  destruct (Nat.lt_ge_cases i k); [now apply H | apply H'; lia].
Qed.

(** *** MACD and its signal line *)

Section Macd.

Variables (series : Series) (fast slow signal : nat).
Hypothesis Hfast : 1 <= fast.
Hypothesis Hslow : 1 <= slow.
Hypothesis Hsignal : 1 <= signal.

Lemma length_macd_line :
  length (align vsub (ewm_mean fast fast series)
            (ewm_mean slow slow series)) = length series.
Proof. rewrite length_align, !length_ewm_mean. apply Nat.max_id. Qed.

Lemma length_calculate_macd :
  let '(macd, sig, hist) := calculate_macd series fast slow signal in
  length macd = length series
  /\ length sig = length series
  /\ length hist = length series.
Proof.
  unfold calculate_macd. cbv zeta.
  series_lengths. repeat split; lia.
Qed.

Lemma macd_line_leading :
  leading_missing (Nat.max fast slow - 1)
    (align vsub (ewm_mean fast fast series) (ewm_mean slow slow series)).
Proof.
  apply (leading_weaken (Nat.max (0 + (Nat.max fast 1 - 1))
                                 (0 + (Nat.max slow 1 - 1)))); [lia |].
  apply leading_max.
  - apply align_leading_l; [apply vsub_nan_l |].
    apply ewm_leading, leading_any.
  - apply align_leading_r; [apply vsub_nan_r |].
    apply ewm_leading, leading_any.
Qed.

Lemma macd_line_present :
  finite_series series ->
  present_from (Nat.max fast slow - 1)
    (align vsub (ewm_mean fast fast series) (ewm_mean slow slow series)).
Proof.
  intros Hs.
  apply (present_weaken (Nat.max (0 + (Nat.max fast 1 - 1))
                                 (0 + (Nat.max slow 1 - 1)))); [lia |].
  apply align_present.
  - now rewrite !length_ewm_mean.
  - apply vsub_finite.
  - now apply ewm_present.
  - now apply ewm_present.
Qed.

(** The MACD line is missing on the first [max fast slow - 1] rows and
    its signal line on [signal - 1] more; on a finite column these are
    all the missing entries. *)
Lemma macd_warm_up :
  let '(macd, sig, _) := calculate_macd series fast slow signal in
  leading_missing (Nat.max fast slow - 1) macd
  /\ leading_missing (Nat.max fast slow - 1 + (signal - 1)) sig
  /\ (finite_series series ->
      present_from (Nat.max fast slow - 1) macd
      /\ present_from (Nat.max fast slow - 1 + (signal - 1)) sig).
Proof.
  unfold calculate_macd. cbv zeta.
  split; [apply macd_line_leading |].
  split.
  - apply (leading_weaken (Nat.max fast slow - 1 + (Nat.max signal 1 - 1)));
      [lia |].
    apply ewm_leading, macd_line_leading.
  - intros Hs. split; [now apply macd_line_present |].
    apply (present_weaken (Nat.max fast slow - 1 + (Nat.max signal 1 - 1)));
      [lia |].
    now apply ewm_present, macd_line_present.
Qed.

End Macd.

(** *** Stochastic oscillator *)

Section Stochastic.

Variables (high low close : Series) (period : nat).
Hypothesis Hhl : length high = length low.
Hypothesis Hhc : length high = length close.

Lemma length_calculate_stochastic :
  let '(k, d) := calculate_stochastic high low close period in
  length k = length high /\ length d = length high.
Proof.
  unfold calculate_stochastic. cbv zeta.
  series_lengths. split; lia.
Qed.

(** [%K] is missing on the first [period - 1] rows, [%D] on two more. *)
Lemma stochastic_warm_up :
  let '(k, d) := calculate_stochastic high low close period in
  leading_missing (period - 1) k
  /\ leading_missing (period - 1 + 2) d.
Proof.
  unfold calculate_stochastic. cbv zeta.
  assert (Hk : leading_missing (period - 1)
                 (align vdiv
                    (map (vmul (Fin 100))
                       (align vsub close (rolling period agg_min low)))
                    (align vsub (rolling period agg_max high)
                       (rolling period agg_min low)))).
  { apply align_leading_l; [apply vdiv_nan_l |].
    apply map_leading; [reflexivity |].
    apply align_leading_r; [apply vsub_nan_r |].
    apply (rolling_leading period 0), leading_any. }
  split; [exact Hk |].
  now apply (rolling_leading 3 (period - 1)).
Qed.

End Stochastic.

(** *** Average directional index *)

Section Adx.

Variables (high low close : Series) (period : nat).
Hypothesis Hhl : length high = length low.
Hypothesis Hhc : length high = length close.

Lemma length_calculate_adx :
  length (calculate_adx high low close period) = length high.
Proof.
  unfold calculate_adx, setmask. series_lengths.
  rewrite (length_calculate_atr high low close period Hhl Hhc).
  lia.
Qed.

Lemma directional_index_leading (dm : Series) :
  leading_missing 1 dm ->
  leading_missing period
    (map (vmul (Fin 100))
       (align vdiv
          (ewm_mean period period
             (setmask (fun v => vlt v (Fin 0)) (Fin 0) dm))
          (calculate_atr high low close period))).
Proof.
  intros Hdm.
  apply map_leading; [reflexivity |].
  apply align_leading_l; [apply vdiv_nan_l |].
  apply (leading_weaken (1 + (Nat.max period 1 - 1))); [lia |].
  apply ewm_leading, setmask_leading; [reflexivity | assumption].
Qed.

(** The index is missing on the first [2 * period - 1] rows: [period]
    for the smoothed directional movements, [period - 1] more for the
    final smoothing. *)
Lemma adx_leading :
  1 <= period ->
  leading_missing (2 * period - 1) (calculate_adx high low close period).
Proof.
  intros Hp. unfold calculate_adx.
  apply (leading_weaken (period + (Nat.max period 1 - 1))); [lia |].
  apply ewm_leading.
  apply map_leading; [reflexivity |].
  apply align_leading_l; [apply vdiv_nan_l |].
  apply align_leading_l; [apply vsub_nan_l |].
  apply directional_index_leading, diff_leading.
Qed.

End Adx.

(** *** Bollinger bands *)

Section Bollinger.

Variable sqrt : Q -> Q.
Variables (series : Series) (period : nat).

Lemma length_calculate_bollinger_bands :
  let '(upper, sma, lower) :=
    calculate_bollinger_bands sqrt series period in
  length upper = length series
  /\ length sma = length series
  /\ length lower = length series.
Proof.
  unfold calculate_bollinger_bands. cbv zeta.
  series_lengths. repeat split; lia.
Qed.

Lemma agg_std_finite (obs : list Q) :
  2 <= period -> length obs = period ->
  exists q, agg_std sqrt obs = Fin q.
Proof.
  intros Hp Hl. unfold agg_std.
  destruct (Nat.leb_spec (length obs) 1); [lia | now eexists].
Qed.

(** The bands are missing on the first [period - 1] rows, and on a
    finite column nowhere else. *)
Lemma bollinger_warm_up :
  let '(upper, sma, lower) :=
    calculate_bollinger_bands sqrt series period in
  (leading_missing (period - 1) upper
   /\ leading_missing (period - 1) sma
   /\ leading_missing (period - 1) lower)
  /\ (2 <= period -> finite_series series ->
      present_from (period - 1) upper
      /\ present_from (period - 1) sma
      /\ present_from (period - 1) lower).
Proof.
  unfold calculate_bollinger_bands. cbv zeta.
  assert (Hsma : leading_missing (period - 1)
                   (rolling period agg_mean series))
    by apply (rolling_leading period 0), leading_any.
  split.
  - split; [| split]; [| exact Hsma |].
    + apply align_leading_l; [apply vadd_nan_l | exact Hsma].
    + apply align_leading_l; [apply vsub_nan_l | exact Hsma].
  - intros Hp Hs.
    assert (Hm : present_from (period - 1)
                   (rolling period agg_mean series)).
    { apply (rolling_present period 0); [lia | | assumption].
      apply agg_mean_finite. }
    assert (Hd : present_from (period - 1)
                   (map (fun x => vmul x (Fin 2))
                      (rolling period (agg_std sqrt) series))).
    { apply map_present; [intros q; now eexists |].
      apply (rolling_present period 0); [lia | | assumption].
      intros obs Hobs. now apply agg_std_finite. }
    split; [| split]; [| exact Hm |].
    + apply (present_weaken (Nat.max (period - 1) (period - 1))); [lia |].
      apply align_present; auto.
      * now rewrite length_map, !length_rolling.
      * apply vadd_finite.
    + apply (present_weaken (Nat.max (period - 1) (period - 1))); [lia |].
      apply align_present; auto.
      * now rewrite length_map, !length_rolling.
      * apply vsub_finite.
Qed.

End Bollinger.

End IndicatorFacts.

(* ----------------------------------------------------------------- *)
(** ** Values behind the warm-up *)

Module PresenceFacts.
Import NumFacts Pandas PandasFacts Indicators RsiFacts IndicatorFacts.

(** The value of a rolling aggregate that is present: the aggregate of
    the observations of a full window. *)
Lemma rolling_value (w : nat) (agg : list Q -> num) (s : Series)
    (i : nat) (v : num) :
  nth_error (rolling w agg s) i = Some v ->
  v = NaN
  \/ (v = agg (observations (window w s i))
      /\ w <= length (observations (window w s i))
      /\ 1 <= length (observations (window w s i))).
Proof.
  intros Hv.
  assert (Hi : i < length s).
  { rewrite <- (length_rolling w agg). apply nth_error_Some. congruence. }
  rewrite nth_error_rolling in Hv by assumption. cbv zeta in Hv.
  destruct (Nat.ltb_spec (length (observations (window w s i))) w);
    [left; simpl in Hv; congruence |].
  destruct (Nat.eqb_spec (length (observations (window w s i))) 0);
    [left; simpl in Hv; congruence |].
  right. simpl in Hv. split; [congruence | lia].
Qed.

(** The true range has no negative entry. *)
Lemma true_range_nonneg (hl a b : Series) (q : Q) :
  In (Fin q) (align np_maximum (align np_maximum hl (map vabs a))
                (map vabs b)) ->
  (0 <= q)%Q.
Proof.
  intros Hin. apply In_nth_error in Hin. destruct Hin as [i Hi].
  assert (Hmax : forall x y, np_maximum x (vabs y) = Fin q -> (0 <= q)%Q).
  { intros x y. destruct x as [x | | |], y as [y | | |];
      cbn [np_maximum vabs vlt]; try discriminate.
    - destruct (Qltb x (Qabs y)) eqn:E; intros H; inversion H; subst.
      + apply Qabs_nonneg.
      + apply Qltb_ge in E. eapply Qle_trans; [apply Qabs_nonneg | exact E].
    - intros H; inversion H; subst. apply Qabs_nonneg. }
  assert (Hnan : forall x, np_maximum x NaN = Fin q -> False).
  { intros x. rewrite np_maximum_nan_r. discriminate. }
  destruct (nth_error (map vabs b) i) as [y |] eqn:Ey.
  - destruct (nth_error_align_r np_maximum
                (align np_maximum hl (map vabs a)) (map vabs b) i y Ey)
      as (x & Hx & _).
    rewrite Hx in Hi. inversion Hi as [Hq].
    rewrite nth_error_map in Ey.
    destruct (nth_error b i) as [y0 |]; [| discriminate].
    simpl in Ey. inversion Ey; subst y. eapply Hmax; eauto.
  - destruct (nth_error (align np_maximum hl (map vabs a)) i) as [x |] eqn:Ex.
    + destruct (nth_error_align_l np_maximum _ (map vabs b) i x Ex)
        as (y & Hy & [Hy' | [_ ->]]); [congruence |].
      rewrite Hy in Hi. inversion Hi as [Hq]. now apply Hnan in Hq.
    + apply nth_error_None in Ex, Ey.
      assert (Hlen : i < length (align np_maximum
                                   (align np_maximum hl (map vabs a))
                                   (map vabs b))).
      { apply nth_error_Some. congruence. }
      rewrite length_align in Hlen. lia.
Qed.

(** *** Differences *)

Lemma nth_error_diff_0 (s : Series) (x : num) :
  nth_error s 0 = Some x -> nth_error (diff s) 0 = Some NaN.
Proof.
  intros Hx. unfold diff.
  assert (Hne : s <> []) by (destruct s; [discriminate | congruence]).
  rewrite (nth_error_align vsub s (shift s) 0 x NaN Hx
             (nth_error_shift_0 s Hne)).
  now rewrite vsub_nan_r.
Qed.

Lemma nth_error_diff_S (s : Series) (i : nat) (x y : num) :
  nth_error s i = Some x -> nth_error s (S i) = Some y ->
  nth_error (diff s) (S i) = Some (vsub y x).
Proof.
  intros Hx Hy. unfold diff.
  assert (Hlt : S i < length s) by (apply nth_error_Some; congruence).
  apply nth_error_align; [assumption |].
  now rewrite nth_error_shift_S.
Qed.

(** *** Exponentially weighted means stay among their observations *)

Section EwmInvariant.

(** A set of values closed under weighted means with a non-negative
    weight on the past and a positive weight on the present. *)
Variable P : Q -> Prop.
Hypothesis P_mean :
  forall a b x y : Q,
    (0 <= a)%Q -> (0 < b)%Q -> P x -> P y ->
    P ((a * x + b * y) / (a + b))%Q.

Variables (minp : nat) (f nw : Q).
Hypothesis f_nonneg : (0 <= f)%Q.
Hypothesis nw_pos : (0 < nw)%Q.

Lemma ewm_step_inv (st : EwmState) (cur : num) :
  (forall c, cur = Fin c -> P c) ->
  (0 <= old_wt st)%Q /\ (forall w, weighted st = Some w -> P w) ->
  (0 <= old_wt (ewm_step f nw st cur))%Q
  /\ (forall w, weighted (ewm_step f nw st cur) = Some w -> P w).
Proof.
  intros Hcur [How Hw]. unfold ewm_step.
  assert (Hf : (0 <= old_wt st * f)%Q) by now apply Qmult_le_0_compat.
  destruct (weighted st) as [w |] eqn:E, cur as [c | | |]; cbn [old_wt weighted];
    try (split; [assumption | rewrite ?E; assumption]).
  - split; [lra |]. intros w' [= <-].
    destruct (Qeq_bool w c); [now apply Hw |].
    apply P_mean; auto.
  - split; [assumption |]. intros w' [= <-]. now apply Hcur.
Qed.

Lemma ewm_loop_inv (vals : list num) :
  forall (st : EwmState) (i : nat) (v : num),
    (forall c, In (Fin c) vals -> P c) ->
    (0 <= old_wt st)%Q /\ (forall w, weighted st = Some w -> P w) ->
    nth_error (ewm_loop minp f nw st vals) i = Some v ->
    v = NaN \/ exists q, v = Fin q /\ P q.
Proof.
  induction vals as [| cur rest IH]; intros st i v Hvals Hst Hv;
    [destruct i; discriminate |].
  assert (Hst' : (0 <= old_wt (ewm_step f nw st cur))%Q
                 /\ (forall w, weighted (ewm_step f nw st cur) = Some w ->
                               P w)).
  { apply ewm_step_inv; [| assumption].
    intros c ->. apply Hvals. now left. }
  cbn [ewm_loop] in Hv. destruct i as [| i].
  - cbn [nth_error] in Hv. inversion Hv as [Hv']. unfold ewm_output.
    destruct (minp <=? _); [| now left].
    destruct (weighted (ewm_step f nw st cur)) as [w |] eqn:E; [| now left].
    right. exists w. split; [reflexivity |]. now apply Hst'.
  - cbn [nth_error] in Hv. eapply IH; [| exact Hst' | exact Hv].
    intros c Hc. apply Hvals. now right.
Qed.

End EwmInvariant.

Lemma ewm_factor_nonneg (span : nat) :
  1 <= span ->
  (0 <= 1 - 1 / (1 + (inject_Z (Z.of_nat span) - 1) / 2))%Q.
Proof.
  intros Hs.
  assert (H1 : (1 <= inject_Z (Z.of_nat span))%Q).
  { change 1%Q with (inject_Z 1). rewrite <- Zle_Qle. lia. }
  set (x := inject_Z (Z.of_nat span)) in *.
  assert (Hpos : (0 < 1 + (x - 1) / 2)%Q).
  { assert (0 <= (x - 1) / 2)%Q; [| lra].
    apply Qle_shift_div_l; lra. }
  assert (Hle : (1 / (1 + (x - 1) / 2) <= 1)%Q).
  { apply Qle_shift_div_r; [assumption |].
    assert (0 <= (x - 1) / 2)%Q; [| lra].
    apply Qle_shift_div_l; lra. }
  lra.
Qed.

(** The exponentially weighted mean of a series keeps any such set: if
    every number of the series is in it, so is every number of the
    result. *)
Lemma ewm_mean_inv (P : Q -> Prop) (span min_periods : nat) (s : Series)
    (i : nat) (v : num) :
  (forall a b x y : Q,
      (0 <= a)%Q -> (0 < b)%Q -> P x -> P y ->
      P ((a * x + b * y) / (a + b))%Q) ->
  1 <= span ->
  (forall c, In (Fin c) s -> P c) ->
  nth_error (ewm_mean span min_periods s) i = Some v ->
  v = NaN \/ exists q, v = Fin q /\ P q.
Proof.
  intros HP Hspan Hs. unfold ewm_mean.
  apply ewm_loop_inv; try assumption.
  - now apply ewm_factor_nonneg.
  - reflexivity.
  - split; [simpl; lra | discriminate].
Qed.

Lemma nonneg_mean (a b x y : Q) :
  (0 <= a)%Q -> (0 < b)%Q -> (0 <= x)%Q -> (0 <= y)%Q ->
  (0 <= (a * x + b * y) / (a + b))%Q.
Proof.
  intros Ha Hb Hx Hy.
  apply Qle_shift_div_l; [lra |]. nra.
Qed.

(** An aligned operation reads a missing operand as [NaN]. *)
Lemma align_value (f : num -> num -> num) (a : Series) :
  forall (b : Series) (i : nat) (v : num),
    nth_error (align f a b) i = Some v ->
    v = f (nth i a NaN) (nth i b NaN).
Proof.
  induction a as [| x a IH]; intros b i v Hv.
  - change (align f [] b) with (map (f NaN) b) in Hv.
    rewrite nth_error_map in Hv.
    destruct (nth_error b i) as [y |] eqn:Ey; [| discriminate].
    inversion Hv. rewrite (nth_error_nth _ _ _ Ey). now destruct i.
  - destruct b as [| y b].
    + change (align f (x :: a) []) with (map (fun u => f u NaN) (x :: a)) in Hv.
      rewrite nth_error_map in Hv.
      destruct (nth_error (x :: a) i) as [u |] eqn:Eu; [| discriminate].
      inversion Hv. rewrite (nth_error_nth _ _ _ Eu). now destruct i.
    + destruct i as [| i]; simpl in *; [now inversion Hv |]. now apply IH.
Qed.

(** *** Directional indicators *)

Lemma nth_nonneg (s : Series) (i : nat) :
  (forall j v, nth_error s j = Some v ->
               v = NaN \/ exists q, v = Fin q /\ (0 <= q)%Q) ->
  nth i s NaN = NaN \/ exists q, nth i s NaN = Fin q /\ (0 <= q)%Q.
Proof.
  intros Hs. destruct (nth_error s i) as [v |] eqn:E.
  - rewrite (nth_error_nth _ _ _ E). now apply (Hs i).
  - left. apply nth_error_None in E. now apply nth_overflow.
Qed.

(** The directional movements after [plus_dm[plus_dm < 0] = 0]. *)
Lemma setmask_nonneg (s : Series) (q : Q) :
  In (Fin q) (setmask (fun v => vlt v (Fin 0)) (Fin 0) s) -> (0 <= q)%Q.
Proof.
  unfold setmask. rewrite in_map_iff. intros (v & Hv & _).
  destruct (vlt v (Fin 0)) eqn:E.
  - inversion Hv. apply Qle_refl.
  - subst v. simpl in E. now apply Qltb_ge in E.
Qed.

(** A directional indicator is missing, [+inf] or a non-negative number. *)
Lemma directional_indicator_value (e t : num) :
  (e = NaN \/ exists q, e = Fin q /\ (0 <= q)%Q) ->
  (t = NaN \/ exists q, t = Fin q /\ (0 <= q)%Q) ->
  vmul (Fin 100) (vdiv e t) = NaN
  \/ vmul (Fin 100) (vdiv e t) = PInf
  \/ exists q, vmul (Fin 100) (vdiv e t) = Fin q /\ (0 <= q)%Q.
Proof.
  intros [-> | (x & -> & Hx)] [-> | (y & -> & Hy)];
    try (left; reflexivity).
  cbn [vdiv]. destruct (Qeq_bool y 0) eqn:E.
  - unfold inf_times. destruct (Qcompare x 0) eqn:C.
    + now left.
    + apply Qlt_alt in C. lra.
    + right. left. reflexivity.
  - right. right. cbn [vmul]. eexists. split; [reflexivity |].
    assert (Hy' : (0 < y)%Q).
    { apply Qeq_bool_neq in E. lra. }
    assert (0 <= x / y)%Q by (apply Qle_shift_div_l; lra).
    lra.
Qed.

(** The directional index of two such indicators is missing or a number
    between 0 and 100. *)
Lemma directional_index_value (p m : num) :
  (p = NaN \/ p = PInf \/ exists q, p = Fin q /\ (0 <= q)%Q) ->
  (m = NaN \/ m = PInf \/ exists q, m = Fin q /\ (0 <= q)%Q) ->
  vmul (Fin 100) (vabs (vdiv (vsub p m) (vadd p m))) = NaN
  \/ exists q, vmul (Fin 100) (vabs (vdiv (vsub p m) (vadd p m))) = Fin q
               /\ (0 <= q <= 100)%Q.
Proof.
  intros [-> | [-> | (x & -> & Hx)]] [-> | [-> | (y & -> & Hy)]];
    try (left; reflexivity).
  unfold vsub. cbn [vneg vadd vdiv].
  destruct (Qeq_bool (x + y) 0) eqn:E.
  - left. apply Qeq_bool_eq in E.
    assert (Hz : (x + - y == 0)%Q) by lra.
    apply Qeq_alt in Hz. unfold inf_times. now rewrite Hz.
  - right. cbn [vabs vmul]. eexists. split; [reflexivity |].
    assert (Hpos : (0 < x + y)%Q).
    { apply Qeq_bool_neq in E. lra. }
    pose proof (Qabs_nonneg ((x + - y) / (x + y))).
    assert (Qabs ((x + - y) / (x + y)) <= 1)%Q.
    { apply Qabs_Qle_condition. split.
      - apply Qle_shift_div_l; [assumption | lra].
      - apply Qle_shift_div_r; [assumption | lra]. }
    lra.
Qed.

Lemma observations_In (l : list num) (q : Q) :
  In (Fin q) l -> In q (observations l).
Proof.
  induction l as [| v l IH]; [intros [] |].
  intros [-> | H].
  - now left.
  - destruct v; simpl; auto.
Qed.

(** The differences of a finite series: none on the first row, a number
    on every other row. *)
Lemma diff_entries (s : Series) (j : nat) :
  finite_series s -> j < length s ->
  (j = 0 /\ nth_error (diff s) j = Some NaN)
  \/ exists j' a b,
       j = S j' /\ nth_error s j' = Some (Fin a)
       /\ nth_error s j = Some (Fin b)
       /\ nth_error (diff s) j = Some (Fin (b + - a)).
Proof.
  intros Hs Hj. destruct j as [| j'].
  - left. split; [reflexivity |].
    destruct (Hs 0 ltac:(lia) Hj) as [q Hq].
    now apply (nth_error_diff_0 s (Fin q)).
  - right. destruct (Hs j' ltac:(lia) ltac:(lia)) as [a Ha].
    destruct (Hs (S j') ltac:(lia) Hj) as [b Hb].
    exists j', a, b. repeat split; try assumption.
    now rewrite (nth_error_diff_S s j' (Fin a) (Fin b) Ha Hb).
Qed.

(** The gains and the losses of a finite series are numbers on every
    row. *)
Lemma gains_finite (s : Series) :
  finite_series s ->
  finite_series (where_ (fun d => vgt d (Fin 0)) (Fin 0) (diff s)).
Proof.
  intros Hs j _ Hj. unfold where_ in *.
  rewrite length_map, length_diff in Hj. rewrite nth_error_map.
  destruct (diff_entries s j Hs Hj)
    as [[_ ->] | (j' & a & b & _ & _ & _ & ->)]; cbn [option_map].
  - now eexists.
  - destruct (vgt _ _); now eexists.
Qed.

Lemma losses_finite (s : Series) :
  finite_series s ->
  finite_series
    (map vneg (where_ (fun d => vlt d (Fin 0)) (Fin 0) (diff s))).
Proof.
  intros Hs j _ Hj. unfold where_ in *.
  rewrite !length_map, length_diff in Hj. rewrite !nth_error_map.
  destruct (diff_entries s j Hs Hj)
    as [[_ ->] | (j' & a & b & _ & _ & _ & ->)]; cbn [option_map].
  - now eexists.
  - destruct (vlt _ _); now eexists.
Qed.


(** *** Where the oscillators are present *)

(** A rolling aggregate is present exactly when every entry of its
    window is a number. *)
Lemma rolling_present_iff (w : nat) (agg : list Q -> num) (s : Series)
    (i : nat) :
  1 <= w -> w - 1 <= i -> i < length s ->
  (forall obs, length obs = w -> exists q, agg obs = Fin q) ->
  (exists q, nth_error (rolling w agg s) i = Some (Fin q))
  <-> (forall j, S i - w <= j -> j <= i ->
         exists q, nth_error s j = Some (Fin q)).
Proof.
  intros Hw Hi Hlen Hagg.
  rewrite nth_error_rolling by assumption. cbv zeta.
  pose proof (length_window w s i Hlen) as Hwin.
  pose proof (observations_length (window w s i)) as Hle.
  split.
  - intros [q Hq] j Hj1 Hj2.
    destruct (nth_error s j) as [v |] eqn:Ev;
      [| apply nth_error_None in Ev; lia].
    assert (Hfull : w <= length (observations (window w s i))).
    { destruct (Nat.ltb_spec (length (observations (window w s i))) w);
        [simpl in Hq; discriminate | assumption]. }
    destruct (isfinite v) eqn:Ef.
    + destruct v; try discriminate. now eexists.
    + pose proof (observations_gap (window w s i) v
                    (window_In w s i j v (conj Hj1 Hj2) Ev) Ef).
      lia.
  - intros Hall.
    assert (Hobs : length (observations (window w s i)) = w).
    { rewrite observations_all; [lia |].
      intros v Hv. apply In_window in Hv. destruct Hv as (j & Hj & Hv).
      destruct (Hall j) as [q Hq]; try lia. exists q. congruence. }
    rewrite Hobs.
    destruct (Nat.ltb_spec w w); [lia |].
    destruct (Nat.eqb_spec w 0); [lia |]. simpl.
    destruct (Hagg _ Hobs) as [q Hq]. exists q. now rewrite Hq.
Qed.

(** An exponentially weighted mean is present exactly from the row on
    which it has seen [min_periods] numbers. *)
Lemma ewm_present_iff (span minp : nat) (s : Series) (i : nat) :
  i < length s ->
  (exists q, nth_error (ewm_mean span minp s) i = Some (Fin q))
  <-> Nat.max minp 1 <= length (observations (firstn (S i) s)).
Proof.
  intros Hi. unfold ewm_mean.
  match goal with
  | |- context [ewm_loop ?m ?f ?nw ?st s] =>
      destruct (ewm_loop_nth m f nw s st i) as [H1 H2];
      [simpl; lia | assumption |]
  end.
  cbn [nobs] in H1, H2. split.
  - intros [q Hq].
    destruct (Nat.lt_ge_cases (length (observations (firstn (S i) s)))
                (Nat.max minp 1)) as [H | H]; [| assumption].
    rewrite H1 in Hq by lia. discriminate.
  - intros H. apply H2; lia.
Qed.

(** The relative strength index from row [period - 1] on: both rolling
    means are numbers, and the index is missing exactly when both are
    zero. *)
Lemma rsi_present_cases (s : Series) (p i : nat) :
  1 <= p -> finite_series s -> p - 1 <= i -> i < length s ->
  exists g l,
    nth_error (rsi_gain s p) i = Some (Fin g)
    /\ nth_error (rsi_loss s p) i = Some (Fin l)
    /\ (0 <= g)%Q /\ (0 <= l)%Q
    /\ ((0 < g \/ 0 < l)%Q ->
        exists q, nth_error (calculate_rsi s p) i = Some (Fin q))
    /\ ((g == 0)%Q -> (l == 0)%Q ->
        nth_error (calculate_rsi s p) i = Some NaN).
Proof.
  intros Hp Hs Hi Hlen.
  assert (Hagg : forall obs, length obs = p -> exists q, agg_mean obs = Fin q)
    by (intros obs _; now eexists).
  destruct (rolling_present p 0 agg_mean _ Hp Hagg (gains_finite s Hs) i)
    as [g Hg];
    [simpl; lia
    | unfold where_; now rewrite length_rolling, length_map, length_diff |].
  destruct (rolling_present p 0 agg_mean _ Hp Hagg (losses_finite s Hs) i)
    as [l Hl];
    [simpl; lia
    | unfold where_; now rewrite length_rolling, !length_map, length_diff |].
  fold (rsi_gain s p) in Hg. fold (rsi_loss s p) in Hl.
  exists g, l.
  assert (Hg0 : (0 <= g)%Q).
  { destruct (rsi_gain_nonneg s p i _ Hg) as [H | (g' & H & Hpos)];
      [discriminate | now inversion H]. }
  assert (Hl0 : (0 <= l)%Q).
  { destruct (rsi_loss_nonneg s p i _ Hl) as [H | (l' & H & Hpos)];
      [discriminate | now inversion H]. }
  split; [assumption |]. split; [assumption |].
  split; [assumption |]. split; [assumption |].
  rewrite (nth_error_calculate_rsi s p i _ _ Hg Hl).
  split.
  - intros Hpos.
    destruct (Qlt_le_dec 0 l) as [Hlpos | Hlz].
    + destruct (rsi_positive_loss g l Hg0 Hlpos) as (q & Hq & _).
      exists q. now rewrite Hq.
    + assert (Hlz' : (l == 0)%Q) by lra.
      destruct (rsi_zero_loss g l Hg0 Hlz') as [Hgain _].
      destruct Hgain as (_ & q & Hq & _); [lra |].
      exists q. now rewrite Hq.
  - intros Hgz Hlz.
    destruct (rsi_zero_loss g l Hg0 Hlz) as [_ Hflat].
    now rewrite (Hflat Hgz).
Qed.

(** [%K] from row [period - 1] on: the period high and low are numbers,
    and [%K] is a number exactly when they differ; when they are equal
    it is missing if the close equals them, and infinite otherwise. *)
Lemma stochastic_k_cases (high low close : Series) (p i : nat) :
  length high = length low -> length high = length close ->
  1 <= p -> finite_series high -> finite_series low ->
  finite_series close ->
  p - 1 <= i -> i < length close ->
  exists hh ll c,
    nth_error (rolling p agg_max high) i = Some (Fin hh)
    /\ nth_error (rolling p agg_min low) i = Some (Fin ll)
    /\ nth_error close i = Some (Fin c)
    /\ (~ (hh == ll)%Q ->
        exists q,
          nth_error (fst (calculate_stochastic high low close p)) i
          = Some (Fin q))
    /\ ((hh == ll)%Q -> (c == ll)%Q ->
        nth_error (fst (calculate_stochastic high low close p)) i
        = Some NaN)
    /\ ((hh == ll)%Q -> ~ (c == ll)%Q ->
        exists v,
          nth_error (fst (calculate_stochastic high low close p)) i = Some v
          /\ isinf v = true).
Proof.
  intros Hhl Hhc Hp Hh Hl Hc Hi Hlen.
  assert (Hmax : forall obs, length obs = p -> exists q, agg_max obs = Fin q).
  { intros [| x t] Ho; [simpl in Ho; lia | now eexists]. }
  assert (Hmin : forall obs, length obs = p -> exists q, agg_min obs = Fin q).
  { intros [| x t] Ho; [simpl in Ho; lia | now eexists]. }
  destruct (rolling_present p 0 agg_max high Hp Hmax Hh i) as [hh Hhh];
    [simpl; lia | rewrite length_rolling; lia |].
  destruct (rolling_present p 0 agg_min low Hp Hmin Hl i) as [ll Hll];
    [simpl; lia | rewrite length_rolling; lia |].
  destruct (Hc i ltac:(lia) Hlen) as [c Hci].
  exists hh, ll, c.
  split; [assumption |]. split; [assumption |]. split; [assumption |].
  unfold calculate_stochastic. cbn [fst].
  assert (Hnum : nth_error
                   (map (vmul (Fin 100))
                      (align vsub close (rolling p agg_min low))) i
                 = Some (vmul (Fin 100) (vsub (Fin c) (Fin ll))))
    by now rewrite nth_error_map, (nth_error_align vsub _ _ i _ _ Hci Hll).
  pose proof (nth_error_align vsub _ _ i _ _ Hhh Hll) as Hden.
  rewrite (nth_error_align vdiv _ _ i _ _ Hnum Hden).
  unfold vsub. cbn [vneg vadd vmul vdiv].
  destruct (Qeq_bool (hh + - ll) 0) eqn:E.
  - apply Qeq_bool_eq in E.
    split; [intros Hne; exfalso; apply Hne; lra |].
    unfold inf_times. split.
    + intros _ Hcl.
      assert (Hz : (100 * (c + - ll) == 0)%Q) by lra.
      apply Qeq_alt in Hz. now rewrite Hz.
    + intros _ Hcl.
      destruct (Qcompare (100 * (c + - ll)) 0) eqn:C.
      * apply Qeq_alt in C. exfalso. apply Hcl. lra.
      * now eexists.
      * now eexists.
  - apply Qeq_bool_neq in E.
    split; [intros _; now eexists |].
    split; intros Heq; exfalso; apply E; lra.
Qed.

(** With a window of one row the rolling standard deviation is missing
    everywhere, and so are both Bollinger bands. *)
Lemma bollinger_period_one (sqrt : Q -> Q) (series : Series) :
  leading_missing (length series)
    (fst (fst (calculate_bollinger_bands sqrt series 1)))
  /\ leading_missing (length series)
       (snd (calculate_bollinger_bands sqrt series 1)).
Proof.
  unfold calculate_bollinger_bands. cbn [fst snd].
  assert (Hstd : leading_missing (length series)
                   (map (fun x => vmul x (Fin 2))
                      (rolling 1 (agg_std sqrt) series))).
  { apply map_leading; [reflexivity |].
    intros i _ Hi. rewrite length_rolling in Hi.
    rewrite nth_error_rolling by assumption. cbv zeta.
    pose proof (observations_length (window 1 series i)) as Hle.
    rewrite (length_window 1 series i Hi) in Hle.
    destruct ((length (observations (window 1 series i)) <? 1)
              || (length (observations (window 1 series i)) =? 0));
      [reflexivity |].
    unfold agg_std.
    destruct (Nat.leb_spec (length (observations (window 1 series i))) 1);
      [reflexivity | lia]. }
  split.
  - apply align_leading_r; [apply vadd_nan_r | exact Hstd].
  - apply align_leading_r; [apply vsub_nan_r | exact Hstd].
Qed.


(** *** Average directional index *)

Lemma diff_present (s : Series) : finite_series s -> present_from 1 (diff s).
Proof.
  intros Hs j Hj Hlen. rewrite length_diff in Hlen.
  destruct (diff_entries s j Hs Hlen)
    as [[-> _] | (j' & a & b & _ & _ & _ & H)]; [lia |].
  exists (b + - a)%Q. exact H.
Qed.

Section AdxPresence.

Variables (high low close : Series) (period : nat).
Hypothesis Hhl : length high = length low.
Hypothesis Hhc : length high = length close.
Hypothesis Hp : 1 <= period.
Hypothesis Fh : finite_series high.
Hypothesis Fl : finite_series low.
Hypothesis Fc : finite_series close.

(** [calculate_adx] is the smoothed directional index. *)
Lemma calculate_adx_dx :
  calculate_adx high low close period
  = ewm_mean period period (directional_index high low close period).
Proof. reflexivity. Qed.

Lemma length_directional_index :
  length (directional_index high low close period) = length high.
Proof.
  rewrite <- (length_calculate_adx high low close period Hhl Hhc).
  rewrite calculate_adx_dx. now rewrite length_ewm_mean.
Qed.

(** A smoothed directional movement is a non-negative number from row
    [period] on. *)
Lemma smoothed_dm_value (dm : Series) (j : nat) :
  present_from 1 dm -> period <= j -> j < length dm ->
  exists a, nth_error (smoothed_dm dm period) j = Some (Fin a)
            /\ (0 <= a)%Q.
Proof.
  intros Hdm Hj Hlen. unfold smoothed_dm.
  assert (Hmask : present_from 1
                    (setmask (fun v => vlt v (Fin 0)) (Fin 0) dm)).
  { unfold setmask. apply map_present; [| assumption].
    intros q. destruct (vlt (Fin q) (Fin 0)); now eexists. }
  destruct (ewm_present period period 1 _ Hmask j) as [a Ha];
    [lia | rewrite length_ewm_mean; unfold setmask; now rewrite length_map |].
  exists a. split; [assumption |].
  destruct (ewm_mean_inv (fun q => (0 <= q)%Q) period period _ j (Fin a)
              nonneg_mean Hp (setmask_nonneg dm) Ha)
    as [H | (q & H & Hq)]; [discriminate | now inversion H].
Qed.

Lemma atr_value (j : nat) :
  period <= j -> j < length high ->
  exists t, nth_error (calculate_atr high low close period) j = Some (Fin t)
            /\ (0 <= t)%Q.
Proof.
  intros Hj Hlen.
  destruct (atr_present high low close period Hhl Hhc Hp Fh Fl Fc j Hj)
    as [t Ht];
    [now rewrite length_calculate_atr |].
  exists t. split; [assumption |].
  unfold calculate_atr in Ht.
  destruct (rolling_mean_nonneg _ _ _ _
              (fun q => true_range_nonneg _ _ _ q) Ht)
    as [H | (q & H & Hq)]; [discriminate | now inversion H].
Qed.

Lemma directional_indicator_at (dm : Series) (j : nat) (a t : num) :
  nth_error (smoothed_dm dm period) j = Some a ->
  nth_error (calculate_atr high low close period) j = Some t ->
  nth_error (directional_indicator dm high low close period) j
  = Some (vmul (Fin 100) (vdiv a t)).
Proof.
  intros Ha Ht. unfold directional_indicator.
  now rewrite nth_error_map, (nth_error_align vdiv _ _ j a t Ha Ht).
Qed.

Lemma directional_index_at (j : nat) (P M : num) :
  nth_error (directional_indicator (diff high) high low close period) j
  = Some P ->
  nth_error (directional_indicator (map vneg (diff low)) high low close
               period) j
  = Some M ->
  nth_error (directional_index high low close period) j
  = Some (vmul (Fin 100) (vabs (vdiv (vsub P M) (vadd P M)))).
Proof.
  intros HP HM. unfold directional_index. cbv zeta.
  rewrite nth_error_map.
  rewrite (nth_error_align vdiv _ _ j _ _
             (nth_error_align vsub _ _ j P M HP HM)
             (nth_error_align vadd _ _ j P M HP HM)).
  reflexivity.
Qed.

(** The directional index from row [period] on: the two smoothed
    movements and the average true range are non-negative numbers; when
    the average true range is positive both directional indicators are
    non-negative numbers and the index is a number unless both are zero;
    in every other case the index is missing. *)
Lemma directional_index_cases (j : nat) :
  period <= j -> j < length close ->
  exists a b t,
    nth_error (smoothed_dm (diff high) period) j = Some (Fin a)
    /\ nth_error (smoothed_dm (map vneg (diff low)) period) j = Some (Fin b)
    /\ nth_error (calculate_atr high low close period) j = Some (Fin t)
    /\ (0 <= a)%Q /\ (0 <= b)%Q /\ (0 <= t)%Q
    /\ ((0 < t)%Q ->
        exists P M,
          nth_error (directional_indicator (diff high) high low close
                       period) j = Some (Fin P)
          /\ nth_error (directional_indicator (map vneg (diff low))
                          high low close period) j = Some (Fin M)
          /\ (0 <= P)%Q /\ (0 <= M)%Q
          /\ ((0 < P + M)%Q ->
              exists q,
                nth_error (directional_index high low close period) j
                = Some (Fin q))
          /\ ((P + M == 0)%Q ->
              nth_error (directional_index high low close period) j
              = Some NaN))
    /\ ((t == 0)%Q ->
        nth_error (directional_index high low close period) j = Some NaN).
Proof.
  intros Hj Hlen.
  destruct (smoothed_dm_value (diff high) j (diff_present high Fh) Hj)
    as (a & Ha & Ha0); [rewrite length_diff; lia |].
  assert (Hminus : present_from 1 (map vneg (diff low))).
  { apply map_present; [intros q; now eexists | now apply diff_present]. }
  destruct (smoothed_dm_value (map vneg (diff low)) j Hminus Hj)
    as (b & Hb & Hb0); [rewrite length_map, length_diff; lia |].
  destruct (atr_value j Hj ltac:(lia)) as (t & Ht & Ht0).
  exists a, b, t.
  split; [assumption |]. split; [assumption |]. split; [assumption |].
  split; [assumption |]. split; [assumption |]. split; [assumption |].
  pose proof (directional_indicator_at _ j _ _ Ha Ht) as HP.
  pose proof (directional_indicator_at _ j _ _ Hb Ht) as HM.
  pose proof (directional_index_at j _ _ HP HM) as Hdx.
  rewrite HP, HM, Hdx. clear HP HM Hdx.
  cbn [vdiv]. split.
  - intros Htpos.
    destruct (Qeq_bool t 0) eqn:E; [apply Qeq_bool_eq in E; lra |].
    cbn [vmul]. eexists _, _.
    split; [reflexivity |]. split; [reflexivity |].
    assert (HP0 : (0 <= 100 * (a / t))%Q).
    { assert (0 <= a / t)%Q by (apply Qle_shift_div_l; lra). lra. }
    assert (HM0 : (0 <= 100 * (b / t))%Q).
    { assert (0 <= b / t)%Q by (apply Qle_shift_div_l; lra). lra. }
    split; [assumption |]. split; [assumption |].
    unfold vsub. cbn [vneg vadd vdiv].
    destruct (Qeq_bool (100 * (a / t) + 100 * (b / t)) 0) eqn:E'.
    + apply Qeq_bool_eq in E'. split; [intros H; lra |].
      intros _.
      assert (Hz : (100 * (a / t) + - (100 * (b / t)) == 0)%Q) by lra.
      apply Qeq_alt in Hz. unfold inf_times. now rewrite Hz.
    + apply Qeq_bool_neq in E'. split; [intros _; now eexists |].
      intros H. contradiction.
  - intros Htz. apply Qeq_bool_iff in Htz. rewrite Htz.
    unfold inf_times.
    destruct (Qcompare a 0), (Qcompare b 0); reflexivity.
Qed.

(** The average directional index is present exactly from the row on
    which [period] numbers of the directional index have been seen; in
    particular from row [2 * period - 1] on when the directional index
    is a number from row [period] on. *)
Lemma adx_present_iff (i : nat) :
  i < length close ->
  (exists q, nth_error (calculate_adx high low close period) i
             = Some (Fin q))
  <-> period
      <= length (observations
                   (firstn (S i) (directional_index high low close period))).
Proof.
  intros Hi. rewrite calculate_adx_dx.
  rewrite ewm_present_iff by (rewrite length_directional_index; lia).
  now replace (Nat.max period 1) with period by lia.
Qed.

Lemma adx_present :
  present_from period (directional_index high low close period) ->
  present_from (2 * period - 1) (calculate_adx high low close period).
Proof.
  intros Hdx. rewrite calculate_adx_dx.
  apply (present_weaken (period + (Nat.max period 1 - 1))); [lia |].
  now apply ewm_present.
Qed.

End AdxPresence.

End PresenceFacts.

(* ================================================================= *)
(** * Part III: the specification, claim by claim *)
(* ================================================================= *)

Import Model ModelFacts LabelFacts.
Import Sklearn Dataset DatasetFacts.
Import NumFacts Pandas PandasFacts Indicators RsiFacts IndicatorFacts.
Import PresenceFacts.
Import Examples.

(* ----------------------------------------------------------------- *)
(** ** Signal generator *)

(** C1 (the code departs from it).  The specification has every prediction
    computed from the 60-row window that starts at row [i], which is what
    the training path feeds the network.  The generator instead hands each
    row to the network as a sequence of one step ([generated_at] states
    this for every table and every network): on the 61-row table
    [ramp 61] and the network [sum_close] it returns for window 0 the
    network's output on row 0 alone, which is 1, whereas the network's
    output on the window of rows 0..59 is 1830. *)
Theorem generate_signals_batch_one_step_windows :
  generate_signals_batch sum_close (ramp 61) default_batch_size
    default_threshold_buy default_threshold_sell
  = Some ([SELL], [sum_close [values (row_of 1 [])]])
  /\ sum_close [values (row_of 1 [])] = Fin 1
  /\ sum_close (map values (firstn 60 (ramp 61))) = Fin 1830.
Proof.
  repeat split; vm_compute; reflexivity.
Qed.

(** C2.  For every emitted signal, at window start [i], with prediction [p]
    and realized close [c] at row [i + 60]: the signal is BUY when
    [p / c - 1 > 0.005], SELL when [p / c - 1 < -0.005], HOLD otherwise;
    so (110, 100) gives BUY, (90, 100) SELL and (100.1, 100) HOLD. *)
Theorem signal_decision_rule
    (encode : list (list num) -> num) (data : DataFrame)
    (sigs : list Signal) (preds : list num) (i : nat) (s : Signal) :
  generate_signals_batch encode data default_batch_size
    default_threshold_buy default_threshold_sell = Some (sigs, preds) ->
  nth_error sigs i = Some s ->
  (exists p r,
      nth_error preds i = Some p
      /\ nth_error data (i + 60) = Some r
      /\ let ratio := vsub (vdiv p (cell r Close)) (Fin 1) in
         (vgt ratio (Fin (5 # 1000)) = true -> s = BUY)
         /\ (vlt ratio (Fin (- 5 # 1000)) = true -> s = SELL)
         /\ (vgt ratio (Fin (5 # 1000)) = false ->
             vlt ratio (Fin (- 5 # 1000)) = false -> s = HOLD))
  /\ decide (Fin 110) (Fin 100)
       default_threshold_buy default_threshold_sell = BUY
  /\ decide (Fin 90) (Fin 100)
       default_threshold_buy default_threshold_sell = SELL
  /\ decide (Fin (1001 # 10)) (Fin 100)
       default_threshold_buy default_threshold_sell = HOLD.
Proof.
  intros Hgen Hs.
  split; [| repeat split; reflexivity].
  rewrite generate_signals_batch_closed in Hgen. inversion Hgen; subst.
  rewrite nth_error_map in Hs.
  destruct (nth_error (lagged data) i) as [[r0 r] |] eqn:E; [| discriminate].
  simpl in Hs. inversion Hs; subst s; clear Hs.
  destruct (nth_error_lagged_inv data i _ E) as [_ Hr]. simpl in Hr.
  exists (encode [values r0]), r.
  split; [now rewrite nth_error_map, E |].
  split; [assumption |].
  unfold signal_of, decide, predict_row. cbn [fst snd].
  unfold default_threshold_buy, default_threshold_sell.
  set (ratio := vsub (vdiv (encode [values r0]) (cell r Close)) (Fin 1)).
  cbv zeta. repeat split.
  - intros H. now rewrite H.
  - intros H.
    rewrite (vlt_not_vgt ratio (- 5 # 1000) (5 # 1000)) by (easy || exact H).
    now rewrite H.
  - intros H1 H2. now rewrite H1, H2.
Qed.

Lemma signal_decision_rule_witness :
  (exists p r,
      nth_error [Fin 1] 0 = Some p
      /\ nth_error (ramp 61) (0 + 60) = Some r
      /\ let ratio := vsub (vdiv p (cell r Close)) (Fin 1) in
         (vgt ratio (Fin (5 # 1000)) = true -> SELL = BUY)
         /\ (vlt ratio (Fin (- 5 # 1000)) = true -> SELL = SELL)
         /\ (vgt ratio (Fin (5 # 1000)) = false ->
             vlt ratio (Fin (- 5 # 1000)) = false -> SELL = HOLD))
  /\ decide (Fin 110) (Fin 100)
       default_threshold_buy default_threshold_sell = BUY
  /\ decide (Fin 90) (Fin 100)
       default_threshold_buy default_threshold_sell = SELL
  /\ decide (Fin (1001 # 10)) (Fin 100)
       default_threshold_buy default_threshold_sell = HOLD.
Proof.
  apply (signal_decision_rule sum_close (ramp 61) [SELL] [Fin 1] 0 SELL).
  - vm_compute. reflexivity.
  - reflexivity.
Defined.

(** C5.  On a table of at least 60 rows the assignment of the two new
    columns succeeds: [Signal] and [Prediction] have exactly one entry per
    input row, in the order of the rows, and on each of the first 60 rows
    the prediction is null and the signal is HOLD. *)
Theorem label_table_aligned
    (encode : list (list num) -> num) (data : DataFrame) :
  60 <= length data ->
  exists out,
    label_table encode data = Some out
    /\ length out = length data
    /\ map row out = data
    /\ forall k, k < 60 ->
         exists l, nth_error out k = Some l
                   /\ Signal_col l = HOLD
                   /\ Prediction_col l = None.
Proof.
  intros Hn.
  destruct (generate_signals_batch encode data default_batch_size
              default_threshold_buy default_threshold_sell)
    as [[sigs preds] |] eqn:Hgen;
    [| rewrite generate_signals_batch_closed in Hgen; discriminate].
  destruct (label_table_rows encode data sigs preds Hn Hgen)
    as (out & Hout & Hlen & Hrows & Hcols).
  exists out. repeat split; try assumption.
  intros k Hk.
  destruct (nth_error out k) as [l |] eqn:El;
    [| apply nth_error_None in El; lia].
  exists l. split; [reflexivity |].
  destruct (Hcols k l El) as [Hs Hp].
  rewrite nth_error_padded in Hs. rewrite nth_error_padded in Hp.
  destruct (Nat.ltb_spec k 60); [| lia].
  split; congruence.
Qed.

Lemma label_table_aligned_witness :
  exists out,
    label_table sum_close (ramp 61) = Some out
    /\ length out = length (ramp 61)
    /\ map row out = ramp 61
    /\ forall k, k < 60 ->
         exists l, nth_error out k = Some l
                   /\ Signal_col l = HOLD
                   /\ Prediction_col l = None.
Proof.
  apply (label_table_aligned sum_close (ramp 61)).
  simpl. lia.
Defined.

(** C6, as the specification states it, fails: on the 61-row table
    [ramp 61] the last row of the output, one of its last 60 rows, carries
    the prediction of window 0 and the signal SELL. *)
Lemma last_rows_carry_predictions :
  exists out l,
    label_table sum_close (ramp 61) = Some out
    /\ nth_error out (length (ramp 61) - 1) = Some l
    /\ Prediction_col l = Some (Fin 1)
    /\ Signal_col l = SELL.
Proof.
  destruct (label_table_rows sum_close (ramp 61) [SELL] [Fin 1]
              ltac:(simpl; lia) ltac:(vm_compute; reflexivity))
    as (out & Hout & Hlen & _ & Hcols).
  destruct (nth_error out (length (ramp 61) - 1)) as [l |] eqn:El;
    [| apply nth_error_None in El; rewrite Hlen in El; simpl in El; lia].
  exists out, l. split; [assumption |]. split; [assumption |].
  destruct (Hcols _ l El) as [Hs Hp].
  rewrite nth_error_padded in Hs. rewrite nth_error_padded in Hp.
  simpl in Hs, Hp.
  split; congruence.
Qed.

(** C6, amended.  A window start [i] with [i + 60] at or beyond the length
    of the table gets no signal and no prediction.  The entries that are
    emitted are stored behind 60 padding entries, so row [k >= 60] of the
    output, up to and including the last row, carries the signal and the
    prediction of window [k - 60]; the rows without a prediction are the
    first 60 (C5), not the last 60. *)
Theorem trailing_windows_skipped
    (encode : list (list num) -> num) (data : DataFrame) :
  60 <= length data ->
  exists sigs preds out,
    generate_signals_batch encode data default_batch_size
      default_threshold_buy default_threshold_sell = Some (sigs, preds)
    /\ (forall i, length data <= i + 60 ->
          nth_error sigs i = None /\ nth_error preds i = None)
    /\ label_table encode data = Some out
    /\ length out = length data
    /\ forall k l, 60 <= k -> nth_error out k = Some l ->
         nth_error sigs (k - 60) = Some (Signal_col l)
         /\ exists p, Prediction_col l = Some p
                      /\ nth_error preds (k - 60) = Some p.
Proof.
  intros Hn.
  destruct (generate_signals_batch encode data default_batch_size
              default_threshold_buy default_threshold_sell)
    as [[sigs preds] |] eqn:Hgen;
    [| rewrite generate_signals_batch_closed in Hgen; discriminate].
  destruct (generated_lengths encode data _ sigs preds Hgen) as [Hls Hlp].
  destruct (label_table_rows encode data sigs preds Hn Hgen)
    as (out & Hout & Hlen & _ & Hcols).
  exists sigs, preds, out.
  split; [reflexivity |].
  split; [intros i Hi; split; apply nth_error_None; lia |].
  split; [assumption |]. split; [assumption |].
  intros k l Hk Hl.
  destruct (Hcols k l Hl) as [Hs Hp].
  rewrite nth_error_padded in Hs. rewrite nth_error_padded in Hp.
  destruct (Nat.ltb_spec k 60); [lia |].
  split; [assumption |].
  rewrite nth_error_map in Hp.
  destruct (nth_error preds (k - 60)) as [p |]; [| discriminate].
  exists p. simpl in Hp. split; congruence.
Qed.

Lemma trailing_windows_skipped_witness :
  exists sigs preds out,
    generate_signals_batch sum_close (ramp 61) default_batch_size
      default_threshold_buy default_threshold_sell = Some (sigs, preds)
    /\ (forall i, length (ramp 61) <= i + 60 ->
          nth_error sigs i = None /\ nth_error preds i = None)
    /\ label_table sum_close (ramp 61) = Some out
    /\ length out = length (ramp 61)
    /\ forall k l, 60 <= k -> nth_error out k = Some l ->
         nth_error sigs (k - 60) = Some (Signal_col l)
         /\ exists p, Prediction_col l = Some p
                      /\ nth_error preds (k - 60) = Some p.
Proof.
  apply (trailing_windows_skipped sum_close (ramp 61)).
  simpl. lia.
Defined.

(* ----------------------------------------------------------------- *)
(** ** Windowing dataset *)

(** C3, as the specification states it, fails: [dropna] looks at every
    column.  The 61 rows of [gap_table] all have their twelve features,
    but the first has an empty cell in another column and is dropped, so
    the length is 60 - 60 = 0 and not 61 - 60 = 1. *)
Lemma length_counts_every_column :
  exists ds,
    init gap_table default_seq_len = Some ds
    /\ len ds = 0%Z
    /\ (Z.of_nat (length (filter features_complete gap_table)) - 60 = 1)%Z.
Proof.
  eexists. split; [reflexivity |]. split; vm_compute; reflexivity.
Qed.

(** C3, amended.  For a dataset built from a table: [length()] is the
    number of rows that have no missing cell in any column (feature or
    not), minus 60; for every [i] with [0 <= i < length()], [sample(i)]
    returns the 60-by-12 feature matrix of the retained rows [i .. i+59]
    with the [Close] of retained row [i + 60] as target; and
    [sample(length())] fails, so [sample(length() - 1)] is the last valid
    window. *)
Theorem trade_dataset_windows (df : DataFrame) (ds : TradeDataset) :
  init df default_seq_len = Some ds ->
  len ds = (Z.of_nat (length (dropna df)) - 60)%Z
  /\ (forall i, (0 <= i < len ds)%Z ->
        exists x y r,
          getitem ds i = Some (x, y)
          /\ x = map values (firstn 60 (skipn (Z.to_nat i) (data ds)))
          /\ length x = 60
          /\ (forall v, In v x -> length v = 12)
          /\ nth_error (data ds) (Z.to_nat i + 60) = Some r
          /\ y = cell r Close)
  /\ getitem ds (len ds) = None.
Proof.
  intros Hinit.
  pose proof (init_length df _ ds Hinit) as Hlen.
  assert (Hsl : seq_len ds = 60%Z).
  { apply init_spec in Hinit. destruct Hinit as [_ ->]. reflexivity. }
  split; [unfold len; rewrite Hsl, Hlen; reflexivity |].
  split.
  - intros i Hi.
    destruct (getitem_in_range ds i Hsl Hi) as (r & Hr & Hget & Hx).
    eexists _, _, r. split; [exact Hget |]. split; [reflexivity |].
    split; [now rewrite length_map |].
    split; [| split; [assumption | reflexivity]].
    intros v Hv. apply in_map_iff in Hv. destruct Hv as (r0 & <- & _).
    apply length_values.
  - apply getitem_past_end. unfold len. lia.
Qed.

Lemma trade_dataset_windows_witness :
  len ramp_dataset = (Z.of_nat (length (dropna (ramp 61))) - 60)%Z
  /\ (forall i, (0 <= i < len ramp_dataset)%Z ->
        exists x y r,
          getitem ramp_dataset i = Some (x, y)
          /\ x = map values
                   (firstn 60 (skipn (Z.to_nat i) (data ramp_dataset)))
          /\ length x = 60
          /\ (forall v, In v x -> length v = 12)
          /\ nth_error (data ramp_dataset) (Z.to_nat i + 60) = Some r
          /\ y = cell r Close)
  /\ getitem ramp_dataset (len ramp_dataset) = None.
Proof.
  apply (trade_dataset_windows (ramp 61) ramp_dataset).
  reflexivity.
Defined.

Lemma index_None_iff {A} (l : list A) (i : Z) :
  Py.index l i = None
  <-> (i < - Z.of_nat (length l) \/ Z.of_nat (length l) <= i)%Z.
Proof.
  unfold Py.index.
  destruct (Z.leb_spec 0 i) as [Hi | Hi].
  - rewrite nth_error_None. lia.
  - destruct (Z.leb_spec (- Z.of_nat (length l)) i) as [Hn | Hn].
    + rewrite nth_error_None. lia.
    + split; [lia | reflexivity].
Qed.

Lemma index_negative {A} (l : list A) (i : Z) :
  (- Z.of_nat (length l) <= i < 0)%Z ->
  Py.index l i = nth_error l (Z.to_nat (Z.of_nat (length l) + i)).
Proof.
  intros H. unfold Py.index.
  destruct (Z.leb_spec 0 i); [lia |].
  destruct (Z.leb_spec (- Z.of_nat (length l)) i); [reflexivity | lia].
Qed.

(** C10, as stated, fails: nothing in [__getitem__] checks the bounds of
    the window.  On the 61 rows of [ramp_dataset], [sample(-100)] is not
    rejected although row [-100 + 60] lies before the table: the index
    is counted from the end and the slice is clipped, so the result is a
    window of 21 rows paired with the [Close] of row 21; and
    [sample(-1)] is an empty window paired with the [Close] of row 59. *)
Lemma sample_wraps_negative_index :
  option_map (fun p => length (fst p)) (getitem ramp_dataset (-100))
  = Some 21
  /\ option_map snd (getitem ramp_dataset (-100))
     = option_map (fun r => cell r Close) (nth_error (data ramp_dataset) 21)
  /\ option_map fst (getitem ramp_dataset (-1)) = Some []
  /\ option_map snd (getitem ramp_dataset (-1))
     = option_map (fun r => cell r Close) (nth_error (data ramp_dataset) 59).
Proof.
  repeat split; vm_compute; reflexivity.
Qed.

(** C10, amended.  [sample(i)] has no bounds check of its own: it fails
    exactly when the scalar access [data.iloc[i + 60]] raises, that is
    when [i + 60] reaches or exceeds the number [n] of rows, or lies
    below [-n].  Every other index returns a pair, also a negative one:
    the row of the target is then counted from the end where [i + 60] is
    negative, and the slice is clipped silently, so that the window has
    at most 60 rows, and fewer than 60 for [i < -n] and for
    [-60 <= i]. *)
Theorem sample_bounds (df : DataFrame) (ds : TradeDataset) (i : Z) :
  init df default_seq_len = Some ds ->
  let n := Z.of_nat (length (data ds)) in
  ((n <= i + 60)%Z -> getitem ds i = None)
  /\ ((i + 60 < - n)%Z -> getitem ds i = None)
  /\ ((- n <= i + 60 < n)%Z ->
      exists x r,
        getitem ds i = Some (x, cell r Close)
        /\ nth_error (data ds)
             (Z.to_nat (if (0 <=? i + 60)%Z then i + 60 else n + (i + 60)))
           = Some r
        /\ ((i < 0)%Z ->
            length x <= 60
            /\ ((i < - n \/ -60 <= i)%Z -> length x < 60))).
Proof.
  intros Hinit n.
  assert (Hsl : seq_len ds = 60%Z).
  { apply init_spec in Hinit. destruct Hinit as [_ ->]. reflexivity. }
  split; [| split].
  - intros Hi. apply getitem_past_end. rewrite Hsl. exact Hi.
  - intros Hi. unfold getitem, iloc. rewrite Hsl.
    rewrite (proj2 (index_None_iff (data ds) (i + 60)));
      [reflexivity | left; exact Hi].
  - intros Hi. unfold getitem, iloc, iloc_slice. rewrite Hsl.
    assert (Hrow : Py.index (data ds) (i + 60)
                   = nth_error (data ds)
                       (Z.to_nat (if (0 <=? i + 60)%Z then i + 60
                                  else n + (i + 60)))).
    { destruct (Z.leb_spec 0 (i + 60)) as [H0 | H0].
      - unfold Py.index. destruct (Z.leb_spec 0 (i + 60)); [reflexivity | lia].
      - apply index_negative. fold n. lia. }
    rewrite Hrow.
    destruct (nth_error (data ds)
                (Z.to_nat (if (0 <=? i + 60)%Z then i + 60
                           else n + (i + 60)))) as [r |] eqn:E.
    + eexists _, r. split; [reflexivity |]. split; [reflexivity |].
      intros Hneg. rewrite length_map. unfold Py.slice, Py.clip. fold n.
      rewrite length_firstn, length_skipn.
      destruct (Z.ltb_spec i 0); [| lia].
      destruct (Z.ltb_spec (i + 60) 0); split; lia.
    + apply nth_error_None in E.
      destruct (Z.leb_spec 0 (i + 60)); lia.
Qed.

Lemma sample_bounds_witness :
  ((Z.of_nat (length (data ramp_dataset)) <= -100 + 60)%Z ->
   getitem ramp_dataset (-100) = None)
  /\ ((-100 + 60 < - Z.of_nat (length (data ramp_dataset)))%Z ->
      getitem ramp_dataset (-100) = None)
  /\ ((- Z.of_nat (length (data ramp_dataset)) <= -100 + 60
       < Z.of_nat (length (data ramp_dataset)))%Z ->
      exists x r,
        getitem ramp_dataset (-100) = Some (x, cell r Close)
        /\ nth_error (data ramp_dataset)
             (Z.to_nat (if (0 <=? -100 + 60)%Z then -100 + 60
                        else Z.of_nat (length (data ramp_dataset))
                             + (-100 + 60)))
           = Some r
        /\ ((-100 < 0)%Z ->
            length x <= 60
            /\ ((-100 < - Z.of_nat (length (data ramp_dataset))
                 \/ -60 <= -100)%Z -> length x < 60))).
Proof.
  apply (sample_bounds (ramp 61) ramp_dataset (-100)).
  reflexivity.
Defined.

(** C4, as stated, fails on a constant column: the two retained rows of
    [flat_table] agree in every feature, the second fit maps every cell to
    0, and no cell of the [Close] column is 1. *)
Lemma constant_column_stays_zero :
  exists ds,
    init flat_table default_seq_len = Some ds
    /\ length (data ds) = 2
    /\ forall r, In r (data ds) ->
         veqb (cell r Close) (Fin 0) = true
         /\ veqb (cell r Close) (Fin 1) = false.
Proof.
  eexists. split; [reflexivity |]. split; [reflexivity |].
  intros r [<- | [<- | []]]; split; vm_compute; reflexivity.
Qed.

(** C4, amended.  The constructor fits a second scaler on the rows that
    [dropna] retains and re-transforms every feature column: with [m] and
    [M] the minimum and maximum of the incoming (once-scaled) column over
    the retained rows, a retained cell [x] is stored as
    [x * scale_ + min_], where [scale_ = 1 / (M - m)] ([1 / 1] when
    [M - m] is below [10 * eps]) and [min_ = 0 - m * scale_].  The stored
    values are never negative and keep the order of the incoming ones;
    the minimum is stored as 0 and the maximum as the largest value of
    the column (the value of [M * scale_ + min_], which is 1 up to the
    rounding of these operations).  When the column is not (nearly)
    constant, a stored value differs from the once-scaled value of the
    same row, which is what [generate_signals_batch] reads, unless the
    retained rows already had minimum 0 and maximum 1.  A (nearly)
    constant column is only shifted by [m]: it stays below [10 * eps]
    and does not attain 1. *)
Theorem second_scaling (df : DataFrame) (ds : TradeDataset) (f : Feature) :
  init df default_seq_len = Some ds ->
  exists m M : Q,
    (forall k r, nth_error (dropna df) k = Some r ->
       exists x t r',
         cell r f = Fin x /\ (m <= x <= M)%Q
         /\ nth_error (data ds) k = Some r'
         /\ cell r' f
            = transform (mkFitted (scale_of m M) (min_of m M)) (Fin x)
         /\ cell r' f = Fin t /\ (0 <= t)%Q)
    /\ (forall k1 k2 r1 r2 x1 x2,
          nth_error (dropna df) k1 = Some r1 ->
          nth_error (dropna df) k2 = Some r2 ->
          cell r1 f = Fin x1 -> cell r2 f = Fin x2 -> (x1 <= x2)%Q ->
          exists r1' r2' t1 t2,
            nth_error (data ds) k1 = Some r1'
            /\ nth_error (data ds) k2 = Some r2'
            /\ cell r1' f = Fin t1 /\ cell r2' f = Fin t2
            /\ (t1 <= t2)%Q)
    /\ (exists k r r',
          nth_error (dropna df) k = Some r /\ cell r f = Fin m
          /\ nth_error (data ds) k = Some r'
          /\ veq (cell r' f) (Fin 0))
    /\ (exists k r r',
          nth_error (dropna df) k = Some r /\ cell r f = Fin M
          /\ nth_error (data ds) k = Some r'
          /\ forall r'', In r'' (data ds) ->
               vlt (cell r' f) (cell r'' f) = false)
    /\ ((10 * eps <= M - m)%Q ->
        ~ ((m == 0)%Q /\ (M == 1)%Q) ->
        exists k r r',
          nth_error (dropna df) k = Some r
          /\ nth_error (data ds) k = Some r'
          /\ ~ veq (cell r' f) (cell r f))
    /\ ((M - m < 10 * eps)%Q ->
        forall r', In r' (data ds) ->
          exists t, cell r' f = Fin t /\ (0 <= t < 10 * eps)%Q).
Proof.
  intros Hinit.
  destruct (second_fit_scaler df _ ds f Hinit)
    as (m & M & (rm & Hrm & Hcm) & (rM & HrM & HcM) & Hall).
  exists m, M.
  split; [| split; [| split; [| split; [| split]]]].
  - intros k r Hk.
    destruct (Hall r (nth_error_In _ _ Hk))
      as (x & t & Hx & Hb & Hform & Ht & Heq).
    exists x, t, (rescale (dropna df) r).
    split; [assumption |]. split; [assumption |].
    split; [eapply rescaled_row; eauto |].
    split; [assumption |]. split; [assumption |].
    eapply scaled_nonneg; [exact Heq | tauto].
  - intros k1 k2 r1 r2 x1 x2 Hk1 Hk2 Hx1 Hx2 Hle.
    destruct (Hall r1 (nth_error_In _ _ Hk1))
      as (y1 & t1 & Hy1 & _ & _ & Ht1 & Heq1).
    destruct (Hall r2 (nth_error_In _ _ Hk2))
      as (y2 & t2 & Hy2 & _ & _ & Ht2 & Heq2).
    assert (y1 = x1) by congruence. assert (y2 = x2) by congruence.
    subst y1 y2.
    exists (rescale (dropna df) r1), (rescale (dropna df) r2), t1, t2.
    split; [eapply rescaled_row; eauto |].
    split; [eapply rescaled_row; eauto |].
    split; [assumption |]. split; [assumption |].
    eapply scaled_order; eassumption.
  - pose proof (In_nth_error _ _ Hrm) as [k Hk].
    destruct (Hall rm Hrm) as (x & t & Hx & _ & _ & Ht & Heq).
    exists k, rm, (rescale (dropna df) rm).
    split; [assumption |]. split; [assumption |].
    split; [eapply rescaled_row; eauto |].
    rewrite Ht. cbn [veq].
    eapply scaled_minimum; [exact Heq |].
    assert (x = m) by congruence. subst x. reflexivity.
  - pose proof (In_nth_error _ _ HrM) as [k Hk].
    destruct (Hall rM HrM) as (x & t & Hx & _ & _ & Ht & Heq).
    assert (x = M) by congruence. subst x.
    exists k, rM, (rescale (dropna df) rM).
    split; [assumption |]. split; [assumption |].
    split; [eapply rescaled_row; eauto |].
    intros r'' Hr''.
    destruct (stored_row df _ ds r'' Hinit Hr'') as (r & Hr & ->).
    destruct (Hall r Hr) as (y & u & Hy & Hb & _ & Hu & Hequ).
    rewrite Ht, Hu. cbn [vlt]. apply Qltb_ge.
    eapply scaled_order; [exact Hequ | exact Heq | tauto].
  - intros Hw Hne.
    pose proof (effective_range_wide m M Hw) as He.
    assert (Hpos : (0 < M - m)%Q).
    { eapply Qlt_le_trans; [| exact Hw]. reflexivity. }
    destruct (Qeq_dec m 0) as [Hm0 | Hm0].
    + (* the minimum is 0, so the maximum is not 1: the row holding the
         maximum moves to 1 *)
      pose proof (In_nth_error _ _ HrM) as [k Hk].
      destruct (Hall rM HrM) as (x & t & Hx & _ & _ & Ht & Heq).
      exists k, rM, (rescale (dropna df) rM).
      split; [assumption |]. split; [eapply rescaled_row; eauto |].
      rewrite Ht, HcM. simpl. intros Habs.
      assert (x = M) by congruence. subst x.
      apply Hne. split; [assumption |].
      rewrite <- Habs, Heq, He. field. lra.
    + (* the minimum is not 0: the row holding it moves to 0 *)
      pose proof (In_nth_error _ _ Hrm) as [k Hk].
      destruct (Hall rm Hrm) as (x & t & Hx & _ & _ & Ht & Heq).
      exists k, rm, (rescale (dropna df) rm).
      split; [assumption |]. split; [eapply rescaled_row; eauto |].
      rewrite Ht, Hcm. simpl. intros Habs.
      assert (x = m) by congruence. subst x.
      apply Hm0. rewrite <- Habs, Heq, He. field. lra.
  - intros Hn r' Hr'.
    destruct (stored_row df _ ds r' Hinit Hr') as (r & Hr & ->).
    destruct (Hall r Hr) as (x & t & Hx & Hb & _ & Ht & Heq).
    exists t. split; [assumption |]. eapply narrow_interval; eauto.
Qed.

Lemma second_scaling_witness :
  exists m M : Q,
    (forall k r, nth_error (dropna scaled_once) k = Some r ->
       exists x t r',
         cell r Close = Fin x /\ (m <= x <= M)%Q
         /\ nth_error (data scaled_twice) k = Some r'
         /\ cell r' Close
            = transform (mkFitted (scale_of m M) (min_of m M)) (Fin x)
         /\ cell r' Close = Fin t /\ (0 <= t)%Q)
    /\ (forall k1 k2 r1 r2 x1 x2,
          nth_error (dropna scaled_once) k1 = Some r1 ->
          nth_error (dropna scaled_once) k2 = Some r2 ->
          cell r1 Close = Fin x1 -> cell r2 Close = Fin x2 ->
          (x1 <= x2)%Q ->
          exists r1' r2' t1 t2,
            nth_error (data scaled_twice) k1 = Some r1'
            /\ nth_error (data scaled_twice) k2 = Some r2'
            /\ cell r1' Close = Fin t1 /\ cell r2' Close = Fin t2
            /\ (t1 <= t2)%Q)
    /\ (exists k r r',
          nth_error (dropna scaled_once) k = Some r /\ cell r Close = Fin m
          /\ nth_error (data scaled_twice) k = Some r'
          /\ veq (cell r' Close) (Fin 0))
    /\ (exists k r r',
          nth_error (dropna scaled_once) k = Some r /\ cell r Close = Fin M
          /\ nth_error (data scaled_twice) k = Some r'
          /\ forall r'', In r'' (data scaled_twice) ->
               vlt (cell r' Close) (cell r'' Close) = false)
    /\ ((10 * eps <= M - m)%Q ->
        ~ ((m == 0)%Q /\ (M == 1)%Q) ->
        exists k r r',
          nth_error (dropna scaled_once) k = Some r
          /\ nth_error (data scaled_twice) k = Some r'
          /\ ~ veq (cell r' Close) (cell r Close))
    /\ ((M - m < 10 * eps)%Q ->
        forall r', In r' (data scaled_twice) ->
          exists t, cell r' Close = Fin t /\ (0 <= t < 10 * eps)%Q).
Proof.
  apply (second_scaling scaled_once scaled_twice Close).
  reflexivity.
Defined.

(** The second fit at work on [scaled_once]: the row whose [Close] was
    scaled to 1/2 by the first fit is stored with [Close] 1, because the
    row that held the maximum has been dropped. *)
Lemma second_scaling_moves_values :
  exists r r',
    nth_error (dropna scaled_once) 1 = Some r
    /\ nth_error (data scaled_twice) 1 = Some r'
    /\ veqb (cell r Close) (Fin (1 # 2)) = true
    /\ veqb (cell r' Close) (Fin 1) = true.
Proof.
  eexists _, _. repeat split; vm_compute; reflexivity.
Qed.

(* ----------------------------------------------------------------- *)
(** ** Indicators *)

(** C9.  At every index where the output of [calculate_rsi] is not missing
    (and the input entries of its window are finite) the value lies in
    [0, 100]. *)
Theorem rsi_bounded (series : Series) (period i : nat) (v : num) :
  nth_error (calculate_rsi series period) i = Some v ->
  isnan v = false ->
  all_finite (window (S period) series i) = true ->
  exists q, v = Fin q /\ (0 <= q <= 100)%Q.
Proof.
  intros Hv Hnan _.
  destruct (rsi_range series period i v Hv) as [-> | H];
    [discriminate | exact H].
Qed.

Lemma rsi_bounded_witness :
  exists q, nth 13 (calculate_rsi (closes 16) 14) NaN = Fin q
            /\ (0 <= q <= 100)%Q.
Proof.
  apply (rsi_bounded (closes 16) 14 13).
  - vm_compute. reflexivity.
  - vm_compute. reflexivity.
  - vm_compute. reflexivity.
Defined.




(** C7, as stated, fails for the average true range: with [period = 14]
    the entry at index 13 = [period - 1] is still missing, because the
    true range of the first row is itself missing. *)
Lemma atr_warm_up_is_period :
  length (calculate_atr (highs 15) (lows 15) (closes 15) 14) = 15
  /\ nth_error (calculate_atr (highs 15) (lows 15) (closes 15) 14) (14 - 1)
     = Some NaN
  /\ ~ present_from (14 - 1)
         (calculate_atr (highs 15) (lows 15) (closes 15) 14).
Proof.
  split; [vm_compute; reflexivity |].
  split; [vm_compute; reflexivity |].
  intros H. destruct (H 13 ltac:(simpl; lia) ltac:(vm_compute; lia)) as [q Hq].
  vm_compute in Hq. discriminate.
Qed.

(** C7, amended.  On finite input columns of [n] rows, with periods of
    at least 1, every indicator returns columns of [n] rows, and its
    leading entries are missing as follows: RSI the first [period - 1];
    the MACD line the first [max fast slow - 1] and its signal line
    [signal - 1] more; [%K] the first [period - 1] and [%D] two more; OBV
    none; the Bollinger bands and their moving average the first
    [period - 1]; ATR the first [period] (one more than [period - 1]);
    ADX the first [2 * period - 1].  For the MACD lines, OBV, the moving
    average, ATR, and the Bollinger bands of a period of at least 2,
    these are all the missing entries (with period 1 the standard
    deviation is undefined and both bands are missing on every row).
    The four indicators that divide are present after their warm-up
    wherever the divisor is not zero: RSI is missing only where both
    rolling means are zero; [%K] is a number exactly where the period
    high and low differ (missing, or infinite, where they are equal);
    [%D] is a number exactly where the last three [%K] are; the
    directional index is a number from row [period] on wherever the
    average true range and the sum of the two directional indicators are
    positive, and missing otherwise; and ADX is a number exactly from
    the row on which [period] numbers of the directional index have been
    seen, so from row [2 * period - 1] on when the directional index is
    a number from row [period] on. *)
Theorem indicator_warm_up
    (sqrt : Q -> Q) (close high low volume : Series)
    (period fast slow signal bands : nat) :
  length high = length close ->
  length low = length close ->
  length volume = length close ->
  all_finite close = true ->
  all_finite high = true ->
  all_finite low = true ->
  all_finite volume = true ->
  1 <= period -> 1 <= fast -> 1 <= slow -> 1 <= signal -> 1 <= bands ->
  let n := length close in
  (length (calculate_rsi close period) = n
   /\ leading_missing (period - 1) (calculate_rsi close period)
   /\ forall i, period - 1 <= i -> i < n ->
        exists g l,
          nth_error (rsi_gain close period) i = Some (Fin g)
          /\ nth_error (rsi_loss close period) i = Some (Fin l)
          /\ (0 <= g)%Q /\ (0 <= l)%Q
          /\ ((0 < g \/ 0 < l)%Q ->
              exists q,
                nth_error (calculate_rsi close period) i = Some (Fin q))
          /\ ((g == 0)%Q -> (l == 0)%Q ->
              nth_error (calculate_rsi close period) i = Some NaN))
  /\ (let '(macd, sig, hist) := calculate_macd close fast slow signal in
      (length macd = n /\ length sig = n /\ length hist = n)
      /\ leading_missing (Nat.max fast slow - 1) macd
      /\ present_from (Nat.max fast slow - 1) macd
      /\ leading_missing (Nat.max fast slow - 1 + (signal - 1)) sig
      /\ present_from (Nat.max fast slow - 1 + (signal - 1)) sig)
  /\ (let '(k, d) := calculate_stochastic high low close period in
      (length k = n /\ length d = n)
      /\ leading_missing (period - 1) k
      /\ leading_missing (period - 1 + 2) d
      /\ (forall i, period - 1 <= i -> i < n ->
            exists hh ll c,
              nth_error (rolling period agg_max high) i = Some (Fin hh)
              /\ nth_error (rolling period agg_min low) i = Some (Fin ll)
              /\ nth_error close i = Some (Fin c)
              /\ (~ (hh == ll)%Q ->
                  exists q, nth_error k i = Some (Fin q))
              /\ ((hh == ll)%Q -> (c == ll)%Q ->
                  nth_error k i = Some NaN)
              /\ ((hh == ll)%Q -> ~ (c == ll)%Q ->
                  exists v, nth_error k i = Some v /\ isinf v = true))
      /\ (forall i, 2 <= i -> i < n ->
            (exists q, nth_error d i = Some (Fin q))
            <-> (forall j, i - 2 <= j -> j <= i ->
                   exists q, nth_error k j = Some (Fin q))))
  /\ (exists obv,
        calculate_obv close volume = Some obv
        /\ length obv = n
        /\ present_from 0 obv)
  /\ (let '(upper, sma, lower) :=
        calculate_bollinger_bands sqrt close bands in
      (length upper = n /\ length sma = n /\ length lower = n)
      /\ (leading_missing (bands - 1) upper
          /\ leading_missing (bands - 1) sma
          /\ leading_missing (bands - 1) lower)
      /\ present_from (bands - 1) sma
      /\ (2 <= bands ->
          present_from (bands - 1) upper
          /\ present_from (bands - 1) lower)
      /\ (bands = 1 ->
          leading_missing n upper /\ leading_missing n lower))
  /\ (length (calculate_atr high low close period) = n
      /\ leading_missing period (calculate_atr high low close period)
      /\ present_from period (calculate_atr high low close period))
  /\ (length (calculate_adx high low close period) = n
      /\ leading_missing (2 * period - 1)
           (calculate_adx high low close period)
      /\ (forall j, period <= j -> j < n ->
            exists a b t,
              nth_error (smoothed_dm (diff high) period) j = Some (Fin a)
              /\ nth_error (smoothed_dm (map vneg (diff low)) period) j
                 = Some (Fin b)
              /\ nth_error (calculate_atr high low close period) j
                 = Some (Fin t)
              /\ (0 <= a)%Q /\ (0 <= b)%Q /\ (0 <= t)%Q
              /\ ((0 < t)%Q ->
                  exists P M,
                    nth_error (directional_indicator (diff high)
                                 high low close period) j
                    = Some (Fin P)
                    /\ nth_error (directional_indicator
                                    (map vneg (diff low))
                                    high low close period) j
                       = Some (Fin M)
                    /\ (0 <= P)%Q /\ (0 <= M)%Q
                    /\ ((0 < P + M)%Q ->
                        exists q,
                          nth_error (directional_index high low close
                                       period) j
                          = Some (Fin q))
                    /\ ((P + M == 0)%Q ->
                        nth_error (directional_index high low close
                                     period) j
                        = Some NaN))
              /\ ((t == 0)%Q ->
                  nth_error (directional_index high low close period) j
                  = Some NaN))
      /\ (forall i, i < n ->
            (exists q,
               nth_error (calculate_adx high low close period) i
               = Some (Fin q))
            <-> period
                <= length
                     (observations
                        (firstn (S i)
                           (directional_index high low close period))))
      /\ (present_from period (directional_index high low close period) ->
          present_from (2 * period - 1)
            (calculate_adx high low close period))).
Proof.
  intros Hh Hl Hv Fc Fh Fl Fv Hp Hfast Hslow Hsig Hb n.
  apply all_finite_series in Fc, Fh, Fl, Fv.
  assert (Hhl : length high = length low) by congruence.
  assert (Hhc : length high = length close) by congruence.
  split; [| split; [| split; [| split; [| split; [| split]]]]].
  - split; [apply length_calculate_rsi |].
    split; [apply rsi_leading |].
    intros i Hi Hlen. now apply rsi_present_cases.
  - pose proof (length_calculate_macd close fast slow signal
                  Hfast Hslow Hsig) as Hlen.
    pose proof (macd_warm_up close fast slow signal Hfast Hslow Hsig) as Hw.
    destruct (calculate_macd close fast slow signal) as [[macd sig] hist].
    cbv beta iota zeta in Hw, Hlen |- *.
    destruct Hw as (Hw1 & Hw2 & Hw3). destruct (Hw3 Fc) as [Hw4 Hw5].
    repeat split; try assumption; try apply Hlen.
  - pose proof (length_calculate_stochastic high low close period Hhl Hh)
      as Hlen.
    pose proof (stochastic_warm_up high low close period) as Hw.
    pose proof (fun i Hi Hin =>
                  stochastic_k_cases high low close period i
                    Hhl Hhc Hp Fh Fl Fc Hi Hin) as Hk.
    assert (Hd : forall i, 2 <= i -> i < n ->
               (exists q,
                  nth_error (snd (calculate_stochastic high low close
                                    period)) i = Some (Fin q))
               <-> (forall j, i - 2 <= j -> j <= i ->
                      exists q,
                        nth_error (fst (calculate_stochastic high low close
                                          period)) j = Some (Fin q))).
    { intros i Hi Hin.
      unfold calculate_stochastic. cbn [fst snd].
      rewrite rolling_present_iff;
        [| lia | simpl; lia
         | rewrite !length_align, length_map, !length_align,
             !length_rolling; unfold n in Hin; lia
         | intros obs _; now eexists].
      split; intros H j Hj1 Hj2; apply H; lia. }
    destruct (calculate_stochastic high low close period) as [k d].
    cbv beta iota zeta in Hw, Hlen |- *. cbn [fst snd] in Hk, Hd.
    destruct Hw as [Hw1 Hw2]. destruct Hlen as [Hl1 Hl2].
    split; [split; unfold n; congruence |].
    split; [assumption |]. split; [assumption |].
    split; [exact Hk | exact Hd].
  - destruct (obv_present close volume (eq_sym Hv) Fv) as (obv & H1 & H2 & H3).
    exists obv. repeat split; assumption.
  - pose proof (length_calculate_bollinger_bands sqrt close bands) as Hlen.
    pose proof (bollinger_warm_up sqrt close bands) as Hw.
    assert (Hsma : present_from (bands - 1)
                     (snd (fst (calculate_bollinger_bands sqrt close
                                  bands)))).
    { unfold calculate_bollinger_bands. cbn [fst snd].
      apply (rolling_present bands 0); [assumption | | assumption].
      intros obs _. now eexists. }
    assert (Hone : bands = 1 ->
              leading_missing n
                (fst (fst (calculate_bollinger_bands sqrt close bands)))
              /\ leading_missing n
                   (snd (calculate_bollinger_bands sqrt close bands))).
    { intros ->. apply bollinger_period_one. }
    destruct (calculate_bollinger_bands sqrt close bands)
      as [[upper sma] lower].
    cbv beta iota zeta in Hw, Hlen |- *. cbn [fst snd] in Hsma, Hone.
    destruct Hw as [Hw1 Hw2].
    split; [exact Hlen |]. split; [exact Hw1 |].
    split; [exact Hsma |]. split; [| exact Hone].
    intros Hb2. destruct (Hw2 Hb2 Fc) as (Hu & _ & Hlo). now split.
  - split; [| split].
    + unfold n. rewrite <- Hh. now apply length_calculate_atr.
    + now apply atr_leading.
    + now apply atr_present.
  - split; [| split; [| split; [| split]]].
    + unfold n. rewrite <- Hh. now apply length_calculate_adx.
    + now apply adx_leading.
    + intros j Hj Hlen. now apply directional_index_cases.
    + intros i Hi. now apply adx_present_iff.
    + now apply adx_present.
Qed.

Lemma indicator_warm_up_witness :
  let n := length (closes 40) in
  (length (calculate_rsi (closes 40) 14) = n
   /\ leading_missing (14 - 1) (calculate_rsi (closes 40) 14)
   /\ forall i, 14 - 1 <= i -> i < n ->
        exists g l,
          nth_error (rsi_gain (closes 40) 14) i = Some (Fin g)
          /\ nth_error (rsi_loss (closes 40) 14) i = Some (Fin l)
          /\ (0 <= g)%Q /\ (0 <= l)%Q
          /\ ((0 < g \/ 0 < l)%Q ->
              exists q,
                nth_error (calculate_rsi (closes 40) 14) i = Some (Fin q))
          /\ ((g == 0)%Q -> (l == 0)%Q ->
              nth_error (calculate_rsi (closes 40) 14) i = Some NaN))
  /\ (let '(macd, sig, hist) := calculate_macd (closes 40) 12 26 9 in
      (length macd = n /\ length sig = n /\ length hist = n)
      /\ leading_missing (Nat.max 12 26 - 1) macd
      /\ present_from (Nat.max 12 26 - 1) macd
      /\ leading_missing (Nat.max 12 26 - 1 + (9 - 1)) sig
      /\ present_from (Nat.max 12 26 - 1 + (9 - 1)) sig)
  /\ (let '(k, d) := calculate_stochastic (highs 40) (lows 40) (closes 40) 14 in
      (length k = n /\ length d = n)
      /\ leading_missing (14 - 1) k
      /\ leading_missing (14 - 1 + 2) d
      /\ (forall i, 14 - 1 <= i -> i < n ->
            exists hh ll c,
              nth_error (rolling 14 agg_max (highs 40)) i = Some (Fin hh)
              /\ nth_error (rolling 14 agg_min (lows 40)) i = Some (Fin ll)
              /\ nth_error (closes 40) i = Some (Fin c)
              /\ (~ (hh == ll)%Q ->
                  exists q, nth_error k i = Some (Fin q))
              /\ ((hh == ll)%Q -> (c == ll)%Q ->
                  nth_error k i = Some NaN)
              /\ ((hh == ll)%Q -> ~ (c == ll)%Q ->
                  exists v, nth_error k i = Some v /\ isinf v = true))
      /\ (forall i, 2 <= i -> i < n ->
            (exists q, nth_error d i = Some (Fin q))
            <-> (forall j, i - 2 <= j -> j <= i ->
                   exists q, nth_error k j = Some (Fin q))))
  /\ (exists obv,
        calculate_obv (closes 40) (volumes 40) = Some obv
        /\ length obv = n
        /\ present_from 0 obv)
  /\ (let '(upper, sma, lower) :=
        calculate_bollinger_bands any_sqrt (closes 40) 20 in
      (length upper = n /\ length sma = n /\ length lower = n)
      /\ (leading_missing (20 - 1) upper
          /\ leading_missing (20 - 1) sma
          /\ leading_missing (20 - 1) lower)
      /\ present_from (20 - 1) sma
      /\ (2 <= 20 ->
          present_from (20 - 1) upper
          /\ present_from (20 - 1) lower)
      /\ (20 = 1 ->
          leading_missing n upper /\ leading_missing n lower))
  /\ (length (calculate_atr (highs 40) (lows 40) (closes 40) 14) = n
      /\ leading_missing 14 (calculate_atr (highs 40) (lows 40) (closes 40) 14)
      /\ present_from 14 (calculate_atr (highs 40) (lows 40) (closes 40) 14))
  /\ (length (calculate_adx (highs 40) (lows 40) (closes 40) 14) = n
      /\ leading_missing (2 * 14 - 1)
           (calculate_adx (highs 40) (lows 40) (closes 40) 14)
      /\ (forall j, 14 <= j -> j < n ->
            exists a b t,
              nth_error (smoothed_dm (diff (highs 40)) 14) j = Some (Fin a)
              /\ nth_error (smoothed_dm (map vneg (diff (lows 40))) 14) j
                 = Some (Fin b)
              /\ nth_error (calculate_atr (highs 40) (lows 40) (closes 40) 14) j
                 = Some (Fin t)
              /\ (0 <= a)%Q /\ (0 <= b)%Q /\ (0 <= t)%Q
              /\ ((0 < t)%Q ->
                  exists P M,
                    nth_error (directional_indicator (diff (highs 40))
                                 (highs 40) (lows 40) (closes 40) 14) j
                    = Some (Fin P)
                    /\ nth_error (directional_indicator
                                    (map vneg (diff (lows 40)))
                                    (highs 40) (lows 40) (closes 40) 14) j
                       = Some (Fin M)
                    /\ (0 <= P)%Q /\ (0 <= M)%Q
                    /\ ((0 < P + M)%Q ->
                        exists q,
                          nth_error (directional_index (highs 40) (lows 40) (closes 40)
                                       14) j
                          = Some (Fin q))
                    /\ ((P + M == 0)%Q ->
                        nth_error (directional_index (highs 40) (lows 40) (closes 40)
                                     14) j
                        = Some NaN))
              /\ ((t == 0)%Q ->
                  nth_error (directional_index (highs 40) (lows 40) (closes 40) 14) j
                  = Some NaN))
      /\ (forall i, i < n ->
            (exists q,
               nth_error (calculate_adx (highs 40) (lows 40) (closes 40) 14) i
               = Some (Fin q))
            <-> 14
                <= length
                     (observations
                        (firstn (S i)
                           (directional_index (highs 40) (lows 40) (closes 40) 14))))
      /\ (present_from 14 (directional_index (highs 40) (lows 40) (closes 40) 14) ->
          present_from (2 * 14 - 1)
            (calculate_adx (highs 40) (lows 40) (closes 40) 14))).
Proof.
  apply (indicator_warm_up any_sqrt (closes 40) (highs 40) (lows 40)
           (volumes 40) 14 12 26 9 20);
    try reflexivity; lia.
Defined.

(* ================================================================= *)
(** * Part IV: further properties of the code *)
(* ================================================================= *)

(* ----------------------------------------------------------------- *)
(** ** Signal generator and labelled table *)

Lemma lagged_prefix (data more : DataFrame) :
  firstn (length data - 60) (lagged (data ++ more)) = lagged data.
Proof.
  unfold lagged. rewrite combine_firstn.
  destruct (Nat.le_gt_cases 60 (length data)) as [Hn | Hn].
  - rewrite firstn_app.
    replace (length data - 60 - length data) with 0 by lia.
    rewrite firstn_0, app_nil_r.
    rewrite skipn_app.
    replace (60 - length data) with 0 by lia. rewrite skipn_0.
    rewrite firstn_app, length_skipn, Nat.sub_diag, firstn_0, app_nil_r.
    rewrite (@firstn_all2 _ (length data - 60) (skipn 60 data))
      by (rewrite length_skipn; lia).
    rewrite (combine_firstn_r data (skipn 60 data)), length_skipn.
    reflexivity.
  - replace (length data - 60) with 0 by lia.
    rewrite (skipn_all2 data) by lia.
    cbn [firstn combine]. now rewrite combine_nil.
Qed.

(** X1.  The batch size is invisible in the result: whatever positive
    [batch_size] the generator is called with, it returns the same signals
    and predictions. *)
Theorem batch_size_is_transparent
    (encode : list (list num) -> num) (data : DataFrame)
    (b b' : positive) (tb ts : num) :
  generate_signals_batch encode data b tb ts
  = generate_signals_batch encode data b' tb ts.
Proof.
  now rewrite !generate_signals_batch_closed.
Qed.

(** X2.  The generator never raises: the check [i + 60 >= len(data)]
    keeps every access [data.iloc[i + 60]] inside the table, for every
    table (the empty one included), batch size and pair of thresholds.  It
    returns two lists of the same length, [len(data) - 60], or empty ones
    when the table has fewer than 60 rows. *)
Theorem generate_signals_batch_never_raises
    (encode : list (list num) -> num) (data : DataFrame)
    (b : positive) (tb ts : num) :
  exists sigs preds,
    generate_signals_batch encode data b tb ts = Some (sigs, preds)
    /\ length sigs = length data - 60
    /\ length preds = length data - 60.
Proof.
  rewrite generate_signals_batch_closed.
  eexists _, _. split; [reflexivity |].
  now rewrite !length_map, length_lagged.
Qed.

(** X3.  Rows appended to the table do not change what was emitted before:
    the signals and predictions of [data] are the first [len(data) - 60]
    signals and predictions of [data ++ more].  The entry of window [i]
    looks at no row beyond [i + 60]. *)
Theorem appended_rows_keep_earlier_signals
    (encode : list (list num) -> num) (data more : DataFrame)
    (b : positive) (tb ts : num) :
  exists sigs preds,
    generate_signals_batch encode (data ++ more) b tb ts = Some (sigs, preds)
    /\ generate_signals_batch encode data b tb ts
       = Some (firstn (length data - 60) sigs,
               firstn (length data - 60) preds).
Proof.
  rewrite !generate_signals_batch_closed.
  eexists _, _. split; [reflexivity |].
  now rewrite !firstn_map, lagged_prefix.
Qed.

(** X4.  A realized close of zero does not stop the generator (the
    notebook's run met this division by zero): the ratio is then infinite
    and a positive prediction gives BUY, a negative one SELL, and a zero
    prediction, whose ratio is undefined, gives HOLD.  A missing
    prediction or a missing close gives HOLD as well. *)
Theorem decision_on_zero_or_missing_close (p : Q) (v : num) :
  ((0 < p)%Q ->
   decide (Fin p) (Fin 0) default_threshold_buy default_threshold_sell = BUY)
  /\ ((p < 0)%Q ->
      decide (Fin p) (Fin 0) default_threshold_buy default_threshold_sell
      = SELL)
  /\ ((p == 0)%Q ->
      decide (Fin p) (Fin 0) default_threshold_buy default_threshold_sell
      = HOLD)
  /\ decide NaN v default_threshold_buy default_threshold_sell = HOLD
  /\ decide v NaN default_threshold_buy default_threshold_sell = HOLD.
Proof.
  assert (Hdiv : vdiv (Fin p) (Fin 0) = inf_times p) by reflexivity.
  unfold decide. rewrite Hdiv, vdiv_nan_r. unfold inf_times.
  repeat split.
  - intros H.
    assert (Hc : Qcompare p 0 = Gt) by (now apply Qgt_alt).
    now rewrite Hc.
  - intros H.
    assert (Hc : Qcompare p 0 = Lt) by (now apply Qlt_alt).
    now rewrite Hc.
  - intros H.
    assert (Hc : Qcompare p 0 = Eq) by (now apply Qeq_alt).
    now rewrite Hc.
Qed.

(** X5.  The column assignments of cell 16 raise exactly on the tables
    that have between 1 and 59 rows: the 60 padding entries alone are then
    longer than the table.  On the table without rows they succeed, as
    pandas lets the list define the index: the result has 60 rows of
    missing cells, each [HOLD] without a prediction. *)
Theorem label_table_fails_below_60_rows
    (encode : list (list num) -> num) (data : DataFrame) :
  (label_table encode data = None <-> 0 < length data < 60)
  /\ (data = [] ->
      label_table encode data
      = Some (repeat (mkLabelled blank_row HOLD None) 60)).
Proof.
  split; [split |].
  - intros Hnone.
    destruct data as [| r data];
      [rewrite label_table_empty in Hnone; discriminate |].
    destruct (Nat.lt_ge_cases (length (r :: data)) 60) as [H | H];
      [simpl in *; lia |].
    destruct (label_table_rows encode (r :: data) _ _ H
                (generate_signals_batch_closed encode _ _ (r :: data) _))
      as (out & Hout & _).
    congruence.
  - apply label_table_short.
  - intros ->. apply label_table_empty.
Qed.

(* ----------------------------------------------------------------- *)
(** ** Windowing dataset *)

(** X6.  [sample(i)] raises exactly when [i + seq_len] lies outside
    [-n, n), [n] being the number of rows of the dataset; for every other
    integer, negative ones included, it returns a pair. *)
Theorem getitem_fails_exactly_out_of_range (ds : TradeDataset) (i : Z) :
  getitem ds i = None
  <-> (i + seq_len ds < - Z.of_nat (length (data ds))
       \/ Z.of_nat (length (data ds)) <= i + seq_len ds)%Z.
Proof.
  unfold getitem, iloc. rewrite <- index_None_iff.
  destruct (Py.index (data ds) (i + seq_len ds)); split;
    congruence.
Qed.

(** X7.  Negative indices are counted from the end, as in Python.  On a
    dataset of [n >= 60] rows with windows of 60: for [-60 <= i <= -1] the
    slice is empty and [sample(i)] is an empty window paired with the
    [Close] of row [i + 60]; for [-n <= i <= -61] [sample(i)] is
    [sample(n + i)]. *)
Theorem getitem_negative_indices (ds : TradeDataset) (i : Z) :
  seq_len ds = 60%Z ->
  (60 <= Z.of_nat (length (data ds)))%Z ->
  ((-60 <= i <= -1)%Z ->
   exists r, nth_error (data ds) (Z.to_nat (i + 60)) = Some r
             /\ getitem ds i = Some ([], cell r Close))
  /\ ((- Z.of_nat (length (data ds)) <= i <= -61)%Z ->
      getitem ds i = getitem ds (Z.of_nat (length (data ds)) + i)).
Proof.
  intros Hsl Hn. set (n := Z.of_nat (length (data ds))) in *.
  split; intros Hi; unfold getitem, iloc, iloc_slice; rewrite Hsl.
  - unfold Py.index.
    destruct (Z.leb_spec 0 (i + 60)); [| lia].
    destruct (nth_error (data ds) (Z.to_nat (i + 60))) as [r |] eqn:E;
      [| apply nth_error_None in E; lia].
    exists r. split; [reflexivity |].
    unfold Py.slice, Py.clip. fold n.
    destruct (Z.ltb_spec i 0); [| lia].
    destruct (Z.ltb_spec (i + 60) 0); [lia |].
    replace (Z.to_nat (Z.min (i + 60) n - Z.max 0 (n + i))) with 0%nat by lia.
    reflexivity.
  - rewrite (index_negative (data ds) (i + 60)) by (fold n; lia).
    fold n.
    assert (Hidx : Py.index (data ds) (n + i + 60)
                   = nth_error (data ds) (Z.to_nat (n + (i + 60)))).
    { unfold Py.index. destruct (Z.leb_spec 0 (n + i + 60)); [| lia].
      f_equal. lia. }
    rewrite Hidx.
    assert (Hsl' : Py.slice (data ds) i (i + 60)
                   = Py.slice (data ds) (n + i) (n + i + 60)).
    { unfold Py.slice, Py.clip. fold n.
      destruct (Z.ltb_spec i 0); [| lia].
      destruct (Z.ltb_spec (i + 60) 0); [| lia].
      destruct (Z.ltb_spec (n + i) 0); [lia |].
      destruct (Z.ltb_spec (n + i + 60) 0); [lia |].
      f_equal; [| f_equal]; lia. }
    now rewrite Hsl'.
Qed.

Lemma getitem_negative_indices_witness :
  ((-60 <= -1 <= -1)%Z ->
   exists r, nth_error (data ramp_dataset) (Z.to_nat (-1 + 60)) = Some r
             /\ getitem ramp_dataset (-1) = Some ([], cell r Close))
  /\ ((- Z.of_nat (length (data ramp_dataset)) <= -1 <= -61)%Z ->
      getitem ramp_dataset (-1)
      = getitem ramp_dataset (Z.of_nat (length (data ramp_dataset)) + -1)).
Proof.
  apply (getitem_negative_indices ramp_dataset (-1)).
  - reflexivity.
  - simpl. lia.
Defined.

(** X8.  Consecutive windows overlap in 59 rows, and the target of a
    window is an input of the next one: when [sample(i)] and
    [sample(i + 1)] both fit, the window of [sample(i + 1)] is the window
    of [sample(i)] without its first row, followed by the feature vector
    of row [i + 60], whose first entry, [Close], is the target of
    [sample(i)]. *)
Theorem consecutive_windows_overlap (ds : TradeDataset) (i : Z) :
  seq_len ds = 60%Z ->
  (0 <= i)%Z -> (i + 1 < len ds)%Z ->
  exists x y x' y' r,
    getitem ds i = Some (x, y)
    /\ getitem ds (i + 1) = Some (x', y')
    /\ nth_error (data ds) (Z.to_nat i + 60) = Some r
    /\ x' = tl x ++ [values r]
    /\ y = nth 0 (values r) NaN.
Proof.
  intros Hsl Hi Hlen.
  destruct (getitem_in_range ds i Hsl ltac:(lia)) as (r & Hr & Hx & Hlx).
  destruct (getitem_in_range ds (i + 1) Hsl ltac:(lia))
    as (r' & Hr' & Hx' & Hlx').
  eexists _, _, _, _, r.
  split; [exact Hx |]. split; [exact Hx' |]. split; [exact Hr |].
  split; [| reflexivity].
  replace (Z.to_nat (i + 1)) with (S (Z.to_nat i)) by lia.
  set (k := Z.to_nat i) in *.
  unfold len in Hlen. rewrite Hsl in Hlen.
  destruct (nth_error (data ds) k) as [r0 |] eqn:E0;
    [| apply nth_error_None in E0; lia].
  rewrite (skipn_cons_nth _ _ _ E0).
  change (firstn 60 (r0 :: skipn (S k) (data ds)))
    with (r0 :: firstn 59 (skipn (S k) (data ds))).
  cbn [map tl].
  change 60 with (59 + 1) at 1. rewrite firstn_plus, skipn_skipn.
  replace (59 + S k) with (k + 60) by lia.
  rewrite (skipn_cons_nth _ _ _ Hr). cbn [firstn].
  now rewrite map_app.
Qed.

Lemma consecutive_windows_overlap_witness :
  exists x y x' y' r,
    getitem (mkTradeDataset (ramp 62) 60) 0 = Some (x, y)
    /\ getitem (mkTradeDataset (ramp 62) 60) (0 + 1) = Some (x', y')
    /\ nth_error (data (mkTradeDataset (ramp 62) 60)) (Z.to_nat 0 + 60)
       = Some r
    /\ x' = tl x ++ [values r]
    /\ y = nth 0 (values r) NaN.
Proof.
  apply (consecutive_windows_overlap (mkTradeDataset (ramp 62) 60) 0).
  - reflexivity.
  - lia.
  - vm_compute. reflexivity.
Defined.

(* ----------------------------------------------------------------- *)
(** ** Min-max scaling *)

(** The minimum of a column without infinite cells, [NaN] cells skipped:
    [NaN] when no cell is a number, the least number otherwise. *)
Lemma nanmin_cases (col : list num) :
  (forall v, In v col -> isinf v = false) ->
  (nanmin col = NaN /\ forall q, ~ In (Fin q) col)
  \/ exists m, nanmin col = Fin m /\ In (Fin m) col
               /\ forall q, In (Fin q) col -> (m <= q)%Q.
Proof.
  induction col as [| v col IH]; intros Hinf.
  - left. split; [reflexivity | intros q []].
  - specialize (IH (fun u Hu => Hinf u (or_intror Hu))).
    pose proof (Hinf v (or_introl eq_refl)) as Hv.
    change (nanmin (v :: col)) with (fmin v (nanmin col)).
    destruct v as [x | | |]; try discriminate.
    + destruct IH as [[Hnan Hno] | (m & Hm & Hin & Hle)].
      * right. exists x. rewrite Hnan. split; [reflexivity |].
        split; [now left |].
        intros q [Hq | Hq]; [inversion Hq; apply Qle_refl |].
        now apply Hno in Hq.
      * right. rewrite Hm. unfold fmin. rewrite vlt_Fin.
        destruct (Qltb m x) eqn:E.
        -- apply Qltb_lt in E. exists m. split; [reflexivity |].
           split; [now right |].
           intros q [Hq | Hq];
             [inversion Hq; subst; now apply Qlt_le_weak | now apply Hle].
        -- apply Qltb_ge in E. exists x. split; [reflexivity |].
           split; [now left |].
           intros q [Hq | Hq]; [inversion Hq; apply Qle_refl |].
           eapply Qle_trans; [exact E | now apply Hle].
    + destruct IH as [[Hnan Hno] | (m & Hm & Hin & Hle)].
      * left. split; [exact Hnan |].
        intros q [Hq | Hq]; [discriminate | now apply Hno in Hq].
      * right. exists m. split; [exact Hm |]. split; [now right |].
        intros q [Hq | Hq]; [discriminate | now apply Hle].
Qed.

Lemma nanmax_cases (col : list num) :
  (forall v, In v col -> isinf v = false) ->
  (nanmax col = NaN /\ forall q, ~ In (Fin q) col)
  \/ exists M, nanmax col = Fin M /\ In (Fin M) col
               /\ forall q, In (Fin q) col -> (q <= M)%Q.
Proof.
  induction col as [| v col IH]; intros Hinf.
  - left. split; [reflexivity | intros q []].
  - specialize (IH (fun u Hu => Hinf u (or_intror Hu))).
    pose proof (Hinf v (or_introl eq_refl)) as Hv.
    change (nanmax (v :: col)) with (fmax v (nanmax col)).
    destruct v as [x | | |]; try discriminate.
    + destruct IH as [[Hnan Hno] | (M & HM & Hin & Hle)].
      * right. exists x. rewrite Hnan. split; [reflexivity |].
        split; [now left |].
        intros q [Hq | Hq]; [inversion Hq; apply Qle_refl |].
        now apply Hno in Hq.
      * right. rewrite HM. unfold fmax. rewrite vlt_Fin.
        destruct (Qltb x M) eqn:E.
        -- apply Qltb_lt in E. exists M. split; [reflexivity |].
           split; [now right |].
           intros q [Hq | Hq];
             [inversion Hq; subst; now apply Qlt_le_weak | now apply Hle].
        -- apply Qltb_ge in E. exists x. split; [reflexivity |].
           split; [now left |].
           intros q [Hq | Hq]; [inversion Hq; apply Qle_refl |].
           eapply Qle_trans; [now apply Hle | exact E].
    + destruct IH as [[Hnan Hno] | (M & HM & Hin & Hle)].
      * left. split; [exact Hnan |].
        intros q [Hq | Hq]; [discriminate | now apply Hno in Hq].
      * right. exists M. split; [exact HM |]. split; [now right |].
        intros q [Hq | Hq]; [discriminate | now apply Hle].
Qed.

Lemma ten_eps_below_one : (10 * eps < 1)%Q.
Proof. reflexivity. Qed.

(** Two numbers of one column under the scaler fitted on it. *)
Lemma transform_order (col : list num) (x1 x2 : Q) :
  (forall v, In v col -> isinf v = false) ->
  In (Fin x1) col -> In (Fin x2) col -> (x1 <= x2)%Q ->
  exists t1 t2,
    transform (fit col) (Fin x1) = Fin t1
    /\ transform (fit col) (Fin x2) = Fin t2
    /\ (0 <= t1 <= t2)%Q
    /\ ((forall q, In (Fin q) col -> (x1 <= q)%Q) -> (t1 == 0)%Q).
Proof.
  intros Hinf H1 H2 Hle.
  destruct (nanmin_cases col Hinf) as [[_ Hno] | (m & Hm & Hin & Hmle)];
    [now apply Hno in H1 |].
  destruct (nanmax_cases col Hinf) as [[_ Hno] | (M & HM & _ & HMle)];
    [now apply Hno in H1 |].
  destruct (transform_fit col m M x1 Hm HM) as (t1 & Ht1 & Heq1).
  destruct (transform_fit col m M x2 Hm HM) as (t2 & Ht2 & Heq2).
  exists t1, t2. split; [assumption |]. split; [assumption |].
  split; [split |].
  - eapply scaled_nonneg; [exact Heq1 | now apply Hmle].
  - eapply scaled_order; eassumption.
  - intros Hleast. eapply scaled_minimum; [exact Heq1 |].
    apply Qle_antisym; [now apply Hleast | now apply Hmle].
Qed.

(** X10.  The scaling step [data[features] = fit_transform(data[features])]
    on a table it accepts keeps the number and the order of the rows and
    every other column, leaves a missing feature cell missing, and maps
    the numbers of a feature column to numbers that are never negative,
    in the same order, the least of them to 0. *)
Theorem fit_transform_contract (X X' : DataFrame) :
  fit_transform X = Some X' ->
  length X' = length X
  /\ (forall k r, nth_error X k = Some r ->
        exists r',
          nth_error X' k = Some r'
          /\ others r' = others r
          /\ forall f,
               (cell r f = NaN -> cell r' f = NaN)
               /\ (forall x, cell r f = Fin x ->
                     exists t, cell r' f = Fin t /\ (0 <= t)%Q))
  /\ (forall f k1 k2 r1 r2 x1 x2,
        nth_error X k1 = Some r1 -> nth_error X k2 = Some r2 ->
        cell r1 f = Fin x1 -> cell r2 f = Fin x2 -> (x1 <= x2)%Q ->
        exists r1' r2' t1 t2,
          nth_error X' k1 = Some r1' /\ nth_error X' k2 = Some r2'
          /\ cell r1' f = Fin t1 /\ cell r2' f = Fin t2
          /\ (t1 <= t2)%Q
          /\ ((forall r y, In r X -> cell r f = Fin y -> (x1 <= y)%Q) ->
              (t1 == 0)%Q)).
Proof.
  unfold fit_transform. destruct (check_array X) eqn:Hc; [| discriminate].
  intros H. inversion H; subst X'; clear H.
  destruct (check_array_spec X Hc) as [_ Hinf].
  assert (Hcol : forall f v, In v (column X f) -> isinf v = false).
  { intros f v Hv. unfold column in Hv. apply in_map_iff in Hv.
    destruct Hv as (r0 & <- & Hr0). now apply Hinf. }
  assert (Hin : forall f k r x, nth_error X k = Some r -> cell r f = Fin x ->
                  In (Fin x) (column X f)).
  { intros f k r x Hk Hx. rewrite <- Hx. unfold column.
    apply (in_map (fun r => cell r f)). eapply nth_error_In; eauto. }
  split; [apply length_map |]. split.
  - intros k r Hk. exists (rescale X r).
    split; [now rewrite nth_error_map, Hk |].
    split; [reflexivity |].
    intros f. unfold rescale. cbn [cell]. split.
    + intros ->. reflexivity.
    + intros x Hx. rewrite Hx.
      destruct (transform_order (column X f) x x (Hcol f)
                  (Hin f k r x Hk Hx) (Hin f k r x Hk Hx) (Qle_refl x))
        as (t1 & t2 & Ht1 & _ & Hb & _).
      exists t1. split; [assumption | tauto].
  - intros f k1 k2 r1 r2 x1 x2 Hk1 Hk2 Hx1 Hx2 Hle.
    destruct (transform_order (column X f) x1 x2 (Hcol f)
                (Hin f k1 r1 x1 Hk1 Hx1) (Hin f k2 r2 x2 Hk2 Hx2) Hle)
      as (t1 & t2 & Ht1 & Ht2 & Hb & Hzero).
    exists (rescale X r1), (rescale X r2), t1, t2.
    split; [now rewrite nth_error_map, Hk1 |].
    split; [now rewrite nth_error_map, Hk2 |].
    unfold rescale. cbn [cell]. rewrite Hx1, Hx2.
    split; [assumption |]. split; [assumption |].
    split; [tauto |].
    intros Hleast. apply Hzero. intros q Hq.
    apply In_column in Hq. destruct Hq as (r & Hr & Hq).
    now apply (Hleast r q).
Qed.

Lemma fit_transform_contract_witness :
  length (map (rescale MoreExamples.raw_table) MoreExamples.raw_table)
  = length MoreExamples.raw_table
  /\ (forall k r, nth_error MoreExamples.raw_table k = Some r ->
        exists r',
          nth_error
            (map (rescale MoreExamples.raw_table) MoreExamples.raw_table) k
          = Some r'
          /\ others r' = others r
          /\ forall f,
               (cell r f = NaN -> cell r' f = NaN)
               /\ (forall x, cell r f = Fin x ->
                     exists t, cell r' f = Fin t /\ (0 <= t)%Q))
  /\ (forall f k1 k2 r1 r2 x1 x2,
        nth_error MoreExamples.raw_table k1 = Some r1 ->
        nth_error MoreExamples.raw_table k2 = Some r2 ->
        cell r1 f = Fin x1 -> cell r2 f = Fin x2 -> (x1 <= x2)%Q ->
        exists r1' r2' t1 t2,
          nth_error
            (map (rescale MoreExamples.raw_table) MoreExamples.raw_table) k1
          = Some r1'
          /\ nth_error
               (map (rescale MoreExamples.raw_table) MoreExamples.raw_table)
               k2
             = Some r2'
          /\ cell r1' f = Fin t1 /\ cell r2' f = Fin t2
          /\ (t1 <= t2)%Q
          /\ ((forall r y, In r MoreExamples.raw_table ->
                          cell r f = Fin y -> (x1 <= y)%Q) ->
              (t1 == 0)%Q)).
Proof.
  apply (fit_transform_contract MoreExamples.raw_table).
  reflexivity.
Defined.

(** X11.  The constructor of [TradeDataset] raises exactly when [dropna]
    retains no row, or retains a row with an infinite feature cell: the
    scaler refuses both. *)
Theorem init_fails_iff (df : DataFrame) (sl : Z) :
  init df sl = None
  <-> dropna df = []
      \/ exists r f, In r (dropna df) /\ isinf (cell r f) = true.
Proof.
  unfold init, fit_transform.
  destruct (check_array (dropna df)) eqn:Hc.
  - split; [discriminate |].
    destruct (check_array_spec _ Hc) as [Hne Hinf].
    intros [H | (r & f & Hr & Hf)]; [contradiction |].
    rewrite (Hinf r f Hr) in Hf. discriminate.
  - split; [intros _ | reflexivity].
    unfold check_array in Hc. apply andb_false_iff in Hc.
    destruct Hc as [Hc | Hc].
    + left. apply negb_false_iff, Nat.eqb_eq in Hc.
      now destruct (dropna df).
    + right.
      assert (Hex : existsb (fun r => existsb isinf (values r)) (dropna df)
                    = true).
      { clear - Hc. induction (dropna df) as [| r X IH]; [discriminate |].
        cbn [forallb existsb] in *. apply andb_false_iff in Hc.
        apply orb_true_iff. destruct Hc as [Hc | Hc]; [left | right; auto].
        clear - Hc. induction (values r) as [| v l IH]; [discriminate |].
        cbn [forallb existsb] in *. apply andb_false_iff in Hc.
        apply orb_true_iff. destruct Hc as [Hc | Hc]; [left | right; auto].
        now apply negb_false_iff in Hc. }
      apply existsb_exists in Hex. destruct Hex as (r & Hr & Hex).
      apply existsb_exists in Hex. destruct Hex as (v & Hv & Hex).
      unfold values in Hv. apply in_map_iff in Hv.
      destruct Hv as (f & <- & _). now exists r, f.
Qed.

(** X9.  The second scaling is the identity on a column that already
    spans [0, 1] over the retained rows: when some retained row holds 0,
    some holds 1 and all lie between, every retained row keeps its value
    in the dataset. *)
Theorem second_scaling_fixes_spanning_column
    (df : DataFrame) (ds : TradeDataset) (f : Feature) :
  init df default_seq_len = Some ds ->
  (exists r, In r (dropna df) /\ veq (cell r f) (Fin 0)) ->
  (exists r, In r (dropna df) /\ veq (cell r f) (Fin 1)) ->
  (forall r x, In r (dropna df) -> cell r f = Fin x -> (0 <= x <= 1)%Q) ->
  forall k r, nth_error (dropna df) k = Some r ->
    exists r', nth_error (data ds) k = Some r'
               /\ veq (cell r' f) (cell r f).
Proof.
  intros Hinit (r0 & Hr0 & H0) (r1 & Hr1 & H1) Hrange k r Hk.
  destruct (second_fit df _ ds f Hinit)
    as (m & M & (rm & Hrm & Hcm) & (rM & HrM & HcM) & Hall).
  (* the minimum is 0 and the maximum is 1 *)
  destruct (Hall r0 Hr0) as (x0 & _ & Hx0 & [Hm0 _] & _).
  destruct (Hall r1 Hr1) as (x1 & _ & Hx1 & [_ HM1] & _).
  rewrite Hx0 in H0. rewrite Hx1 in H1. simpl in H0, H1.
  pose proof (Hrange rm m Hrm Hcm) as [Hmlo _].
  pose proof (Hrange rM M HrM HcM) as [_ HMhi].
  assert (Hm : (m == 0)%Q) by lra.
  assert (HM : (M == 1)%Q) by lra.
  pose proof ten_eps_below_one as Heps.
  assert (Hw : (10 * eps <= M - m)%Q) by lra.
  destruct (Hall r (nth_error_In _ _ Hk)) as (x & t & Hx & _ & Ht & Heq).
  exists (rescale (dropna df) r).
  split; [eapply rescaled_row; eauto |].
  rewrite Ht, Hx. cbn [veq].
  rewrite Heq, (effective_range_wide m M Hw), Hm, HM. field.
Qed.

Lemma second_scaling_fixes_spanning_column_witness :
  exists r', nth_error (data MoreExamples.spanning_dataset) 1 = Some r'
             /\ veq (cell r' Close) (cell (row_of (1 # 2) []) Close).
Proof.
  apply (second_scaling_fixes_spanning_column MoreExamples.spanning_table
           MoreExamples.spanning_dataset Close).
  - reflexivity.
  - exists (row_of 0 []). split; [simpl; tauto | reflexivity].
  - exists (row_of 1 []). split; [simpl; tauto | reflexivity].
  - intros r x [<- | [<- | [<- | []]]] Hx; inversion Hx; split;
      discriminate.
  - reflexivity.
Defined.

(* ----------------------------------------------------------------- *)
(** ** Loading *)

Import Loader Pipeline.

Lemma Qltb_irrefl (x : Q) : Qltb x x = false.
Proof. apply Qltb_ge, Qle_refl. Qed.

Lemma vlt_irrefl (a : num) : vlt a a = false.
Proof. destruct a; simpl; auto using Qltb_irrefl. Qed.

Lemma vlt_asym (a b : num) : vlt a b = true -> vlt b a = false.
Proof.
  destruct a, b; simpl; try reflexivity; try discriminate.
  rewrite Qltb_lt, Qltb_ge. apply Qlt_le_weak.
Qed.

(** The larger of two cells is never below the smaller, and both are
    missing together: when both cells are. *)
Lemma row_max_min (a b : num) :
  vlt (nanmax [a; b]) (nanmin [a; b]) = false
  /\ isnan (nanmax [a; b]) = isnan a && isnan b
  /\ isnan (nanmin [a; b]) = isnan a && isnan b.
Proof.
  unfold nanmax, nanmin. cbn [fold_right].
  assert (Hmax : fmax b NaN = b) by now destruct b.
  assert (Hmin : fmin b NaN = b) by now destruct b.
  rewrite Hmax, Hmin.
  destruct a as [x | | |], b as [y | | |]; cbn [fmax fmin vlt isnan andb];
    try reflexivity; try (repeat split; apply Qltb_irrefl).
  destruct (Qltb x y) eqn:E1, (Qltb y x) eqn:E2; cbn [vlt isnan];
    repeat split; auto using Qltb_irrefl.
Qed.

Lemma isnan_rescaled (v : num) :
  isnan (vdiv v fixed_point_unit) = isnan v.
Proof. now destruct v. Qed.

Lemma length_fillna (s fill : Series) : length (fillna s fill) = length s.
Proof.
  revert fill; induction s as [| v s IH]; intros [| f fill]; simpl; auto.
Qed.

Lemma nth_error_fillna (s fill : Series) (i : nat) (v f : num) :
  nth_error s i = Some v -> nth_error fill i = Some f ->
  nth_error (fillna s fill) i = Some (if isnan v then f else v).
Proof.
  revert fill i; induction s as [| u s IH]; intros [| g fill] [| i] Hv Hf;
    simpl in *; try discriminate.
  - now inversion Hv; inversion Hf.
  - now apply IH.
Qed.

(** X12.  Cell 2 keeps the number of rows in every column it derives.
    [High] is never below [Low], and each is missing only on a row where
    both quotes are missing (a single missing quote is ignored); [Open] is
    the own [Close] on the first row and afterwards the previous [Close],
    or the own [Close] where the previous one is missing. *)
Theorem preprocess_columns (ticks : list Tick) :
  let o := preprocess ticks in
  (length (col_Close o) = length ticks
   /\ length (col_Volume o) = length ticks
   /\ length (col_High o) = length ticks
   /\ length (col_Low o) = length ticks
   /\ length (col_Open o) = length ticks)
  /\ (forall i t h l,
        nth_error ticks i = Some t ->
        nth_error (col_High o) i = Some h ->
        nth_error (col_Low o) i = Some l ->
        vlt h l = false
        /\ isnan h = isnan (bid_px_00 t) && isnan (ask_px_00 t)
        /\ isnan l = isnan (bid_px_00 t) && isnan (ask_px_00 t))
  /\ nth_error (col_Open o) 0 = nth_error (col_Close o) 0
  /\ (forall i c c',
        nth_error (col_Close o) i = Some c ->
        nth_error (col_Close o) (S i) = Some c' ->
        nth_error (col_Open o) (S i) = Some (if isnan c then c' else c)).
Proof.
  cbv zeta. unfold preprocess. cbn [col_Close col_Volume col_High col_Low col_Open].
  split; [| split; [| split]].
  - rewrite length_fillna, length_shift, !length_map, length_combine,
      !length_map.
    repeat split; lia.
  - intros i t h l Ht Hh Hl.
    rewrite nth_error_map in Hh, Hl.
    assert (Hc : nth_error
                   (combine
                      (map (fun t => vdiv (bid_px_00 t) fixed_point_unit) ticks)
                      (map (fun t => vdiv (ask_px_00 t) fixed_point_unit) ticks))
                   i
                 = Some (vdiv (bid_px_00 t) fixed_point_unit,
                         vdiv (ask_px_00 t) fixed_point_unit)).
    { apply nth_error_combine; now rewrite nth_error_map, Ht. }
    rewrite Hc in Hh, Hl. cbn [option_map fst snd] in Hh, Hl.
    inversion Hh; inversion Hl; subst h l.
    rewrite <- (isnan_rescaled (bid_px_00 t)), <- (isnan_rescaled (ask_px_00 t)).
    apply row_max_min.
  - destruct ticks as [| t ticks]; reflexivity.
  - intros i c c' Hc Hc'.
    set (close := map (fun t => vdiv (price t) fixed_point_unit) ticks) in *.
    assert (Hlen : S i < length close).
    { apply nth_error_Some. congruence. }
    rewrite (nth_error_fillna (shift close) close (S i) c c'); auto.
    now rewrite nth_error_shift_S.
Qed.

(* ----------------------------------------------------------------- *)
(** ** Bollinger bands and average true range *)

Import Conditions.

(** X13.  With a square root that is never negative, the Bollinger bands
    enclose the moving average: at every index either both bands are
    missing, or the three values are numbers with
    [lower <= sma <= upper].  For a period of at least 2 and from row
    [period - 1] on, the bands are numbers exactly when every entry of
    the window is a number. *)
Theorem bollinger_bands_ordered
    (sqrt : Q -> Q) (series : Series) (period i : nat) (vu vm vl : num) :
  (forall x, (0 <= sqrt x)%Q) ->
  nth_error (fst (fst (calculate_bollinger_bands sqrt series period))) i
  = Some vu ->
  nth_error (snd (fst (calculate_bollinger_bands sqrt series period))) i
  = Some vm ->
  nth_error (snd (calculate_bollinger_bands sqrt series period)) i
  = Some vl ->
  ((vu = NaN /\ vl = NaN)
   \/ exists u m l,
        vu = Fin u /\ vm = Fin m /\ vl = Fin l /\ (l <= m <= u)%Q)
  /\ (2 <= period -> period - 1 <= i ->
      (exists u l, vu = Fin u /\ vl = Fin l)
      <-> (forall j, i + 1 - period <= j -> j <= i ->
             exists q, nth_error series j = Some (Fin q))).
Proof.
  intros Hsqrt. unfold calculate_bollinger_bands. cbn [fst snd].
  intros Hu Hm Hl.
  assert (Hi : i < length series).
  { rewrite <- (length_rolling period agg_mean). apply nth_error_Some.
    congruence. }
  destruct (nth_error (rolling period (agg_std sqrt) series) i)
    as [sd |] eqn:Esd;
    [| apply nth_error_None in Esd; rewrite length_rolling in Esd; lia].
  assert (Hsd2 : nth_error
                   (map (fun x => vmul x (Fin 2))
                      (rolling period (agg_std sqrt) series)) i
                 = Some (vmul sd (Fin 2)))
    by now rewrite nth_error_map, Esd.
  rewrite (nth_error_align vadd _ _ i vm _ Hm Hsd2) in Hu.
  rewrite (nth_error_align vsub _ _ i vm _ Hm Hsd2) in Hl.
  inversion Hu; inversion Hl; subst vu vl; clear Hu Hl.
  split.
  - destruct (rolling_value _ _ _ _ _ Hm) as [-> | (-> & _)];
      [left; now split |].
    destruct (rolling_value _ _ _ _ _ Esd) as [-> | (-> & _)];
      [left; split; reflexivity |].
    unfold agg_std, agg_mean.
    destruct (length (observations (window period series i)) <=? 1);
      [left; split; reflexivity |].
    right. cbn [vmul vadd vsub vneg]. eexists _, _, _.
    split; [reflexivity |]. split; [reflexivity |]. split; [reflexivity |].
    pose proof (Hsqrt (Qvar (observations (window period series i)))).
    split; lra.
  - intros Hp Hrow.
    assert (Hstd : forall obs, length obs = period ->
                     exists q, agg_std sqrt obs = Fin q).
    { intros obs Ho. unfold agg_std.
      destruct (Nat.leb_spec (length obs) 1); [lia | now eexists]. }
    assert (Hmean : forall obs, length obs = period ->
                      exists q, agg_mean obs = Fin q)
      by (intros obs _; now eexists).
    pose proof (rolling_present_iff period agg_mean series i
                  ltac:(lia) Hrow Hi Hmean) as Imean.
    pose proof (rolling_present_iff period (agg_std sqrt) series i
                  ltac:(lia) Hrow Hi Hstd) as Istd.
    rewrite Hm in Imean. rewrite Esd in Istd.
    replace (i + 1 - period) with (S i - period) by lia.
    split.
    + intros (u & l & Hu & _). apply Imean.
      destruct vm as [m | | |], sd as [d | | |]; try discriminate.
      now eexists.
    + intros Hall.
      destruct (proj2 Imean Hall) as [m Hm']. inversion Hm'; subst vm.
      destruct (proj2 Istd Hall) as [d Hd]. inversion Hd; subst sd.
      cbn [vmul vadd vsub vneg]. now eexists _, _.
Qed.

Lemma bollinger_bands_ordered_witness :
  ((nth 20 (fst (fst (calculate_bollinger_bands
                        MoreExamples.nonneg_sqrt (closes 21) 20))) NaN = NaN
    /\ nth 20 (snd (calculate_bollinger_bands
                      MoreExamples.nonneg_sqrt (closes 21) 20)) NaN = NaN)
   \/ exists u m l,
        nth 20 (fst (fst (calculate_bollinger_bands
                            MoreExamples.nonneg_sqrt (closes 21) 20))) NaN
        = Fin u
        /\ nth 20 (snd (fst (calculate_bollinger_bands
                               MoreExamples.nonneg_sqrt (closes 21) 20))) NaN
           = Fin m
        /\ nth 20 (snd (calculate_bollinger_bands
                          MoreExamples.nonneg_sqrt (closes 21) 20)) NaN
           = Fin l
        /\ (l <= m <= u)%Q)
  /\ (2 <= 20 -> 20 - 1 <= 20 ->
      (exists u l,
         nth 20 (fst (fst (calculate_bollinger_bands
                             MoreExamples.nonneg_sqrt (closes 21) 20))) NaN
         = Fin u
         /\ nth 20 (snd (calculate_bollinger_bands
                           MoreExamples.nonneg_sqrt (closes 21) 20)) NaN
            = Fin l)
      <-> (forall j, 20 + 1 - 20 <= j -> j <= 20 ->
             exists q, nth_error (closes 21) j = Some (Fin q))).
Proof.
  apply (bollinger_bands_ordered MoreExamples.nonneg_sqrt (closes 21) 20 20).
  - intros x. apply Qabs_nonneg.
  - vm_compute. reflexivity.
  - vm_compute. reflexivity.
  - vm_compute. reflexivity.
Defined.

(** X14.  The average true range is never negative: every entry is
    missing or a number that is at least 0, whatever the three input
    columns hold. *)
Theorem atr_never_negative
    (high low close : Series) (period i : nat) (v : num) :
  nth_error (calculate_atr high low close period) i = Some v ->
  v = NaN \/ exists q, v = Fin q /\ (0 <= q)%Q.
Proof.
  unfold calculate_atr. apply rolling_mean_nonneg.
  intros q. apply true_range_nonneg.
Qed.

Lemma atr_never_negative_witness :
  nth 14 (calculate_atr (highs 16) (lows 16) (closes 16) 14) NaN = NaN
  \/ exists q,
       nth 14 (calculate_atr (highs 16) (lows 16) (closes 16) 14) NaN = Fin q
       /\ (0 <= q)%Q.
Proof.
  apply (atr_never_negative (highs 16) (lows 16) (closes 16) 14 14).
  vm_compute. reflexivity.
Defined.

(* ----------------------------------------------------------------- *)
(** ** On-balance volume *)

Lemma nth_error_select (cond : list bool) :
  forall (x y : list num) (i : nat) (c : bool) (a b : num),
    nth_error cond i = Some c -> nth_error x i = Some a ->
    nth_error y i = Some b ->
    nth_error (select cond x y) i = Some (if c then a else b).
Proof.
  induction cond as [| c0 cond IH]; intros [| a0 x] [| b0 y] [| i] c a b;
    simpl; try discriminate.
  - intros H1 H2 H3. now inversion H1; inversion H2; inversion H3.
  - apply IH.
Qed.

Lemma nth_error_cumsum_from_0 (a : list num) (acc x : num) :
  nth_error a 0 = Some x ->
  nth_error (cumsum_from acc a) 0 = Some (vadd acc x).
Proof. destruct a; simpl; [discriminate |]. now intros [= ->]. Qed.

Lemma nth_error_cumsum_from_S (a : list num) :
  forall (acc : num) (i : nat) (o x : num),
    nth_error (cumsum_from acc a) i = Some o ->
    nth_error a (S i) = Some x ->
    nth_error (cumsum_from acc a) (S i) = Some (vadd o x).
Proof.
  induction a as [| y a IH]; intros acc i o x Ho Hx; [discriminate |].
  destruct i as [| i].
  - simpl in Ho. inversion Ho; subst o. simpl in Hx.
    cbn [cumsum_from nth_error]. now apply nth_error_cumsum_from_0.
  - cbn [cumsum_from nth_error] in *. now apply IH.
Qed.

(** X15.  On columns of one length the on-balance volume is a running
    total that starts from 0: the first row subtracts its volume (there is
    no previous close), and every later row adds its volume if the close
    rose above the previous close and subtracts it otherwise, also when
    the close did not move. *)
Theorem obv_running_total (close volume : Series) :
  length close = length volume ->
  exists obv,
    calculate_obv close volume = Some obv
    /\ length obv = length close
    /\ (forall v0, nth_error volume 0 = Some v0 ->
          nth_error obv 0 = Some (vadd (Fin 0) (vneg v0)))
    /\ (forall i o c c' v,
          nth_error obv i = Some o ->
          nth_error close i = Some c ->
          nth_error close (S i) = Some c' ->
          nth_error volume (S i) = Some v ->
          nth_error obv (S i)
          = Some (vadd o (if vgt (vsub c' c) (Fin 0) then v else vneg v))).
Proof.
  intros Hlen. unfold calculate_obv.
  assert (H1 : length (map (fun d => vgt d (Fin 0)) (diff close))
               = length volume)
    by now rewrite length_map, length_diff.
  assert (H2 : length volume = length (map vneg volume))
    by now rewrite length_map.
  rewrite (np_where_same _ _ _ H1 H2).
  destruct (select_spec _ _ _ H1 H2) as [Hsel _].
  eexists. split; [reflexivity |]. split; [| split].
  - unfold cumsum.
    assert (Hc : forall a acc, length (cumsum_from acc a) = length a).
    { induction a as [| x a IH]; intros acc; simpl; [reflexivity |].
      now rewrite IH. }
    rewrite Hc, Hsel, length_map, length_diff. reflexivity.
  - intros v0 Hv0. unfold cumsum. apply nth_error_cumsum_from_0.
    destruct (nth_error close 0) as [c0 |] eqn:Ec0.
    + rewrite (nth_error_select _ _ _ 0 (vgt NaN (Fin 0)) v0 (vneg v0)).
      * reflexivity.
      * now rewrite nth_error_map, (nth_error_diff_0 close c0 Ec0).
      * assumption.
      * now rewrite nth_error_map, Hv0.
    + apply nth_error_None in Ec0.
      assert (0 < length volume) by (apply nth_error_Some; congruence).
      lia.
  - intros i o c c' v Ho Hc Hc' Hv. unfold cumsum in *.
    apply nth_error_cumsum_from_S; [assumption |].
    rewrite (nth_error_select _ _ _ (S i) (vgt (vsub c' c) (Fin 0))
               v (vneg v)).
    + reflexivity.
    + now rewrite nth_error_map, (nth_error_diff_S close i c c' Hc Hc').
    + assumption.
    + now rewrite nth_error_map, Hv.
Qed.

Lemma obv_running_total_witness :
  exists obv,
    calculate_obv [Fin 10; Fin 11; Fin 11; Fin 9]
                  [Fin 5; Fin 7; Fin 3; Fin 2] = Some obv
    /\ length obv = 4
    /\ (forall v0, nth_error [Fin 5; Fin 7; Fin 3; Fin 2] 0 = Some v0 ->
          nth_error obv 0 = Some (vadd (Fin 0) (vneg v0)))
    /\ (forall i o c c' v,
          nth_error obv i = Some o ->
          nth_error [Fin 10; Fin 11; Fin 11; Fin 9] i = Some c ->
          nth_error [Fin 10; Fin 11; Fin 11; Fin 9] (S i) = Some c' ->
          nth_error [Fin 5; Fin 7; Fin 3; Fin 2] (S i) = Some v ->
          nth_error obv (S i)
          = Some (vadd o (if vgt (vsub c' c) (Fin 0) then v else vneg v))).
Proof.
  apply (obv_running_total [Fin 10; Fin 11; Fin 11; Fin 9]
           [Fin 5; Fin 7; Fin 3; Fin 2]).
  reflexivity.
Defined.

(* ----------------------------------------------------------------- *)
(** ** Weighted means of an interval *)

Lemma interval_mean (lo hi a b x y : Q) :
  (0 <= a)%Q -> (0 < b)%Q ->
  (lo <= x <= hi)%Q -> (lo <= y <= hi)%Q ->
  (lo <= (a * x + b * y) / (a + b) <= hi)%Q.
Proof.
  intros Ha Hb [Hx1 Hx2] [Hy1 Hy2].
  assert (Hab : (0 < a + b)%Q) by lra.
  split.
  - apply Qle_shift_div_l; [assumption |]. nra.
  - apply Qle_shift_div_r; [assumption |]. nra.
Qed.

(* ----------------------------------------------------------------- *)
(** ** MACD of a close that does not move *)

Lemma const_mean (d a b x y : Q) :
  (0 <= a)%Q -> (0 < b)%Q -> (x == d)%Q -> (y == d)%Q ->
  ((a * x + b * y) / (a + b) == d)%Q.
Proof.
  intros Ha Hb Hx Hy. rewrite Hx, Hy. field. lra.
Qed.

Lemma align_vsub_equal (a b : Series) (x y : Q) :
  (forall i v, nth_error a i = Some v ->
               v = NaN \/ exists q, v = Fin q /\ (q == x)%Q) ->
  (forall i v, nth_error b i = Some v ->
               v = NaN \/ exists q, v = Fin q /\ (q == y)%Q) ->
  forall i v, nth_error (align vsub a b) i = Some v ->
              v = NaN \/ exists q, v = Fin q /\ (q == x - y)%Q.
Proof.
  intros Ha Hb i v Hv.
  destruct (nth_error a i) as [u |] eqn:Eu.
  - destruct (nth_error_align_l vsub a b i u Eu) as (w & Hw & Hb').
    rewrite Hw in Hv. inversion Hv; subst v; clear Hv.
    destruct (Ha i u Eu) as [-> | (p & -> & Hp)];
      [left; reflexivity |].
    destruct Hb' as [Hb' | [_ ->]]; [| left; reflexivity].
    destruct (Hb i w Hb') as [-> | (r & -> & Hr)]; [left; reflexivity |].
    right. eexists. split; [reflexivity |]. rewrite Hp, Hr. reflexivity.
  - destruct (nth_error b i) as [w |] eqn:Ew.
    + destruct (nth_error_align_r vsub a b i w Ew)
        as (u & Hu & [Hu' | [_ ->]]); [congruence |].
      rewrite Hu in Hv. inversion Hv. left. reflexivity.
    + apply nth_error_None in Eu, Ew.
      assert (i < length (align vsub a b))
        by (apply nth_error_Some; congruence).
      rewrite length_align in *. lia.
Qed.

Lemma nth_error_In_value (s : Series) (x : Q) :
  (forall i v, nth_error s i = Some v ->
               v = NaN \/ exists q, v = Fin q /\ (q == x)%Q) ->
  forall c, In (Fin c) s -> (c == x)%Q.
Proof.
  intros Hs c Hc. apply In_nth_error in Hc. destruct Hc as [i Hi].
  destruct (Hs i _ Hi) as [H | (q & H & Hq)]; [discriminate |].
  now inversion H.
Qed.

(** X16.  On a close that never moves, every entry of the MACD line, of
    its signal line and of the histogram is missing or the number 0,
    for all spans of at least 1. *)
Theorem macd_of_flat_close
    (c : Q) (n fast slow signal i : nat) (v : num) :
  1 <= fast -> 1 <= slow -> 1 <= signal ->
  nth_error (fst (fst (calculate_macd (repeat (Fin c) n) fast slow signal))) i
  = Some v
  \/ nth_error (snd (fst (calculate_macd (repeat (Fin c) n) fast slow signal)))
       i = Some v
  \/ nth_error (snd (calculate_macd (repeat (Fin c) n) fast slow signal)) i
     = Some v ->
  v = NaN \/ exists q, v = Fin q /\ (q == 0)%Q.
Proof.
  intros Hf Hs Hg. unfold calculate_macd. cbn [fst snd].
  set (s := repeat (Fin c) n).
  assert (Hflat : forall x, In (Fin x) s -> (x == c)%Q).
  { intros x Hx. apply repeat_spec in Hx. inversion Hx. reflexivity. }
  assert (Hema : forall span j w,
             1 <= span -> nth_error (ewm_mean span span s) j = Some w ->
             w = NaN \/ exists q, w = Fin q /\ (q == c)%Q).
  { intros span j w Hspan.
    apply (ewm_mean_inv (fun q => (q == c)%Q)); try assumption.
    intros a b x y. apply const_mean. }
  set (macd := align vsub (ewm_mean fast fast s) (ewm_mean slow slow s)).
  assert (Hmacd : forall j w, nth_error macd j = Some w ->
                    w = NaN \/ exists q, w = Fin q /\ (q == 0)%Q).
  { intros j w Hw.
    destruct (align_vsub_equal _ _ c c
                (fun j w => Hema fast j w Hf) (fun j w => Hema slow j w Hs)
                j w Hw) as [-> | (q & -> & Hq)]; [now left |].
    right. exists q. split; [reflexivity |]. rewrite Hq. ring. }
  assert (Hsig : forall j w,
             nth_error (ewm_mean signal signal macd) j = Some w ->
             w = NaN \/ exists q, w = Fin q /\ (q == 0)%Q).
  { intros j w.
    apply (ewm_mean_inv (fun q => (q == 0)%Q)); try assumption.
    - intros a b x y. apply const_mean.
    - now apply nth_error_In_value. }
  intros [Hv | [Hv | Hv]].
  - now apply (Hmacd i).
  - now apply (Hsig i).
  - destruct (align_vsub_equal _ _ 0 0 Hmacd Hsig i v Hv)
      as [-> | (q & -> & Hq)]; [now left |].
    right. exists q. split; [reflexivity |]. rewrite Hq. ring.
Qed.

Lemma macd_of_flat_close_witness :
  nth 34 (snd (calculate_macd (repeat (Fin 7) 36) 12 26 9)) NaN = NaN
  \/ exists q,
       nth 34 (snd (calculate_macd (repeat (Fin 7) 36) 12 26 9)) NaN = Fin q
       /\ (q == 0)%Q.
Proof.
  apply (macd_of_flat_close 7 36 12 26 9 34); try lia.
  right. right. vm_compute. reflexivity.
Defined.

(* ----------------------------------------------------------------- *)
(** ** The range of the average directional index *)

(** X19.  For a period of at least 1 every entry of the average
    directional index is missing or a number between 0 and 100, whatever
    the three input columns hold. *)
Theorem adx_bounded
    (high low close : Series) (period i : nat) (v : num) :
  1 <= period ->
  nth_error (calculate_adx high low close period) i = Some v ->
  v = NaN \/ exists q, v = Fin q /\ (0 <= q <= 100)%Q.
Proof.
  intros Hp. unfold calculate_adx.
  apply (ewm_mean_inv (fun q => (0 <= q <= 100)%Q)); [| assumption |].
  { intros a b x y. apply interval_mean. }
  intros c Hc. apply In_nth_error in Hc. destruct Hc as [j Hj].
  rewrite nth_error_map in Hj.
  match type of Hj with
  | option_map _ (nth_error ?l j) = _ =>
      destruct (nth_error l j) as [x |] eqn:Ex; [| discriminate]
  end.
  cbn [option_map] in Hj. apply align_value in Ex. subst x.
  assert (Hdi : forall dm : Series,
             nth j (map (vmul (Fin 100))
                      (align vdiv
                         (ewm_mean period period
                            (setmask (fun v => vlt v (Fin 0)) (Fin 0) dm))
                         (calculate_atr high low close period))) NaN = NaN
             \/ nth j (map (vmul (Fin 100))
                         (align vdiv
                            (ewm_mean period period
                               (setmask (fun v => vlt v (Fin 0)) (Fin 0) dm))
                            (calculate_atr high low close period))) NaN
                = PInf
             \/ exists q,
                  nth j (map (vmul (Fin 100))
                           (align vdiv
                              (ewm_mean period period
                                 (setmask (fun v => vlt v (Fin 0)) (Fin 0)
                                    dm))
                              (calculate_atr high low close period))) NaN
                  = Fin q /\ (0 <= q)%Q).
  { intros dm.
    match goal with
    | |- nth j (map _ ?l) NaN = NaN \/ _ =>
        destruct (nth_error (map (vmul (Fin 100)) l) j) as [d |] eqn:Ed
    end.
    - rewrite (nth_error_nth _ _ _ Ed).
      rewrite nth_error_map in Ed.
      match type of Ed with
      | option_map _ (nth_error ?l j) = _ =>
          destruct (nth_error l j) as [r |] eqn:Er; [| discriminate]
      end.
      cbn [option_map] in Ed. inversion Ed; subst d.
      apply align_value in Er. subst r.
      apply directional_indicator_value.
      + apply nth_nonneg. intros k w.
        apply (ewm_mean_inv (fun q => (0 <= q)%Q)); [| assumption |].
        * intros a b x y. apply nonneg_mean.
        * intros q. apply setmask_nonneg.
      + apply nth_nonneg. intros k w. unfold calculate_atr.
        apply rolling_mean_nonneg. intros q. apply true_range_nonneg.
    - left. apply nth_error_None in Ed. now apply nth_overflow. }
  pose proof (Hdi (diff high)) as Hplus.
  pose proof (Hdi (map vneg (diff low))) as Hminus.
  match type of Hj with
  | context [nth j (align vsub ?a ?b) NaN] =>
      destruct (nth_error (align vsub a b) j) as [x |] eqn:Ex;
      [rewrite (nth_error_nth _ _ _ Ex) in Hj; apply align_value in Ex
      | apply nth_error_None in Ex;
        rewrite (nth_overflow _ _ Ex) in Hj; discriminate]
  end.
  match type of Hj with
  | context [nth j (align vadd ?a ?b) NaN] =>
      destruct (nth_error (align vadd a b) j) as [y |] eqn:Ey;
      [rewrite (nth_error_nth _ _ _ Ey) in Hj; apply align_value in Ey
      | apply nth_error_None in Ey;
        rewrite (nth_overflow _ _ Ey) in Hj;
        destruct x; discriminate]
  end.
  subst x y.
  destruct (directional_index_value _ _ Hplus Hminus) as [H | (q & H & Hq)];
    rewrite H in Hj; [discriminate |].
  inversion Hj; subst c. exact Hq.
Qed.

Lemma adx_bounded_witness :
  nth 5 (calculate_adx (highs 7) (lows 7) (closes 7) 3) NaN = NaN
  \/ exists q,
       nth 5 (calculate_adx (highs 7) (lows 7) (closes 7) 3) NaN = Fin q
       /\ (0 <= q <= 100)%Q.
Proof.
  apply (adx_bounded (highs 7) (lows 7) (closes 7) 3 5); [lia |].
  vm_compute. reflexivity.
Defined.

(* ----------------------------------------------------------------- *)
(** ** The sign of the stochastic oscillator *)

Lemma within_quotes_spec (high low close : Series) :
  within_quotes high low close = true ->
  length high = length low /\ length high = length close
  /\ forall j, j < length high ->
       exists h l c,
         nth_error high j = Some (Fin h) /\ nth_error low j = Some (Fin l)
         /\ nth_error close j = Some (Fin c) /\ (l <= c <= h)%Q.
Proof.
  unfold within_quotes. rewrite !andb_true_iff, !Nat.eqb_eq.
  intros [[H1 H2] Hall]. split; [assumption |]. split; [assumption |].
  intros j Hj. rewrite forallb_forall in Hall.
  destruct (nth_error high j) as [vh |] eqn:Eh;
    [| apply nth_error_None in Eh; lia].
  destruct (nth_error low j) as [vl |] eqn:El;
    [| apply nth_error_None in El; lia].
  destruct (nth_error close j) as [vc |] eqn:Ec;
    [| apply nth_error_None in Ec; lia].
  pose proof (nth_error_combine _ _ j vl vc El Ec) as Hlc.
  pose proof (nth_error_combine _ _ j vh (vl, vc) Eh Hlc) as Hhlc.
  apply nth_error_In in Hhlc. apply Hall in Hhlc.
  destruct vh as [h | | |], vl as [l | | |], vc as [c | | |];
    try discriminate.
  apply andb_true_iff in Hhlc. destruct Hhlc as [Ha Hb].
  apply Qle_bool_iff in Ha, Hb.
  exists h, l, c. repeat split; assumption.
Qed.

Lemma fold_Qmin_le (x : Q) (t : list Q) (q : Q) :
  In q (x :: t) -> (fold_right Qmin x t <= q)%Q.
Proof.
  induction t as [| y t IH]; simpl.
  - intros [-> | []]. apply Qle_refl.
  - intros [-> | [-> | H]].
    + eapply Qle_trans; [apply Q.le_min_r |]. apply IH. now left.
    + apply Q.le_min_l.
    + eapply Qle_trans; [apply Q.le_min_r |]. apply IH. now right.
Qed.

Lemma fold_Qmax_ge (x : Q) (t : list Q) (q : Q) :
  In q (x :: t) -> (q <= fold_right Qmax x t)%Q.
Proof.
  induction t as [| y t IH]; simpl.
  - intros [-> | []]. apply Qle_refl.
  - intros [-> | [-> | H]].
    + eapply Qle_trans; [| apply Q.le_max_r]. apply IH. now left.
    + apply Q.le_max_l.
    + eapply Qle_trans; [| apply Q.le_max_r]. apply IH. now right.
Qed.

(** The rolling minimum is at most, the rolling maximum at least, the
    entry of its own row. *)
Lemma rolling_extreme (w : nat) (s : Series) (i : nat) (x : Q) (v : num) :
  nth_error s i = Some (Fin x) ->
  (nth_error (rolling w agg_min s) i = Some v ->
   v = NaN \/ exists m, v = Fin m /\ (m <= x)%Q)
  /\ (nth_error (rolling w agg_max s) i = Some v ->
      v = NaN \/ exists m, v = Fin m /\ (x <= m)%Q).
Proof.
  intros Hx.
  assert (Hin : 1 <= length (observations (window w s i)) ->
                In x (observations (window w s i))).
  { intros Hobs. apply observations_In.
    apply (window_In w s i i); [| assumption].
    destruct w as [| w]; [| lia].
    unfold window in Hobs. rewrite Nat.sub_0_r in Hobs.
    rewrite skipn_all2 in Hobs by (rewrite length_firstn; lia).
    simpl in Hobs. lia. }
  split; intros Hv;
    (destruct (rolling_value _ _ _ _ _ Hv) as [-> | (-> & _ & Hobs)];
     [now left |]); right; specialize (Hin Hobs);
    destruct (observations (window w s i)) as [| y t]; try contradiction;
    cbn [agg_min agg_max]; eexists; (split; [reflexivity |]).
  - now apply fold_Qmin_le.
  - now apply fold_Qmax_ge.
Qed.

Lemma stochastic_value (c lo hi : Q) :
  (lo <= c <= hi)%Q ->
  vdiv (vmul (Fin 100) (vsub (Fin c) (Fin lo))) (vsub (Fin hi) (Fin lo))
  = NaN
  \/ exists q,
       vdiv (vmul (Fin 100) (vsub (Fin c) (Fin lo))) (vsub (Fin hi) (Fin lo))
       = Fin q
       /\ (0 <= q)%Q.
Proof.
  intros [H1 H2]. unfold vsub. cbn [vneg vadd vmul vdiv].
  destruct (Qeq_bool (hi + - lo) 0) eqn:E.
  - left. apply Qeq_bool_eq in E.
    assert (Hz : (100 * (c + - lo) == 0)%Q) by lra.
    apply Qeq_alt in Hz. unfold inf_times. now rewrite Hz.
  - right. eexists. split; [reflexivity |].
    assert (Hpos : (0 < hi + - lo)%Q).
    { apply Qeq_bool_neq in E. lra. }
    apply Qle_shift_div_l; [assumption | lra].
Qed.

Lemma Qsum_bounds (lo hi : Q) (l : list Q) :
  (forall q, In q l -> (lo <= q <= hi)%Q) ->
  (lo * Qlen l <= Qsum l <= hi * Qlen l)%Q.
Proof.
  unfold Qlen, Qsum. induction l as [| x t IH]; intros Hall.
  - cbn [length fold_right]. change (inject_Z (Z.of_nat 0)) with 0%Q.
    split; lra.
  - assert (Hx : (lo <= x <= hi)%Q) by (apply Hall; now left).
    assert (Ht : (lo * inject_Z (Z.of_nat (length t))
                  <= fold_right Qplus 0 t
                  <= hi * inject_Z (Z.of_nat (length t)))%Q).
    { apply IH. intros q Hq. apply Hall. now right. }
    cbn [length fold_right].
    rewrite Nat2Z.inj_succ. unfold Z.succ. rewrite inject_Z_plus.
    change (inject_Z 1) with 1%Q. split; lra.
Qed.

(** X18.  When on every row the quotes enclose the close
    ([low <= close <= high], all numbers), no entry of [%K] or of [%D]
    is negative or infinite: each is missing or a number that is at
    least 0. *)
Theorem stochastic_never_negative
    (high low close : Series) (period i : nat) (v : num) :
  within_quotes high low close = true ->
  nth_error (fst (calculate_stochastic high low close period)) i = Some v
  \/ nth_error (snd (calculate_stochastic high low close period)) i = Some v ->
  v = NaN \/ exists q, v = Fin q /\ (0 <= q)%Q.
Proof.
  intros Hq. apply within_quotes_spec in Hq.
  destruct Hq as (Hl1 & Hl2 & Hrows).
  unfold calculate_stochastic. cbn [fst snd].
  assert (Hk : forall j w,
             nth_error
               (align vdiv
                  (map (vmul (Fin 100))
                     (align vsub close (rolling period agg_min low)))
                  (align vsub (rolling period agg_max high)
                     (rolling period agg_min low))) j = Some w ->
             w = NaN \/ exists q, w = Fin q /\ (0 <= q)%Q).
  { intros j w Hw.
    assert (Hj : j < length high).
    { assert (Hlt : j < length
                          (align vdiv
                             (map (vmul (Fin 100))
                                (align vsub close
                                   (rolling period agg_min low)))
                             (align vsub (rolling period agg_max high)
                                (rolling period agg_min low))))
        by (apply nth_error_Some; congruence).
      rewrite !length_align, length_map, !length_align, !length_rolling
        in Hlt. lia. }
    destruct (Hrows j Hj) as (h & l & c & Hh & Hl & Hc & Hle).
    destruct (nth_error (rolling period agg_min low) j) as [lo |] eqn:Elo;
      [| apply nth_error_None in Elo; rewrite length_rolling in Elo; lia].
    destruct (nth_error (rolling period agg_max high) j) as [hi |] eqn:Ehi;
      [| apply nth_error_None in Ehi; rewrite length_rolling in Ehi; lia].
    assert (Hnum : nth_error
                     (map (vmul (Fin 100))
                        (align vsub close (rolling period agg_min low))) j
                   = Some (vmul (Fin 100) (vsub (Fin c) lo)))
      by now rewrite nth_error_map,
           (nth_error_align vsub _ _ j _ _ Hc Elo).
    pose proof (nth_error_align vsub _ _ j _ _ Ehi Elo) as Hden.
    rewrite (nth_error_align vdiv _ _ j _ _ Hnum Hden) in Hw.
    inversion Hw; subst w; clear Hw.
    destruct (proj1 (rolling_extreme period low j l lo Hl) Elo)
      as [-> | (m & -> & Hm)]; [left; reflexivity |].
    destruct (proj2 (rolling_extreme period high j h hi Hh) Ehi)
      as [-> | (M & -> & HM)]; [left; reflexivity |].
    apply stochastic_value. lra. }
  intros [Hv | Hv].
  - now apply (Hk i).
  - revert Hv. apply rolling_mean_nonneg.
    intros q Hin. apply In_nth_error in Hin. destruct Hin as [j Hj].
    destruct (Hk j _ Hj) as [H | (q' & H & Hq')]; [discriminate |].
    now inversion H.
Qed.

Lemma stochastic_never_negative_witness :
  nth 14 (fst (calculate_stochastic (highs 16) (lows 16) (closes 16) 14)) NaN
  = NaN
  \/ exists q,
       nth 14 (fst (calculate_stochastic (highs 16) (lows 16) (closes 16) 14))
         NaN = Fin q
       /\ (0 <= q)%Q.
Proof.
  apply (stochastic_never_negative (highs 16) (lows 16) (closes 16) 14 14).
  - vm_compute. reflexivity.
  - left. vm_compute. reflexivity.
Defined.

(* ----------------------------------------------------------------- *)
(** ** The relative strength index of a monotone close *)

Ltac monotone_spec :=
  let s := fresh "s" in
  let IH := fresh "IH" in
  intros s; induction s as [| x s IH];
  [ intros _; split;
    [ intros i _ Hi; simpl in Hi; lia
    | intros [| j] a b H; discriminate ]
  | destruct x as [x | | |]; try discriminate;
    destruct s as [| y s];
    [ intros _; split;
      [ intros [| i] _ Hi; [now exists x | simpl in Hi; lia]
      | intros [| j] a b _ H; [discriminate | destruct j; discriminate] ]
    | destruct y as [y | | |]; try discriminate;
      intros H; cbn in H; apply andb_true_iff in H;
      destruct H as [Hxy Hs]; apply Qltb_lt in Hxy;
      destruct (IH Hs) as [Hfin Hstep]; split;
      [ intros [| i] _ Hi;
        [now exists x | apply (Hfin i); [lia | simpl in Hi |- *; lia]]
      | intros [| j] a b Ha Hb;
        [ cbn in Ha, Hb; inversion Ha; inversion Hb; subst; exact Hxy
        | apply (Hstep j); assumption ] ] ] ].

Lemma strictly_rising_spec :
  forall s : Series,
    strictly_rising s = true ->
    finite_series s
    /\ forall j a b,
         nth_error s j = Some (Fin a) -> nth_error s (S j) = Some (Fin b) ->
         (a < b)%Q.
Proof. monotone_spec. Qed.

Lemma strictly_falling_spec :
  forall s : Series,
    strictly_falling s = true ->
    finite_series s
    /\ forall j a b,
         nth_error s j = Some (Fin a) -> nth_error s (S j) = Some (Fin b) ->
         (b < a)%Q.
Proof. monotone_spec. Qed.

(** A rolling mean over a finite series, once the window is full. *)
Lemma rolling_mean_full (w : nat) (t : Series) (i : nat) :
  1 <= w -> finite_series t -> w - 1 <= i -> i < length t ->
  exists obs,
    nth_error (rolling w agg_mean t) i = Some (Fin (Qmean obs))
    /\ obs <> []
    /\ (forall q, In q obs -> In (Fin q) t)
    /\ (forall x, nth_error t i = Some (Fin x) -> In x obs).
Proof.
  intros Hw Ht Hi Hlen.
  assert (Hagg : forall obs, length obs = w -> exists q, agg_mean obs = Fin q)
    by (intros obs _; now eexists).
  destruct (rolling_present w 0 agg_mean t Hw Hagg Ht i) as [q Hq];
    [simpl; lia | now rewrite length_rolling |].
  destruct (rolling_value _ _ _ _ _ Hq) as [H | (H & _ & Hobs)];
    [discriminate |].
  exists (observations (window w t i)). split; [now rewrite Hq, H |].
  split; [| split].
  - intros E. rewrite E in Hobs. simpl in Hobs. lia.
  - intros x Hx. apply In_observations in Hx. apply In_window in Hx.
    destruct Hx as (j & _ & Hj). eapply nth_error_In; eassumption.
  - intros x Hx. apply observations_In.
    apply (window_In w t i i); [lia | assumption].
Qed.

Lemma Qmean_zero (l : list Q) :
  (forall q, In q l -> (q == 0)%Q) -> (Qmean l == 0)%Q.
Proof.
  intros H.
  assert (Hb : (0 * Qlen l <= Qsum l <= 0 * Qlen l)%Q).
  { apply Qsum_bounds. intros q Hq. rewrite (H q Hq). split; apply Qle_refl. }
  assert (Hz : (Qsum l == 0)%Q) by lra.
  unfold Qmean, Qdiv. rewrite Hz. ring.
Qed.

Lemma Qsum_pos (l : list Q) (x : Q) :
  (forall q, In q l -> (0 <= q)%Q) -> In x l -> (0 < x)%Q -> (0 < Qsum l)%Q.
Proof.
  induction l as [| y l IH]; intros Hall Hin Hx; [contradiction |].
  unfold Qsum. cbn [fold_right]. fold (Qsum l).
  assert (Hy : (0 <= y)%Q) by (apply Hall; now left).
  assert (Hl : (0 <= Qsum l)%Q).
  { apply Qsum_nonneg. intros q Hq. apply Hall. now right. }
  destruct Hin as [-> | Hin]; [lra |].
  assert (0 < Qsum l)%Q; [| lra].
  apply IH; try assumption. intros q Hq. apply Hall. now right.
Qed.

Lemma Qmean_pos (l : list Q) (x : Q) :
  (forall q, In q l -> (0 <= q)%Q) -> In x l -> (0 < x)%Q -> (0 < Qmean l)%Q.
Proof.
  intros Hall Hin Hx. unfold Qmean.
  apply Qlt_shift_div_l.
  - apply Qlen_pos. intros E. now rewrite E in Hin.
  - rewrite Qmult_0_l. eapply Qsum_pos; eassumption.
Qed.

Lemma rsi_zero_gain (g l : Q) :
  (g == 0)%Q -> (0 < l)%Q ->
  exists q, rsi_of_rs (vdiv (Fin g) (Fin l)) = Fin q /\ (q == 0)%Q.
Proof.
  intros Hg Hl. cbn [vdiv].
  destruct (Qeq_bool l 0) eqn:E.
  { apply Qeq_bool_eq in E. lra. }
  assert (Hrs : (g / l == 0)%Q).
  { unfold Qdiv. rewrite Hg. ring. }
  unfold rsi_of_rs, vsub. cbn [vadd vdiv].
  destruct (Qeq_bool (1 + g / l) 0) eqn:E1.
  { apply Qeq_bool_eq in E1. lra. }
  cbn [vneg vadd]. eexists. split; [reflexivity |].
  rewrite Hrs. reflexivity.
Qed.

(** X17.  On a strictly rising close the relative strength index is the
    number 100 on every row from [max (period - 1) 1] on, and on a
    strictly falling close it is the number 0 there. *)
Theorem rsi_of_monotone_close (series : Series) (period i : nat) :
  1 <= period -> Nat.max (period - 1) 1 <= i -> i < length series ->
  (strictly_rising series = true ->
   exists q, nth_error (calculate_rsi series period) i = Some (Fin q)
             /\ (q == 100)%Q)
  /\ (strictly_falling series = true ->
      exists q, nth_error (calculate_rsi series period) i = Some (Fin q)
                /\ (q == 0)%Q).
Proof.
  intros Hp Hi Hlen.
  assert (Hrsi : finite_series series ->
             exists gobs lobs,
               nth_error (calculate_rsi series period) i
               = Some (rsi_of_rs (vdiv (Fin (Qmean gobs)) (Fin (Qmean lobs))))
               /\ (forall q, In q gobs ->
                     In (Fin q)
                        (where_ (fun d => vgt d (Fin 0)) (Fin 0)
                           (diff series)))
               /\ (forall q, In q lobs ->
                     In (Fin q)
                        (map vneg
                           (where_ (fun d => vlt d (Fin 0)) (Fin 0)
                              (diff series))))
               /\ (forall a b,
                     nth_error series (i - 1) = Some (Fin a) ->
                     nth_error series i = Some (Fin b) ->
                     ((0 < b + - a)%Q -> In (b + - a)%Q gobs)
                     /\ ((b + - a < 0)%Q -> In (- (b + - a))%Q lobs))).
  { intros Hfin.
    destruct (rolling_mean_full period _ i Hp (gains_finite series Hfin))
      as (gobs & Hg & _ & Hgall & Hgi);
      [lia | unfold where_; now rewrite length_map, length_diff |].
    destruct (rolling_mean_full period _ i Hp (losses_finite series Hfin))
      as (lobs & Hl & _ & Hlall & Hli);
      [lia | unfold where_; now rewrite !length_map, length_diff |].
    exists gobs, lobs.
    split; [now apply nth_error_calculate_rsi |].
    split; [assumption |]. split; [assumption |].
    intros a b Ha Hb.
    assert (Hd : nth_error (diff series) i = Some (Fin (b + - a))).
    { destruct i as [| j]; [lia |].
      rewrite Nat.sub_succ, Nat.sub_0_r in Ha.
      now rewrite (nth_error_diff_S series j (Fin a) (Fin b) Ha Hb). }
    split; intros Hsign.
    - apply Hgi. unfold where_. rewrite nth_error_map, Hd. cbn [option_map].
      unfold vgt. cbn [vlt].
      now rewrite (proj2 (Qltb_lt 0 (b + - a)) Hsign).
    - apply Hli. unfold where_. rewrite !nth_error_map, Hd.
      cbn [option_map vlt].
      now rewrite (proj2 (Qltb_lt (b + - a) 0) Hsign). }
  split; intros Hmono.
  - apply strictly_rising_spec in Hmono. destruct Hmono as [Hfin Hstep].
    destruct (Hrsi Hfin) as (gobs & lobs & Hv & Hgall & Hlall & Hat).
    destruct (Hfin (i - 1) ltac:(lia) ltac:(lia)) as [a Ha].
    destruct (Hfin i ltac:(lia) Hlen) as [b Hb].
    assert (Hab : (a < b)%Q).
    { apply (Hstep (i - 1)); [assumption |].
      now replace (S (i - 1)) with i by lia. }
    assert (Hg : (0 < Qmean gobs)%Q).
    { apply (Qmean_pos gobs (b + - a)).
      - intros q Hq. eapply gains_nonneg. apply Hgall. exact Hq.
      - apply (Hat a b Ha Hb). lra.
      - lra. }
    assert (Hl : (Qmean lobs == 0)%Q).
    { apply Qmean_zero. intros q Hq. apply Hlall in Hq.
      unfold where_ in Hq. rewrite map_map in Hq.
      apply in_map_iff in Hq. destruct Hq as (d & Hd & Hin).
      apply In_nth_error in Hin. destruct Hin as [j Hj].
      assert (Hjlen : j < length series).
      { rewrite <- (length_diff series). apply nth_error_Some. congruence. }
      destruct (diff_entries series j Hfin Hjlen)
        as [[_ E] | (j' & x & y & -> & Hx & Hy & E)];
        rewrite E in Hj; inversion Hj; subst d; clear Hj.
      + cbn in Hd. inversion Hd. reflexivity.
      + assert (Hxy : (x < y)%Q) by (apply (Hstep j'); assumption).
        cbn [vlt] in Hd.
        rewrite (proj2 (Qltb_ge (y + - x) 0)) in Hd by lra.
        cbn in Hd. inversion Hd. reflexivity. }
    destruct (rsi_zero_loss (Qmean gobs) (Qmean lobs)
                (Qlt_le_weak _ _ Hg) Hl) as [Hpos _].
    destruct (Hpos Hg) as (_ & q & Hq & H100).
    exists q. split; [now rewrite Hv, Hq | assumption].
  - apply strictly_falling_spec in Hmono. destruct Hmono as [Hfin Hstep].
    destruct (Hrsi Hfin) as (gobs & lobs & Hv & Hgall & Hlall & Hat).
    destruct (Hfin (i - 1) ltac:(lia) ltac:(lia)) as [a Ha].
    destruct (Hfin i ltac:(lia) Hlen) as [b Hb].
    assert (Hab : (b < a)%Q).
    { apply (Hstep (i - 1)); [assumption |].
      now replace (S (i - 1)) with i by lia. }
    assert (Hl : (0 < Qmean lobs)%Q).
    { apply (Qmean_pos lobs (- (b + - a))).
      - intros q Hq. eapply losses_nonneg. apply Hlall. exact Hq.
      - apply (Hat a b Ha Hb). lra.
      - lra. }
    assert (Hg : (Qmean gobs == 0)%Q).
    { apply Qmean_zero. intros q Hq. apply Hgall in Hq.
      unfold where_ in Hq.
      apply in_map_iff in Hq. destruct Hq as (d & Hd & Hin).
      apply In_nth_error in Hin. destruct Hin as [j Hj].
      assert (Hjlen : j < length series).
      { rewrite <- (length_diff series). apply nth_error_Some. congruence. }
      destruct (diff_entries series j Hfin Hjlen)
        as [[_ E] | (j' & x & y & -> & Hx & Hy & E)];
        rewrite E in Hj; inversion Hj; subst d; clear Hj.
      + cbn in Hd. inversion Hd. reflexivity.
      + assert (Hxy : (y < x)%Q) by (apply (Hstep j'); assumption).
        unfold vgt in Hd. cbn [vlt] in Hd.
        rewrite (proj2 (Qltb_ge 0 (y + - x))) in Hd by lra.
        inversion Hd. reflexivity. }
    destruct (rsi_zero_gain (Qmean gobs) (Qmean lobs) Hg Hl)
      as (q & Hq & H0).
    exists q. split; [now rewrite Hv, Hq | assumption].
Qed.

Lemma rsi_of_monotone_close_witness :
  (exists q, nth_error (calculate_rsi (closes 16) 14) 14 = Some (Fin q)
             /\ (q == 100)%Q)
  /\ (exists q,
        nth_error (calculate_rsi (MoreExamples.falling 16) 14) 14
        = Some (Fin q)
        /\ (q == 0)%Q).
Proof.
  split.
  - apply (rsi_of_monotone_close (closes 16) 14 14).
    + lia.
    + vm_compute. lia.
    + vm_compute. lia.
    + vm_compute. reflexivity.
  - apply (rsi_of_monotone_close (MoreExamples.falling 16) 14 14).
    + lia.
    + vm_compute. lia.
    + vm_compute. lia.
    + vm_compute. reflexivity.
Defined.

(* ----------------------------------------------------------------- *)
(** ** From the file to the dataset *)

Lemma length_cumsum_from (a : list num) :
  forall acc, length (cumsum_from acc a) = length a.
Proof.
  induction a as [| x a IH]; intros acc; simpl; [reflexivity |].
  now rewrite IH.
Qed.

Lemma calculate_obv_same_length (close volume : Series) :
  length close = length volume ->
  exists obv, calculate_obv close volume = Some obv
              /\ length obv = length close.
Proof.
  intros Hlen. unfold calculate_obv.
  assert (H1 : length (map (fun d => vgt d (Fin 0)) (diff close))
               = length volume)
    by now rewrite length_map, length_diff.
  assert (H2 : length volume = length (map vneg volume))
    by now rewrite length_map.
  rewrite (np_where_same _ _ _ H1 H2).
  destruct (select_spec _ _ _ H1 H2) as [Hsel _].
  eexists. split; [reflexivity |].
  unfold cumsum. now rewrite length_cumsum_from, Hsel, length_map, length_diff.
Qed.

(** Rows that the filter rejects at the head of a list are not counted. *)
Lemma filter_head_rejected {A} (f : A -> bool) (l : list A) (k : nat) :
  (forall i x, i < k -> nth_error l i = Some x -> f x = false) ->
  length (filter f l) <= length l - k.
Proof.
  revert k; induction l as [| a l IH]; intros k Hk; [simpl; lia |].
  destruct k as [| k].
  - pose proof (filter_length_le f (a :: l)). lia.
  - cbn [filter]. rewrite (Hk 0 a ltac:(lia) eq_refl).
    cbn [length]. rewrite Nat.sub_succ. apply IH.
    intros i x Hi Hx. apply (Hk (S i)); [lia | exact Hx].
Qed.

(** X20.  Cells 2 to 8 on any file: the indicator table is always built
    and has one row per record; its first 33 rows have no MACD signal;
    and whenever the scaler and the dataset constructor accept the
    table, the dataset holds at least one and at most [n - 33] rows, so a
    file of 33 records or fewer never yields a dataset. *)
Theorem warm_up_rows_never_reach_the_dataset
    (sqrt : Q -> Q) (ticks : list Tick) :
  exists table,
    indicator_table sqrt ticks = Some table
    /\ length table = length ticks
    /\ (forall i r, i < 33 -> nth_error table i = Some r ->
          cell r MACD_signal = NaN)
    /\ (forall ds, prepare sqrt ticks = Some ds ->
          1 <= length (data ds)
          /\ length (data ds) + 33 <= length ticks
          /\ (len ds <= Z.of_nat (length ticks) - 93)%Z).
Proof.
  unfold prepare, indicator_table, calculate_technical_indicators.
  set (o := preprocess ticks).
  assert (Hlen : length (col_Close o) = length (col_Volume o)).
  { unfold o, preprocess. cbn [col_Close col_Volume].
    now rewrite !length_map. }
  destruct (calculate_obv_same_length _ _ Hlen) as (obv & Hobv & _).
  unfold calculate_macd, calculate_stochastic, calculate_bollinger_bands.
  cbv beta iota zeta. rewrite Hobv.
  pose proof (macd_warm_up (col_Close o) 12 26 9
                ltac:(lia) ltac:(lia) ltac:(lia)) as Hmacd.
  unfold calculate_macd in Hmacd. cbv beta iota zeta in Hmacd.
  destruct Hmacd as (_ & Hsig & _).
  change (Nat.max 12 26 - 1 + (9 - 1)) with 33 in Hsig.
  set (sig := ewm_mean 9 9
                (align vsub (ewm_mean 12 12 (col_Close o))
                   (ewm_mean 26 26 (col_Close o)))) in *.
  eexists. split; [reflexivity |].
  match goal with
  | |- length (map ?g _) = _ /\ _ => set (mk := g)
  end.
  assert (Hrow : forall i r,
             i < 33 -> nth_error (map mk (seq 0 (length ticks))) i = Some r ->
             cell r MACD_signal = NaN).
  { intros i r Hi Hr. rewrite nth_error_map in Hr.
    destruct (nth_error (seq 0 (length ticks)) i) as [j |] eqn:Ej;
      [| discriminate].
    assert (Hj : i < length ticks).
    { rewrite <- (length_seq (length ticks) 0). apply nth_error_Some.
      congruence. }
    rewrite nth_error_seq in Ej.
    destruct (Nat.ltb_spec i (length ticks)); [| lia].
    inversion Ej; subst j. cbn [option_map] in Hr. inversion Hr; subst r.
    unfold mk. cbn [cell].
    destruct (Nat.lt_ge_cases i (length sig)) as [Hin | Hout].
    - apply nth_error_nth. now apply Hsig.
    - now apply nth_overflow. }
  split; [now rewrite length_map, length_seq |].
  split; [exact Hrow |].
  intros ds Hds.
  set (table := map mk (seq 0 (length ticks))) in *.
  assert (Htab : length table = length ticks)
    by (unfold table; now rewrite length_map, length_seq).
  unfold fit_transform in Hds.
  destruct (check_array table); [| discriminate].
  apply init_spec in Hds. destruct Hds as [Hcheck ->].
  unfold len. cbn [data seq_len]. rewrite length_map.
  assert (Hle : length (dropna (map (rescale table) table))
                <= length ticks - 33).
  { rewrite <- Htab, <- (length_map (rescale table) table).
    apply filter_head_rejected. intros i r' Hi Hr'.
    rewrite nth_error_map in Hr'.
    destruct (nth_error table i) as [r |] eqn:Er; [| discriminate].
    cbn [option_map] in Hr'. inversion Hr'; subst r'.
    destruct (complete (rescale table r)) eqn:Ec; [| reflexivity].
    apply (complete_cell _ MACD_signal) in Ec.
    unfold rescale in Ec. cbn [cell] in Ec.
    rewrite (Hrow i r Hi Er) in Ec. discriminate. }
  assert (Hne : 1 <= length (dropna (map (rescale table) table))).
  { apply check_array_spec in Hcheck. destruct Hcheck as [Hne _].
    destruct (dropna (map (rescale table) table));
      [congruence | simpl; lia]. }
  unfold default_seq_len. lia.
Qed.

(** X21.  On any file [calculate_technical_indicators] raises nothing,
    and each of the twelve feature columns it returns has exactly one
    entry per record of the file. *)
Theorem feature_columns_cover_every_record
    (sqrt : Q -> Q) (ticks : list Tick) :
  exists cols,
    calculate_technical_indicators sqrt (preprocess ticks) = Some cols
    /\ forall f, length (cols f) = length ticks.
Proof.
  unfold calculate_technical_indicators.
  set (o := preprocess ticks).
  assert (Hc : length (col_Close o) = length ticks)
    by (unfold o, preprocess; cbn [col_Close]; now rewrite length_map).
  assert (Hv : length (col_Volume o) = length ticks)
    by (unfold o, preprocess; cbn [col_Volume]; now rewrite length_map).
  assert (Hh : length (col_High o) = length ticks).
  { unfold o, preprocess. cbn [col_High].
    rewrite length_map, length_combine, !length_map. apply Nat.min_id. }
  assert (Hl : length (col_Low o) = length ticks).
  { unfold o, preprocess. cbn [col_Low].
    rewrite length_map, length_combine, !length_map. apply Nat.min_id. }
  destruct (calculate_obv_same_length (col_Close o) (col_Volume o))
    as (obv & Hobv & Hobvlen); [congruence |].
  pose proof (length_calculate_macd (col_Close o) 12 26 9
                ltac:(lia) ltac:(lia) ltac:(lia)) as Hmacd.
  pose proof (length_calculate_stochastic (col_High o) (col_Low o)
                (col_Close o) 14 ltac:(congruence) ltac:(congruence))
    as Hstoch.
  pose proof (length_calculate_bollinger_bands sqrt (col_Close o) 20) as Hbb.
  pose proof (length_calculate_atr (col_High o) (col_Low o) (col_Close o) 14
                ltac:(congruence) ltac:(congruence)) as Hatr.
  pose proof (length_calculate_adx (col_High o) (col_Low o) (col_Close o) 14
                ltac:(congruence) ltac:(congruence)) as Hadx.
  pose proof (length_calculate_rsi (col_Close o) 14) as Hrsi.
  destruct (calculate_macd (col_Close o) 12 26 9) as [[macd sig] hist].
  destruct (calculate_stochastic (col_High o) (col_Low o) (col_Close o) 14)
    as [k d].
  destruct (calculate_bollinger_bands sqrt (col_Close o) 20)
    as [[upper sma] lower].
  rewrite Hobv.
  eexists. split; [reflexivity |].
  destruct Hmacd as (? & ? & ?), Hstoch as (? & ?), Hbb as (? & ? & ?).
  intros f. destruct f; congruence.
Qed.
